(** * vue-snowfall: the [useSnowfall] composable

    A shallow embedding of [useSnowfall] (src/useSnowfall.js, of which the
    repository also ships a comment-free copy with the same logic) and the
    properties of its lifecycle: spawning, removal, start, stop.

    Conventions of the embedding.
    - The closure variables of one [useSnowfall] call and the part of the
      host page they act on (elements, interval timers, console) form one
      [state] record; every function of the closure is a computation in a
      state-and-exception monad [M] over it.
    - A member access on [null] raises [TypeError]; the guards of the source
      ([if (styleElement)], [flake && flake.parentNode], ...) are kept as
      tests, and the accesses they protect as [deref].  An exception keeps
      the state in which it was raised: nothing is rolled back.
    - What the browser answers to a call ([document.querySelector],
      [getComputedStyle], layout measures, [Math.random]) is a [host]
      record handed to each entry point.  A user [agent] is a host together
      with the strings that its selector parser rejects: on those
      [document.querySelector] throws a [SyntaxError].  A host used where an
      agent is expected is the agent that rejects no string.
    - The tree of the document is kept by its parent pointers: the
      children of a node are the nodes whose [parentNode] it is, and
      [appendChild] and [remove] change the children of a node by changing
      the parent of the child.  The order of the children is not modelled.
    - JavaScript numbers are exact rationals [Q].  The source computes in
      IEEE doubles, which round after every operation; what is stated of
      the value that a draw of [Math.random] gives is stated to the
      accuracy of that rounding ([drawn]).
    - The document has its [body] and its [head].
    - Template strings such as [`${flakeSize}px`] are kept as the number
      they print; the text of the style sheet and the path of the glyph are
      not modelled, nor is [animationStyleElement], which the source
      declares and never uses.
    - Besides the two operations, the page can fire an interval timer,
      deliver [animationend] to a node, or detach a node by itself; a
      [run] is any sequence of these events. *)

From Stdlib Require Import QArith Qround Qabs Qminmax Lia Lqa.
From stdpp Require Import gmap strings list fin_maps.

Set Default Proof Using "Type".

(** ** The host page *)

(** DOM nodes are named by identity. *)
Definition node := nat.

Definition document_body : node := 0%nat.
Definition document_head : node := 1%nat.

(** The inline style a snowflake receives (lines 140-148): [left] in
    percent, [width] and [height] in pixels, the two custom properties in
    pixels, the duration of the animation in seconds and the fill colour of
    the glyph. *)
Record flake_css := FlakeCss {
  css_left : Z;
  css_width : Z;
  css_height : Z;
  css_snow_x : Q;
  css_snow_x_end : Q;
  css_duration : Q;
  css_fill : string
}.

Record element := Element {
  tagName : string;
  parentNode : option node;
  className : string;
  style_position : string;            (* inline [style.position] *)
  attributes : gmap string string;
  flake_style : option flake_css;
  animationend_once : bool            (* the [{ once: true }] listener *)
}.

Definition blank (tag : string) : element :=
  Element tag None EmptyString EmptyString ∅ None false.

Definition with_parent (p : option node) (e : element) : element :=
  Element (tagName e) p (className e) (style_position e) (attributes e)
          (flake_style e) (animationend_once e).

Definition with_position (v : string) (e : element) : element :=
  Element (tagName e) (parentNode e) (className e) v (attributes e)
          (flake_style e) (animationend_once e).

Definition with_attributes (a : gmap string string) (e : element) : element :=
  Element (tagName e) (parentNode e) (className e) (style_position e) a
          (flake_style e) (animationend_once e).

Definition with_listener (b : bool) (e : element) : element :=
  Element (tagName e) (parentNode e) (className e) (style_position e)
          (attributes e) (flake_style e) b.

Definition as_flake (c : flake_css) (e : element) : element :=
  Element (tagName e) (parentNode e) "vue-snowfall-flake" (style_position e)
          (attributes e) (Some c) (animationend_once e).

(** The two callbacks handed to [setInterval]. *)
Inductive callback := CreateSnowflake | CleanupSnowflakes.

Inductive host_call :=
| QuerySelector (selector : string)
| ConsoleWarn (message : string).

(** What the browser answers during one entry into the closure.
    [Math_random k] is the result of the k-th call of [Math.random]. *)
Record host := Host {
  querySelector : string → option node;
  computedPosition : node → string;
  innerHeight : Q;
  offsetHeight : node → Q;
  boundingTop : node → Q;
  Math_random : nat → Q
}.

Definition random_ok (h : host) : Prop :=
  ∀ k, (0 <= Math_random h k)%Q ∧ (Math_random h k < 1)%Q.

(** A user agent: the strings that [document.querySelector] refuses as
    selectors, throwing a [SyntaxError] (the empty string is one in every
    browser), and what it answers otherwise. *)
Record agent := Agent {
  rejects : string → bool;
  answers : host
}.

(** The agent that parses every string and answers as [h] does. *)
Definition accepting (h : host) : agent := Agent (λ _, false) h.

Coercion accepting : host >-> agent.

(** ** Options *)

(** The three shapes of [options.container] that [getContainer] tells
    apart: a string, an [HTMLElement], anything else. *)
Inductive container_value :=
| CSelector (selector : string)
| CElement (el : node)
| COther.

Record options := Options {
  container : container_value;
  interval : Q;
  minSpeed : Q;
  maxSpeed : Q;
  minSize : Q;
  maxSize : Q;
  color : string;
  zIndex : Z;
  maxFlakes : option Q;
  chaos : Q
}.

(** Lines 17-28: the defaults of the destructuring. *)
Definition defaults : options :=
  Options (CElement document_body) 500 20 30 10 30 "#fff" 999 None 50.

(** One flake at a time, of size 10, falling for one second. *)
Definition one_at_a_time : options :=
  Options (CElement document_body) 100 1 1 10 10 "#fff" 999 (Some 1%Q) 50.

Definition with_container (v : container_value) (o : options) : options :=
  Options v (interval o) (minSpeed o) (maxSpeed o) (minSize o) (maxSize o)
          (color o) (zIndex o) (maxFlakes o) (chaos o).

Definition with_maxFlakes (v : option Q) (o : options) : options :=
  Options (container o) (interval o) (minSpeed o) (maxSpeed o) (minSize o)
          (maxSize o) (color o) (zIndex o) v (chaos o).

Definition with_chaos (v : Q) (o : options) : options :=
  Options (container o) (interval o) (minSpeed o) (maxSpeed o) (minSize o)
          (maxSize o) (color o) (zIndex o) (maxFlakes o) v.

(** ** State of one instance *)

Record state := State {
  flakeIntervalId : option positive;
  cleanupIntervalId : option positive;
  styleElement : option node;
  containerElement : option node;
  activeFlakes : list node;           (* a [Set], in insertion order *)
  elements : gmap node element;
  intervals : gmap positive (callback * Q);
  trace : list host_call
}.

(** Lines 30-35, on a page whose elements are [d]. *)
Definition init (d : gmap node element) : state :=
  State None None None None [] d ∅ [].

Definition set_flakeIntervalId (v : option positive) (s : state) : state :=
  State v (cleanupIntervalId s) (styleElement s) (containerElement s)
        (activeFlakes s) (elements s) (intervals s) (trace s).

Definition set_cleanupIntervalId (v : option positive) (s : state) : state :=
  State (flakeIntervalId s) v (styleElement s) (containerElement s)
        (activeFlakes s) (elements s) (intervals s) (trace s).

Definition set_styleElement (v : option node) (s : state) : state :=
  State (flakeIntervalId s) (cleanupIntervalId s) v (containerElement s)
        (activeFlakes s) (elements s) (intervals s) (trace s).

Definition set_containerElement (v : option node) (s : state) : state :=
  State (flakeIntervalId s) (cleanupIntervalId s) (styleElement s) v
        (activeFlakes s) (elements s) (intervals s) (trace s).

Definition set_activeFlakes (v : list node) (s : state) : state :=
  State (flakeIntervalId s) (cleanupIntervalId s) (styleElement s)
        (containerElement s) v (elements s) (intervals s) (trace s).

Definition set_elements (v : gmap node element) (s : state) : state :=
  State (flakeIntervalId s) (cleanupIntervalId s) (styleElement s)
        (containerElement s) (activeFlakes s) v (intervals s) (trace s).

Definition set_intervals (v : gmap positive (callback * Q)) (s : state) : state :=
  State (flakeIntervalId s) (cleanupIntervalId s) (styleElement s)
        (containerElement s) (activeFlakes s) (elements s) v (trace s).

Definition set_trace (v : list host_call) (s : state) : state :=
  State (flakeIntervalId s) (cleanupIntervalId s) (styleElement s)
        (containerElement s) (activeFlakes s) (elements s) (intervals s) v.

(** ** The monad of the closure's functions *)

Inductive exn := TypeError | SyntaxError.

(** A computation returns a value and a state, or raises an exception in
    the state it has reached. *)
Inductive result (A : Type) :=
| Ok (a : A)
| Throw (e : exn) (s : state).
Arguments Ok {A} a.
Arguments Throw {A} e s.

Definition M (A : Type) : Type := state → result (A * state).

Definition ret {A} (a : A) : M A := λ s, Ok (a, s).

Definition bind {A B} (m : M A) (k : A → M B) : M B :=
  λ s, match m s with
       | Ok (a, s') => k a s'
       | Throw e s' => Throw e s'
       end.

Declare Scope js_scope.
Delimit Scope js_scope with js.
Notation "'let!' x ':=' m 'in' k" := (bind m (λ x, k))
  (at level 10, x name, m at level 100, k at level 200) : js_scope.
Notation "m '>>' k" := (bind m (λ _, k))
  (at level 100, k at level 200, right associativity) : js_scope.

Definition get {A} (f : state → A) : M A := λ s, Ok (f s, s).
Definition modify (f : state → state) : M unit := λ s, Ok (tt, f s).
Definition throw {A} (e : exn) : M A := λ s, Throw e s.

(** A call made by the page, a timer or an event: an exception that
    leaves it is the page's to report, and the closure lives on in the
    state it was in. *)
Definition uncaught (m : M unit) : M unit :=
  λ s, match m s with
       | Ok r => Ok r
       | Throw _ s' => Ok (tt, s')
       end.

(** [if (x)] on a value that is [null] or an object (or a timer id, which
    browsers number from 1). *)
Definition truthy {A} (o : option A) : bool :=
  match o with Some _ => true | None => false end.

(** [x.member] raises when [x] is [null]. *)
Definition deref {A} (o : option A) : M A :=
  match o with Some a => ret a | None => throw TypeError end.

Definition when (b : bool) (m : M unit) : M unit :=
  if b then m else ret tt.

(** [array.forEach(f)], and [set.forEach(f)] when [f] deletes at most the
    element it is visiting. *)
Fixpoint forEach {A} (f : A → M unit) (l : list A) : M unit :=
  match l with
  | [] => ret tt
  | x :: l' => bind (f x) (λ _, forEach f l')
  end.

(** [m] called [n] times in a row. *)
Fixpoint times (n : nat) (m : M unit) : M unit :=
  match n with
  | O => ret tt
  | S n' => bind m (λ _, times n' m)
  end.

(** ** DOM primitives

    The page is the finite map [elements].  A node that the map does not
    hold reads as a blank, detached element and ignores writes; the nodes
    [createElement] returns are fresh for the map. *)

Definition update_element (f : element → element) (n : node) : M unit :=
  modify (λ s, set_elements (alter f n (elements s)) s).

Definition read_element {A} (f : element → A) (dflt : A) (n : node) : M A :=
  get (λ s, from_option f dflt (elements s !! n)).

Definition createElement (tag : string) : M node :=
  λ s, let n := fresh (dom (elements s)) in
       Ok (n, set_elements (<[n := blank tag]> (elements s)) s).

Definition getParentNode (n : node) : M (option node) :=
  read_element parentNode None n.

(** [n.remove()]: [n] is the child of no node any more. *)
Definition remove_node (n : node) : M unit :=
  update_element (with_parent None) n.

(** [p.appendChild(n)]: [n] becomes a child of [p], and of [p] only. *)
Definition appendChild (p n : node) : M unit :=
  update_element (with_parent (Some p)) n.

Definition getAttribute (n : node) (name : string) : M (option string) :=
  read_element (λ e, attributes e !! name) None n.

Definition setAttribute (n : node) (name value : string) : M unit :=
  update_element (λ e, with_attributes (<[name := value]> (attributes e)) e) n.

Definition removeAttribute (n : node) (name : string) : M unit :=
  update_element (λ e, with_attributes (delete name (attributes e)) e) n.

Definition get_style_position (n : node) : M string :=
  read_element style_position EmptyString n.

Definition set_style_position (n : node) (v : string) : M unit :=
  update_element (with_position v) n.

Definition setInterval (cb : callback) (delay : Q) : M positive :=
  λ s, let i := fresh (dom (intervals s)) in
       Ok (i, set_intervals (<[i := (cb, delay)]> (intervals s)) s).

Definition clearInterval (i : positive) : M unit :=
  modify (λ s, set_intervals (delete i (intervals s)) s).

Definition record (c : host_call) : M unit :=
  modify (λ s, set_trace (trace s ++ [c]) s).

(** [document.querySelector(selector)]: the first match or [null], or a
    [SyntaxError] when the string is not a selector. *)
Definition document_querySelector (b : agent) (selector : string)
    : M (option node) :=
  bind (record (QuerySelector selector))
       (λ _, if rejects b selector then throw SyntaxError
             else ret (querySelector (answers b) selector)).

(** [Set.prototype.add] and [Set.prototype.delete]. *)
Definition set_add (x : node) (l : list node) : list node :=
  if bool_decide (x ∈ l) then l else l ++ [x].

Definition set_delete (x : node) (l : list node) : list node :=
  filter (λ y, y ≠ x) l.

(** [a || b] on strings: the empty string is falsy. *)
Definition or_string (a b : string) : string :=
  if bool_decide (a = EmptyString) then b else a.

Definition position_attribute : string := "data-vue-snowfall-position".

Definition dquote : string := String (Ascii.ascii_of_nat 34) EmptyString.

Definition not_found_warning (selector : string) : string :=
  "Container selector " ++ dquote ++ selector ++ dquote
  ++ " not found, using document.body".

(** ** Numbers

    The arithmetic is exact.  The source computes in doubles, where each
    operation rounds to the closest double: its result lies within
    [(|min| + |max|) / 2^50] of the exact one ([drawn], below) and may
    fall on the other side of a rounding boundary.  What is stated of a
    sampled value below is stated to that accuracy. *)

(** Line 111: [Math.random() * (max - min) + min], on the draw [r]. *)
Definition random (min max r : Q) : Q := (r * (max - min) + min)%Q.

(** Line 116.  The source calls it once, as [randomInt(1, 99)]. *)
Definition randomInt (min max r : Q) : Z := Qfloor (random min (max + 1) r).

(** [Math.round]: the nearest integer, halves towards positive infinity. *)
Definition Math_round (x : Q) : Z := Qfloor (x + (1 # 2))%Q.

(** [x] is what [random(lo, hi)] makes of the draw [r], to the accuracy of
    double arithmetic: no further than [(|lo| + |hi|) / 2^50] from
    [r * (hi - lo) + lo], the point at the fraction [r] of the way from
    [lo] to [hi]. *)
Definition drawn (lo hi r x : Q) : Prop :=
  (Qabs (x - (r * (hi - lo) + lo))
   <= (Qabs lo + Qabs hi) / inject_Z (2 ^ 50))%Q.

(** ** A page to run on

    A document with its body, its head and one [div], node 5, whose inline
    style is [position: static]; and a browser that finds no element for
    any selector, computes every position as [static] and draws 1/2 at
    every call of [Math.random]. *)
Definition box : node := 5%nat.

Definition page : gmap node element :=
  <[box := with_position "static" (blank "div")]>
    (<[document_head := blank "head"]>
       (<[document_body := blank "body"]> ∅)).

Definition browser : host :=
  Host (λ _, None) (λ _, "static") 800 (λ _, 600%Q) (λ _, 0%Q) (λ _, (1 # 2)%Q).

(** A browser in which every flake has fallen to 900, past the viewport of
    800 and the margin of 50. *)
Definition late_browser : host :=
  Host (λ _, None) (λ _, "static") 800 (λ _, 600%Q) (λ _, 900%Q)
       (λ _, (1 # 2)%Q).

(** The browser with its parser: the empty string is no selector. *)
Definition strict_browser : agent :=
  Agent (λ selector, bool_decide (selector = EmptyString)) browser.

(** How many [document.querySelector] calls and how many warnings a trace
    holds. *)
Definition is_query (c : host_call) : bool :=
  match c with QuerySelector _ => true | ConsoleWarn _ => false end.

Definition is_warning (c : host_call) : bool :=
  match c with QuerySelector _ => false | ConsoleWarn _ => true end.

Definition queries (t : list host_call) : nat := length (List.filter is_query t).
Definition warnings (t : list host_call) : nat :=
  length (List.filter is_warning t).

(** [clamp x lo hi] as the specification words it: [x] brought back into
    the interval from [lo] to [hi]. *)
Definition clamp (x lo hi : Q) : Q :=
  if Qlt_le_dec x lo then lo else if Qlt_le_dec hi x then hi else x.

(** [m] is the largest magnitude [f] takes over the draws of
    [Math.random], which range over the rationals from 0 (included) to 1
    (excluded). *)
Definition max_magnitude (f : Q → Q) (m : Q) : Prop :=
  (∀ r, 0 <= r → r < 1 → Qabs (f r) <= m)%Q
  ∧ ∃ r, (0 <= r)%Q ∧ (r < 1)%Q ∧ (Qabs (f r) == m)%Q.

(** [a > b] read as [b < a], as a test. *)
Definition Qlt_bool (a b : Q) : bool := negb (Qle_bool b a).

Section Snowfall.

Variable opts : options.

(** Line 38. *)
Definition chaosMultiplier : Q := (Qmax 0 (Qmin 100 (chaos opts)) / 50)%Q.

(** Line 134. *)
Definition maxDeviation : Q := (100 * chaosMultiplier)%Q.

(** Lines 135-136, on the draws [r]. *)
Definition xDeviation (r : Q) : Q := random (- maxDeviation) maxDeviation r.
Definition xDeviationEnd (r : Q) : Q :=
  random (- maxDeviation * (1 # 2)) (maxDeviation * (1 # 2)) r.

(** Lines 128-130, on the draws [r]. *)
Definition fallingTime (r : Q) : Q := random (minSpeed opts) (maxSpeed opts) r.
Definition flakePos (r : Q) : Z := randomInt 1 99 r.
Definition flakeSize (r : Q) : Z := Math_round (random (minSize opts) (maxSize opts) r).

(** Line 123: [maxFlakes !== null && activeFlakes.size >= maxFlakes]. *)
Definition at_capacity (s : state) : bool :=
  match maxFlakes opts with
  | Some n => Qle_bool n (inject_Z (Z.of_nat (length (activeFlakes s))))
  | None => false
  end.

Open Scope js_scope.

(** Lines 44-59. *)
Definition getContainer (b : agent) : M (option node) :=
  let! cached := get containerElement in
  when (negb (truthy cached))
    (match container opts with
     | CSelector selector =>
         let! element := document_querySelector b selector in
         modify (set_containerElement element) >>
         let! found := get containerElement in
         when (negb (truthy found))
           (record (ConsoleWarn (not_found_warning selector)) >>
            modify (set_containerElement (Some document_body)))
     | CElement el => modify (set_containerElement (Some el))
     | COther => modify (set_containerElement (Some document_body))
     end) >>
  get containerElement.

(** Lines 64-96.  The text of the style sheet is not modelled. *)
Definition addStyles : M unit :=
  let! present := get styleElement in
  if truthy present then ret tt
  else
    let! created := createElement "style" in
    modify (set_styleElement (Some created)) >>
    let! sheet := get styleElement in
    let! sheet := deref sheet in
    setAttribute sheet "data-vue-snowfall" "true" >>
    appendChild document_head sheet.

(** Lines 101-106. *)
Definition removeStyles : M unit :=
  let! present := get styleElement in
  when (truthy present)
    (let! sheet := deref present in
     remove_node sheet >>
     modify (set_styleElement None)).

(** Lines 165-170. *)
Definition removeSnowflake (flake : option node) : M unit :=
  if truthy flake then
    let! f := deref flake in
    let! parent := getParentNode f in
    when (truthy parent)
      (remove_node f >>
       modify (λ s, set_activeFlakes (set_delete f (activeFlakes s)) s))
  else ret tt.

(** Lines 122-160. *)
Definition createSnowflake (b : agent) : M (option node) :=
  let! full := get at_capacity in
  if full then ret None
  else
    let! containerEl := getContainer b in
    let fallingTime := fallingTime (Math_random (answers b) 0) in
    let flakePos := flakePos (Math_random (answers b) 1) in
    let flakeSize := flakeSize (Math_random (answers b) 2) in
    if (flakeSize <=? 0)%Z then ret None
    else
      let xDeviation := xDeviation (Math_random (answers b) 3) in
      let xDeviationEnd := xDeviationEnd (Math_random (answers b) 4) in
      let! snowflake := createElement "div" in
      update_element
        (as_flake (FlakeCss flakePos flakeSize flakeSize xDeviation
                            xDeviationEnd fallingTime (color opts)))
        snowflake >>
      update_element (with_listener true) snowflake >>
      let! c := deref containerEl in
      appendChild c snowflake >>
      modify (λ s, set_activeFlakes (set_add snowflake (activeFlakes s)) s) >>
      ret (Some snowflake).

(** Lines 175-190. *)
Definition cleanupSnowflakes (b : agent) : M unit :=
  let! flakes := get activeFlakes in
  if bool_decide (length flakes = 0%nat) then ret tt
  else
    let! containerEl := getContainer b in
    let! c := deref containerEl in
    let containerHeight :=
      if bool_decide (c = document_body) then innerHeight (answers b)
      else offsetHeight (answers b) c in
    let! flakes := get activeFlakes in
    let flakesToRemove :=
      List.filter (λ f, Qlt_bool (containerHeight + 50)
                                 (boundingTop (answers b) f))
                  flakes in
    forEach removeSnowflake (Some <$> flakesToRemove).

(** Lines 195-198. *)
Definition removeAllSnowflakes : M unit :=
  let! flakes := get activeFlakes in
  forEach removeSnowflake (Some <$> flakes) >>
  modify (set_activeFlakes []).

(** Lines 231-251. *)
Definition stopSnowflakes : M unit :=
  let! spawn := get flakeIntervalId in
  when (truthy spawn)
    (let! i := deref spawn in
     clearInterval i >> modify (set_flakeIntervalId None)) >>
  let! sweep := get cleanupIntervalId in
  when (truthy sweep)
    (let! i := deref sweep in
     clearInterval i >> modify (set_cleanupIntervalId None)) >>
  removeAllSnowflakes >>
  removeStyles >>
  let! cached := get containerElement in
  when (truthy cached && negb (bool_decide (cached = Some document_body)))
    (let! c := deref cached in
     let! originalPosition := getAttribute c position_attribute in
     match originalPosition with
     | Some original =>
         set_style_position c
           (if bool_decide (original = "static") then EmptyString else original) >>
         removeAttribute c position_attribute
     | None => ret tt
     end).

(** Lines 203-226. *)
Definition startSnowflakes (b : agent) : M unit :=
  let! spawn := get flakeIntervalId in
  when (truthy spawn) stopSnowflakes >>
  removeAllSnowflakes >>
  addStyles >>
  let! containerEl := getContainer b in
  let! c := deref containerEl in
  when (negb (bool_decide (c = document_body))
        && bool_decide (computedPosition (answers b) c = "static"))
    (let! originalPosition := get_style_position c in
     set_style_position c "relative" >>
     setAttribute c position_attribute (or_string originalPosition "static")) >>
  createSnowflake b >>
  let! i := setInterval CreateSnowflake (interval opts) in
  modify (set_flakeIntervalId (Some i)) >>
  let! j := setInterval CleanupSnowflakes 2000 in
  modify (set_cleanupIntervalId (Some j)).

(** ** The instance driven by the page *)

(** What can happen to an instance: its two operations, an interval timer
    firing, the [animationend] event of a node, and the page detaching a
    node on its own.  The agent of an event is the browser as it answers
    during that event. *)
Inductive event :=
| Start (b : agent)
| Stop
| Fire (i : positive) (b : agent)
| AnimationEnd (n : node)
| Detach (n : node).

Definition step (e : event) : M unit :=
  match e with
  | Start b => startSnowflakes b
  | Stop => stopSnowflakes
  | Fire i b =>
      let! registered := get (λ s, intervals s !! i) in
      match registered with
      | Some (CreateSnowflake, _) => createSnowflake b >> ret tt
      | Some (CleanupSnowflakes, _) => cleanupSnowflakes b
      | None => ret tt
      end
  | AnimationEnd n =>
      let! listening := read_element animationend_once false n in
      when listening
        (update_element (with_listener false) n >>
         removeSnowflake (Some n))
  | Detach n => remove_node n
  end.

(** The events in a row.  An exception that leaves one of them does not
    end the instance: the next event finds the state it left. *)
Definition run (evs : list event) : M unit :=
  forEach (λ e, uncaught (step e)) evs.

(** The events that are calls of [startSnowflakes] or [stopSnowflakes]. *)
Definition lifecycle (e : event) : bool :=
  match e with
  | Start _ | Stop => true
  | _ => false
  end.

Close Scope js_scope.

(** ** The functions as state transformers

    The state each function leaves is given here in closed form: first for
    an agent that answers the query of [getContainer], where every
    function returns, then for any agent, where the functions that call
    [getContainer] stop at a query that is refused.  The lemmas [*_run]
    and [*_outcome] below tie the closed forms to the code. *)

Definition parent_of (s : state) (n : node) : option node :=
  from_option parentNode None (elements s !! n).

(** [n.childNodes], as a set: the nodes whose parent is [n]. *)
Definition childNodes (s : state) (n : node) : gset node :=
  dom (filter (λ ce, parentNode ce.2 = Some n) (elements s)).

(** [n.style.position] and [n.getAttribute('data-vue-snowfall-position')]
    in the state [s]. *)
Definition position_of (s : state) (n : node) : string :=
  from_option style_position EmptyString (elements s !! n).

Definition override_of (s : state) (n : node) : option string :=
  from_option (λ e, attributes e !! position_attribute) None (elements s !! n).

Definition detach (n : node) (s : state) : state :=
  set_elements (alter (with_parent None) n (elements s)) s.

Definition untracked (f : node) (s : state) : state :=
  if truthy (parent_of s f)
  then set_activeFlakes (set_delete f (activeFlakes s)) (detach f s)
  else s.

Definition untracked_all (l : list node) (s : state) : state :=
  foldl (λ s f, untracked f s) s l.

Definition cleared (s : state) : state :=
  set_activeFlakes [] (untracked_all (activeFlakes s) s).

Definition unstyled (s : state) : state :=
  match styleElement s with
  | Some n => set_styleElement None (detach n s)
  | None => s
  end.

Definition untimed (s : state) : state :=
  let s1 := match flakeIntervalId s with
            | Some i => set_flakeIntervalId None
                          (set_intervals (delete i (intervals s)) s)
            | None => s
            end in
  match cleanupIntervalId s1 with
  | Some j => set_cleanupIntervalId None
                (set_intervals (delete j (intervals s1)) s1)
  | None => s1
  end.

Definition restored_value (original : string) : string :=
  if bool_decide (original = "static") then EmptyString else original.

Definition restored (s : state) : state :=
  match containerElement s with
  | Some c =>
      if bool_decide (c = document_body) then s
      else match from_option (λ e, attributes e !! position_attribute) None
                             (elements s !! c) with
           | Some original =>
               set_elements
                 (alter (λ e, with_attributes
                                (delete position_attribute (attributes e)) e) c
                    (alter (with_position (restored_value original)) c
                       (elements s))) s
           | None => s
           end
  | None => s
  end.

Definition stopped (s : state) : state :=
  restored (unstyled (cleared (untimed s))).

Definition styled (s : state) : state :=
  match styleElement s with
  | Some _ => s
  | None =>
      let n := fresh (dom (elements s)) in
      set_elements
        (alter (with_parent (Some document_head)) n
           (alter (λ e, with_attributes
                          (<["data-vue-snowfall" := "true"]> (attributes e)) e) n
              (<[n := blank "style"]> (elements s))))
        (set_styleElement (Some n) s)
  end.

Definition resolve (h : host) : node :=
  match container opts with
  | CSelector selector => default document_body (querySelector h selector)
  | CElement el => el
  | COther => document_body
  end.

Definition resolve_trace (h : host) : list host_call :=
  match container opts with
  | CSelector selector =>
      QuerySelector selector ::
      match querySelector h selector with
      | Some _ => []
      | None => [ConsoleWarn (not_found_warning selector)]
      end
  | _ => []
  end.

Definition container_of (h : host) (s : state) : node :=
  default (resolve h) (containerElement s).

Definition resolved (h : host) (s : state) : state :=
  match containerElement s with
  | Some _ => s
  | None => set_trace (trace s ++ resolve_trace h)
              (set_containerElement (Some (resolve h)) s)
  end.

Definition positioned (h : host) (c : node) (s : state) : state :=
  if negb (bool_decide (c = document_body))
     && bool_decide (computedPosition h c = "static")
  then set_elements
         (alter (λ e, with_attributes
                        (<[position_attribute :=
                             or_string (from_option style_position EmptyString
                                          (elements s !! c)) "static"]>
                           (attributes e)) e) c
            (alter (with_position "relative") c (elements s))) s
  else s.

(** The style of the flake made from the draws of [h]. *)
Definition flake_css_of (h : host) : flake_css :=
  FlakeCss (flakePos (Math_random h 1)) (flakeSize (Math_random h 2))
           (flakeSize (Math_random h 2)) (xDeviation (Math_random h 3))
           (xDeviationEnd (Math_random h 4)) (fallingTime (Math_random h 0))
           (color opts).

Definition flake_element (h : host) (c : node) : element :=
  Element "div" (Some c) "vue-snowfall-flake" EmptyString ∅
          (Some (flake_css_of h)) true.

(** The two guards of [createSnowflake]. *)
Definition too_small (h : host) : bool :=
  (flakeSize (Math_random h 2) <=? 0)%Z.

Definition spawn_result (h : host) (s : state) : option node :=
  if at_capacity s then None
  else if too_small h then None
  else Some (fresh (dom (elements s))).

Definition spawned (h : host) (s : state) : state :=
  if at_capacity s then s
  else if too_small h then resolved h s
  else
    let s1 := resolved h s in
    let n := fresh (dom (elements s)) in
    set_activeFlakes (set_add n (activeFlakes s))
      (set_elements (<[n := flake_element h (container_of h s)]> (elements s)) s1).

Definition scheduled (s : state) : state :=
  let i := fresh (dom (intervals s)) in
  let m1 := <[i := (CreateSnowflake, interval opts)]> (intervals s) in
  let j := fresh (dom m1) in
  set_cleanupIntervalId (Some j)
    (set_intervals (<[j := (CleanupSnowflakes, 2000%Q)]> m1)
       (set_flakeIntervalId (Some i) s)).

Definition started (h : host) (s : state) : state :=
  let s1 := if truthy (flakeIntervalId s) then stopped s else s in
  let s2 := styled (cleared s1) in
  scheduled (spawned h (positioned h (container_of h s2) (resolved h s2))).

Definition swept (h : host) (s : state) : state :=
  match activeFlakes s with
  | [] => s
  | _ =>
      let s1 := resolved h s in
      let c := container_of h s in
      let height := if bool_decide (c = document_body) then innerHeight h
                    else offsetHeight h c in
      untracked_all
        (List.filter (λ f, Qlt_bool (height + 50) (boundingTop h f))
                     (activeFlakes s)) s1
  end.

(** *** A query that is refused *)

(** The agent parses the selector of the options, if they hold one. *)
Definition accepts (b : agent) : bool :=
  match container opts with
  | CSelector selector => negb (rejects b selector)
  | _ => true
  end.

(** [getContainer], called in [s], makes a query and the agent refuses
    it. *)
Definition refused (b : agent) (s : state) : bool :=
  negb (truthy (containerElement s)) && negb (accepts b).

(** The state in which the [SyntaxError] leaves [getContainer]: the query
    was made and nothing is cached. *)
Definition queried (s : state) : state :=
  match container opts with
  | CSelector selector => set_trace (trace s ++ [QuerySelector selector]) s
  | _ => s
  end.

(** [startSnowflakes] up to its call of [getContainer]. *)
Definition tidied (s : state) : state :=
  styled (cleared (if truthy (flakeIntervalId s) then stopped s else s)).

(** The state in which [createSnowflake], [cleanupSnowflakes] and
    [startSnowflakes] return or raise, for any agent. *)
Definition spawned_by (b : agent) (s : state) : state :=
  if negb (at_capacity s) && refused b s then queried s
  else spawned (answers b) s.

Definition swept_by (b : agent) (s : state) : state :=
  match activeFlakes s with
  | [] => s
  | _ => if refused b s then queried s else swept (answers b) s
  end.

Definition started_by (b : agent) (s : state) : state :=
  if refused b s then queried (tidied s) else started (answers b) s.

Definition stepped (e : event) (s : state) : state :=
  match e with
  | Start b => started_by b s
  | Stop => stopped s
  | Fire i b =>
      match intervals s !! i with
      | Some (CreateSnowflake, _) => spawned_by b s
      | Some (CleanupSnowflakes, _) => swept_by b s
      | None => s
      end
  | AnimationEnd n =>
      if from_option animationend_once false (elements s !! n)
      then untracked n
             (set_elements (alter (with_listener false) n (elements s)) s)
      else s
  | Detach n => detach n s
  end.

(** The events that end in an exception, which is then a [SyntaxError]. *)
Definition throws (e : event) (s : state) : bool :=
  match e with
  | Start b => refused b s
  | Fire i b =>
      match intervals s !! i with
      | Some (CreateSnowflake, _) => negb (at_capacity s) && refused b s
      | Some (CleanupSnowflakes, _) =>
          negb (bool_decide (activeFlakes s = [])) && refused b s
      | None => false
      end
  | _ => false
  end.

Definition ran (evs : list event) (s : state) : state :=
  foldl (λ s e, stepped e s) s evs.

(** *** Invariants and relations used below *)

(** The timers of an instance: none, or the spawn timer and the sweep
    timer together, and then the container is resolved. *)
Definition timers_wf (s : state) : Prop :=
  (flakeIntervalId s = None ∧ cleanupIntervalId s = None ∧ intervals s = ∅)
  ∨ ∃ i j, flakeIntervalId s = Some i ∧ cleanupIntervalId s = Some j
           ∧ i ≠ j
           ∧ intervals s = <[j := (CleanupSnowflakes, 2000%Q)]>
                             {[i := (CreateSnowflake, interval opts)]}
           ∧ is_Some (containerElement s).

(** Between [s] and [s'] the container was left alone, or resolved for the
    first time with the answers of [h]. *)
Definition same_or_resolved (h : host) (s s' : state) : Prop :=
  (containerElement s' = containerElement s ∧ trace s' = trace s)
  ∨ (containerElement s = None ∧ containerElement s' = Some (resolve h)
     ∧ trace s' = trace s ++ resolve_trace h).

(** Resolved at most once, after at most [k] refused queries: while the
    container is unresolved the trace holds refused queries only, at most
    [k] of them; afterwards it holds the calls of the one resolution as
    well. *)
Definition resolved_within (k : nat) (s : state) : Prop :=
  (containerElement s = None →
   warnings (trace s) = 0%nat ∧ (queries (trace s) ≤ k)%nat)
  ∧ (queries (trace s) ≤ S k)%nat ∧ (warnings (trace s) ≤ 1)%nat.

(** [f] is an element of the page, tracked, and has no parent. *)
Definition orphan (f : node) (s : state) : Prop :=
  f ∈ dom (elements s) ∧ f ∈ activeFlakes s ∧ parent_of s f = None.

(** The events during which the agent parses the selector of the
    options. *)
Definition accepted (e : event) : bool :=
  match e with
  | Start b | Fire _ b => accepts b
  | _ => true
  end.

(** How many events of a run have an agent that rejects the selector. *)
Definition rejections (evs : list event) : nat :=
  length (List.filter (λ e, negb (accepted e)) evs).

(** *** The sweep *)

(** Line 179: the height [cleanupSnowflakes] measures against. *)
Definition containerHeight (h : host) (s : state) : Q :=
  if bool_decide (container_of h s = document_body) then innerHeight h
  else offsetHeight h (container_of h s).

(** Line 184: [rect.top > containerHeight + 50]. *)
Definition stale (h : host) (s : state) (f : node) : bool :=
  Qlt_bool (containerHeight h s + 50) (boundingTop h f).

(** *** Bookkeeping of the elements an instance creates *)

(** Events in which the page detaches a node on its own. *)
Definition external (e : event) : bool :=
  match e with
  | Detach _ => true
  | _ => false
  end.

(** Events in which the page detaches the node [n]. *)
Definition detaches (n : node) (e : event) : bool :=
  match e with
  | Detach m => bool_decide (m = n)
  | _ => false
  end.

(** On a page that held the elements [d] when the instance was made: the
    tracked flakes are distinct nodes of the page that [d] did not hold,
    and so is the style element, which is not a tracked flake. *)
Definition well_tracked (d : gmap node element) (s : state) : Prop :=
  dom d ⊆ dom (elements s)
  ∧ NoDup (activeFlakes s)
  ∧ (∀ f, f ∈ activeFlakes s → f ∈ dom (elements s) ∧ f ∉ dom d)
  ∧ (∀ n, styleElement s = Some n →
          n ∈ dom (elements s) ∧ (n ∉ dom d) ∧ n ∉ activeFlakes s).

(** Every tracked flake is a child of the resolved container. *)
Definition attached (s : state) : Prop :=
  ∀ f, f ∈ activeFlakes s →
       ∃ c, containerElement s = Some c ∧ parent_of s f = Some c.

(** Every attached node that [d] did not hold is a tracked flake or the
    style element. *)
Definition accounted (d : gmap node element) (s : state) : Prop :=
  ∀ n, n ∉ dom d → is_Some (parent_of s n) →
       n ∈ activeFlakes s ∨ styleElement s = Some n.

(** Where the attached nodes are.  A node that [d] held is under the
    parent it had in [d]; a node that the instance made is a tracked flake
    under the resolved container, or the style element under the head. *)
Definition placed (d : gmap node element) (s : state) : Prop :=
  ∀ c p, parent_of s c = Some p →
    (c ∈ dom d ∧ parent_of (init d) c = Some p)
    ∨ ((c ∉ dom d)
       ∧ ((c ∈ activeFlakes s ∧ containerElement s = Some p)
          ∨ (styleElement s = Some c ∧ p = document_head))).

(** [n] is a node of the page that the instance neither tracks nor holds
    as style element, and that carries no listener of the instance. *)
Definition untouched (n : node) (s : state) : Prop :=
  n ∈ dom (elements s) ∧ (n ∉ activeFlakes s) ∧ styleElement s ≠ Some n
  ∧ from_option animationend_once false (elements s !! n) = false.

(** *** The code computes the closed forms *)

Lemma bind_run {A B} (m : M A) (k : A → M B) s a s' :
  m s = Ok (a, s') → bind m k s = k a s'.
Proof. intros E. unfold bind. by rewrite E. Qed.

Ltac exec :=
  cbv beta iota zeta delta
    [bind get modify ret when deref throw record update_element
     read_element getParentNode remove_node appendChild getAttribute
     setAttribute removeAttribute get_style_position set_style_position
     setInterval clearInterval createElement truthy];
  simpl.

Lemma removeSnowflake_run f s :
  removeSnowflake (Some f) s = Ok (tt, untracked f s).
Proof.
  unfold removeSnowflake, untracked, parent_of, detach. exec.
  by destruct (from_option parentNode None (elements s !! f)).
Qed.

Lemma removeSnowflake_null s : removeSnowflake None s = Ok (tt, s).
Proof. reflexivity. Qed.

Lemma forEach_removeSnowflake_run l s :
  forEach removeSnowflake (Some <$> l) s = Ok (tt, untracked_all l s).
Proof.
  revert s. induction l as [|f l IH]; intros s; [done|].
  simpl. rewrite (bind_run _ _ _ _ _ (removeSnowflake_run f s)). apply IH.
Qed.

Lemma removeAllSnowflakes_run s : removeAllSnowflakes s = Ok (tt, cleared s).
Proof.
  unfold removeAllSnowflakes, cleared.
  unfold bind at 1. unfold get at 1.
  by rewrite (bind_run _ _ _ _ _ (forEach_removeSnowflake_run _ s)).
Qed.

Lemma removeStyles_run s : removeStyles s = Ok (tt, unstyled s).
Proof.
  unfold removeStyles, unstyled, detach. exec.
  by destruct (styleElement s).
Qed.

Lemma addStyles_run s : addStyles s = Ok (tt, styled s).
Proof.
  unfold addStyles, styled. exec.
  by destruct (styleElement s).
Qed.

Lemma accepts_host (h : host) : accepts h = true.
Proof. unfold accepts. by destruct (container opts). Qed.

Lemma refused_host (h : host) s : refused h s = false.
Proof. unfold refused. rewrite accepts_host. apply andb_false_r. Qed.

Lemma refused_cached b s : is_Some (containerElement s) → refused b s = false.
Proof. intros [c C]. unfold refused. by rewrite C. Qed.

Lemma refused_accepted b s : accepts b = true → refused b s = false.
Proof. intros A. unfold refused. rewrite A. apply andb_false_r. Qed.

Lemma refused_inv b s :
  refused b s = true →
  containerElement s = None ∧ accepts b = false
  ∧ ∃ selector, container opts = CSelector selector
                ∧ rejects b selector = true
                ∧ ∀ s', queried s'
                        = set_trace (trace s' ++ [QuerySelector selector]) s'.
Proof.
  unfold refused, accepts, queried. destruct (containerElement s); [done|].
  destruct (container opts) as [sel| |]; simpl; [|done..].
  intros R%negb_true_iff. split; [done|]. split; [done|].
  apply negb_false_iff in R. by exists sel.
Qed.

Lemma getContainer_outcome b s :
  getContainer b s
  = if refused b s then Throw SyntaxError (queried s)
    else Ok (Some (container_of (answers b) s), resolved (answers b) s).
Proof.
  unfold getContainer, refused, accepts, queried, container_of, resolved,
    resolve, resolve_trace, document_querySelector. exec.
  destruct (containerElement s) as [c|] eqn:E; simpl.
  - by rewrite E.
  - destruct (container opts) as [sel| |]; simpl.
    + destruct (rejects b sel); simpl; [done|].
      destruct (querySelector (answers b) sel); simpl; by rewrite <- ?app_assoc.
    + destruct s; simpl in *; by rewrite app_nil_r.
    + destruct s; simpl in *; by rewrite app_nil_r.
Qed.

Lemma getContainer_run (h : host) s :
  getContainer h s = Ok (Some (container_of h s), resolved h s).
Proof. by rewrite getContainer_outcome, refused_host. Qed.

Lemma stopSnowflakes_run s : stopSnowflakes s = Ok (tt, stopped s).
Proof.
  unfold stopSnowflakes, stopped.
  assert (T : ∀ k : unit → unit → M unit, ∀ s,
             bind (get flakeIntervalId) (λ spawn,
               bind (when (truthy spawn)
                       (bind (deref spawn) (λ i,
                          bind (clearInterval i)
                               (λ _, modify (set_flakeIntervalId None)))))
                 (λ a, bind (get cleanupIntervalId) (λ sweep,
                   bind (when (truthy sweep)
                           (bind (deref sweep) (λ i,
                              bind (clearInterval i)
                                (λ _, modify (set_cleanupIntervalId None)))))
                        (k a)))) s
             = k tt tt (untimed s)).
  { intros k s0. unfold untimed.
    destruct s0 as [[i|] [j|] ? ? ? ? ? ?]; reflexivity. }
  rewrite T.
  rewrite (bind_run _ _ _ _ _ (removeAllSnowflakes_run _)).
  rewrite (bind_run _ _ _ _ _ (removeStyles_run _)).
  generalize (unstyled (cleared (untimed s))). intros s1.
  unfold restored. exec.
  destruct (containerElement s1) as [c|]; simpl; [|done].
  destruct (bool_decide (Some c = Some document_body)) eqn:E1,
           (bool_decide (c = document_body)) eqn:E2; simpl; try done.
  - apply bool_decide_eq_true in E1. apply bool_decide_eq_false in E2.
    congruence.
  - apply bool_decide_eq_false in E1. apply bool_decide_eq_true in E2.
    congruence.
  - by destruct (from_option _ None (elements s1 !! c)).
Qed.

Lemma createSnowflake_outcome b s :
  createSnowflake b s
  = if negb (at_capacity s) && refused b s
    then Throw SyntaxError (spawned_by b s)
    else Ok (spawn_result (answers b) s, spawned_by b s).
Proof.
  unfold createSnowflake, spawned_by, spawn_result, spawned, too_small.
  unfold bind at 1. unfold get at 1.
  destruct (at_capacity s); [done|]. simpl.
  unfold bind at 1. rewrite getContainer_outcome.
  destruct (refused b s); [done|].
  destruct (flakeSize (Math_random (answers b) 2) <=? 0)%Z; [done|].
  exec. unfold flake_element, as_flake, with_listener, with_parent, blank.
  rewrite !alter_insert_eq. simpl.
  assert (E : elements (resolved (answers b) s) = elements s ∧
              activeFlakes (resolved (answers b) s) = activeFlakes s).
  { unfold resolved. by destruct (containerElement s). }
  destruct E as [-> ->]. reflexivity.
Qed.

Lemma spawned_by_host (h : host) s : spawned_by h s = spawned h s.
Proof. unfold spawned_by. by rewrite refused_host, andb_false_r. Qed.

Lemma createSnowflake_run (h : host) s :
  createSnowflake h s = Ok (spawn_result h s, spawned h s).
Proof.
  by rewrite createSnowflake_outcome, spawned_by_host, refused_host,
    andb_false_r.
Qed.

Lemma cleanupSnowflakes_outcome b s :
  cleanupSnowflakes b s
  = if negb (bool_decide (activeFlakes s = [])) && refused b s
    then Throw SyntaxError (swept_by b s)
    else Ok (tt, swept_by b s).
Proof.
  unfold cleanupSnowflakes, swept_by, swept.
  unfold bind at 1. unfold get at 1.
  destruct (activeFlakes s) as [|f l] eqn:E; [done|]. simpl.
  unfold bind at 1. rewrite getContainer_outcome.
  destruct (refused b s); [done|].
  unfold bind at 1. unfold deref, ret.
  unfold bind at 1. unfold get at 1.
  assert (E' : activeFlakes (resolved (answers b) s) = f :: l).
  { unfold resolved. by destruct (containerElement s). }
  rewrite E'. apply forEach_removeSnowflake_run.
Qed.

Lemma swept_by_host (h : host) s : swept_by h s = swept h s.
Proof.
  unfold swept_by, swept. rewrite refused_host. by destruct (activeFlakes s).
Qed.

Lemma cleanupSnowflakes_run (h : host) s :
  cleanupSnowflakes h s = Ok (tt, swept h s).
Proof.
  by rewrite cleanupSnowflakes_outcome, swept_by_host, refused_host,
    andb_false_r.
Qed.

Lemma containerElement_tidied s :
  containerElement (tidied s) = containerElement s.
Proof.
  unfold tidied, styled, cleared, stopped, restored, unstyled.
  assert (U : ∀ l s0, containerElement (untracked_all l s0)
                      = containerElement s0).
  { induction l as [|x l IH]; intros s0; simpl; [done|].
    rewrite IH. unfold untracked. by case_match. }
  assert (T : containerElement (untimed s) = containerElement s).
  { unfold untimed. by destruct s as [[?|] [?|] ? ? ? ? ? ?]. }
  repeat case_match; simpl; rewrite ?U; simpl; rewrite ?U; try done.
Qed.

Lemma startSnowflakes_outcome b s :
  startSnowflakes b s
  = if refused b s then Throw SyntaxError (started_by b s)
    else Ok (tt, started_by b s).
Proof.
  unfold startSnowflakes, started_by, started.
  assert (R : refused b (tidied s) = refused b s).
  { unfold refused. by rewrite containerElement_tidied. }
  revert R. unfold tidied.
  unfold bind at 1. unfold get at 1.
  assert (E : when (truthy (flakeIntervalId s)) stopSnowflakes s
              = Ok (tt, if truthy (flakeIntervalId s) then stopped s else s)).
  { destruct (flakeIntervalId s); simpl; [apply stopSnowflakes_run|done]. }
  rewrite (bind_run _ _ _ _ _ E).
  generalize (if truthy (flakeIntervalId s) then stopped s else s). intros s1.
  rewrite (bind_run _ _ _ _ _ (removeAllSnowflakes_run _)).
  rewrite (bind_run _ _ _ _ _ (addStyles_run _)).
  intros <-. unfold bind at 1. rewrite getContainer_outcome.
  destruct (refused b (styled (cleared s1))); [done|].
  assert (K : containerElement (resolved (answers b) (styled (cleared s1)))
              = Some (container_of (answers b) (styled (cleared s1)))).
  { unfold resolved, container_of.
    by destruct (containerElement (styled (cleared s1))) eqn:X. }
  revert K.
  generalize (container_of (answers b) (styled (cleared s1))).
  generalize (resolved (answers b) (styled (cleared s1))). intros s2 c K.
  unfold bind at 1. unfold deref, ret.
  assert (P : when (negb (bool_decide (c = document_body))
                    && bool_decide (computedPosition (answers b) c = "static"))
                (bind (get_style_position c) (λ originalPosition,
                   bind (set_style_position c "relative") (λ _,
                     setAttribute c position_attribute
                       (or_string originalPosition "static")))) s2
              = Ok (tt, positioned (answers b) c s2)).
  { unfold positioned.
    destruct (negb (bool_decide (c = document_body))
              && bool_decide (computedPosition (answers b) c = "static"));
      [|done].
    exec. reflexivity. }
  rewrite (bind_run _ _ _ _ _ P).
  assert (C : createSnowflake b (positioned (answers b) c s2)
              = Ok (spawn_result (answers b) (positioned (answers b) c s2),
                    spawned (answers b) (positioned (answers b) c s2))).
  { assert (I : is_Some (containerElement (positioned (answers b) c s2))).
    { exists c. rewrite <- K. unfold positioned.
      by destruct (negb (bool_decide (c = document_body))
                   && bool_decide (computedPosition (answers b) c = "static")). }
    rewrite createSnowflake_outcome. unfold spawned_by.
    by rewrite (refused_cached _ _ I), andb_false_r. }
  rewrite (bind_run _ _ _ _ _ C).
  generalize (spawned (answers b) (positioned (answers b) c s2)). intros s3.
  by destruct s3.
Qed.

Lemma started_by_host (h : host) s : started_by h s = started h s.
Proof. unfold started_by. by rewrite refused_host. Qed.

Lemma startSnowflakes_run (h : host) s :
  startSnowflakes h s = Ok (tt, started h s).
Proof. by rewrite startSnowflakes_outcome, started_by_host, refused_host. Qed.

Lemma step_outcome e s :
  step e s = if throws e s then Throw SyntaxError (stepped e s)
             else Ok (tt, stepped e s).
Proof.
  destruct e as [b| |i b|n|n]; simpl.
  - apply startSnowflakes_outcome.
  - apply stopSnowflakes_run.
  - unfold bind at 1. unfold get at 1.
    destruct (intervals s !! i) as [[[] ?]|];
      [|apply cleanupSnowflakes_outcome|done].
    unfold bind. rewrite createSnowflake_outcome.
    destruct (negb (at_capacity s) && refused b s); reflexivity.
  - unfold bind at 1. unfold read_element, get.
    destruct (from_option animationend_once false (elements s !! n)); [|done].
    simpl. unfold bind at 1. unfold update_element, modify.
    apply removeSnowflake_run.
  - reflexivity.
Qed.

Lemma throws_accepted e s : accepted e = true → throws e s = false.
Proof.
  destruct e as [b| |i b|n|n]; simpl; try done; intros A.
  - by apply refused_accepted.
  - rewrite (refused_accepted _ _ A), !andb_false_r. by repeat case_match.
Qed.

(** An event whose agent parses the selector returns. *)
Lemma step_run e s : accepted e = true → step e s = Ok (tt, stepped e s).
Proof. intros A. by rewrite step_outcome, throws_accepted. Qed.

Lemma uncaught_step e s : uncaught (step e) s = Ok (tt, stepped e s).
Proof.
  unfold uncaught. rewrite step_outcome. by destruct (throws e s).
Qed.

Lemma run_run evs s : run evs s = Ok (tt, ran evs s).
Proof.
  revert s. induction evs as [|e evs IH]; intros s; [done|].
  unfold run. simpl. rewrite (bind_run _ _ _ _ _ (uncaught_step e s)). apply IH.
Qed.

(** The closed forms on a host, which refuses nothing. *)
Lemma stepped_start (h : host) s : stepped (Start h) s = started h s.
Proof. apply started_by_host. Qed.

Lemma stepped_fire i (h : host) s :
  stepped (Fire i h) s
  = match intervals s !! i with
    | Some (CreateSnowflake, _) => spawned h s
    | Some (CleanupSnowflakes, _) => swept h s
    | None => s
    end.
Proof.
  cbn [stepped]. rewrite spawned_by_host, swept_by_host. done.
Qed.

(** To show [P] of what a function leaves: show it of the state in which
    the query is refused and of the state the function leaves otherwise. *)
Lemma spawned_by_cases (P : state → Prop) b s :
  (refused b s = true → at_capacity s = false → P (queried s)) →
  P (spawned (answers b) s) → P (spawned_by b s).
Proof.
  intros Q R. unfold spawned_by.
  destruct (at_capacity s), (refused b s) eqn:E; simpl; auto.
Qed.

Lemma swept_by_cases (P : state → Prop) b s :
  (refused b s = true → P (queried s)) →
  P (swept (answers b) s) → P (swept_by b s).
Proof.
  intros Q R. unfold swept_by, swept in *.
  destruct (activeFlakes s); [done|]. destruct (refused b s); auto.
Qed.

Lemma started_by_cases (P : state → Prop) b s :
  (refused b s = true → P (queried (tidied s))) →
  P (started (answers b) s) → P (started_by b s).
Proof. intros Q R. unfold started_by. destruct (refused b s); auto. Qed.

(** *** What each transformer leaves alone *)

Create Rewrite HintDb frame.

Lemma flakeIntervalId_detach n s :
  flakeIntervalId (detach n s) = flakeIntervalId s.
Proof.
  reflexivity.
Qed.

Lemma cleanupIntervalId_detach n s :
  cleanupIntervalId (detach n s) = cleanupIntervalId s.
Proof.
  reflexivity.
Qed.

Lemma styleElement_detach n s :
  styleElement (detach n s) = styleElement s.
Proof.
  reflexivity.
Qed.

Lemma containerElement_detach n s :
  containerElement (detach n s) = containerElement s.
Proof.
  reflexivity.
Qed.

Lemma activeFlakes_detach n s :
  activeFlakes (detach n s) = activeFlakes s.
Proof.
  reflexivity.
Qed.

Lemma intervals_detach n s :
  intervals (detach n s) = intervals s.
Proof.
  reflexivity.
Qed.

Lemma trace_detach n s :
  trace (detach n s) = trace s.
Proof.
  reflexivity.
Qed.

Lemma flakeIntervalId_untracked f s :
  flakeIntervalId (untracked f s) = flakeIntervalId s.
Proof.
  unfold untracked; by case_match.
Qed.

Lemma cleanupIntervalId_untracked f s :
  cleanupIntervalId (untracked f s) = cleanupIntervalId s.
Proof.
  unfold untracked; by case_match.
Qed.

Lemma styleElement_untracked f s :
  styleElement (untracked f s) = styleElement s.
Proof.
  unfold untracked; by case_match.
Qed.

Lemma containerElement_untracked f s :
  containerElement (untracked f s) = containerElement s.
Proof.
  unfold untracked; by case_match.
Qed.

Lemma intervals_untracked f s :
  intervals (untracked f s) = intervals s.
Proof.
  unfold untracked; by case_match.
Qed.

Lemma trace_untracked f s :
  trace (untracked f s) = trace s.
Proof.
  unfold untracked; by case_match.
Qed.

Lemma flakeIntervalId_untracked_all l s :
  flakeIntervalId (untracked_all l s) = flakeIntervalId s.
Proof.
  revert s. induction l as [|x l IH]; intros s; simpl; [done|].
  by rewrite IH, flakeIntervalId_untracked.
Qed.

Lemma cleanupIntervalId_untracked_all l s :
  cleanupIntervalId (untracked_all l s) = cleanupIntervalId s.
Proof.
  revert s. induction l as [|x l IH]; intros s; simpl; [done|].
  by rewrite IH, cleanupIntervalId_untracked.
Qed.

Lemma styleElement_untracked_all l s :
  styleElement (untracked_all l s) = styleElement s.
Proof.
  revert s. induction l as [|x l IH]; intros s; simpl; [done|].
  by rewrite IH, styleElement_untracked.
Qed.

Lemma containerElement_untracked_all l s :
  containerElement (untracked_all l s) = containerElement s.
Proof.
  revert s. induction l as [|x l IH]; intros s; simpl; [done|].
  by rewrite IH, containerElement_untracked.
Qed.

Lemma intervals_untracked_all l s :
  intervals (untracked_all l s) = intervals s.
Proof.
  revert s. induction l as [|x l IH]; intros s; simpl; [done|].
  by rewrite IH, intervals_untracked.
Qed.

Lemma trace_untracked_all l s :
  trace (untracked_all l s) = trace s.
Proof.
  revert s. induction l as [|x l IH]; intros s; simpl; [done|].
  by rewrite IH, trace_untracked.
Qed.

Lemma flakeIntervalId_cleared s :
  flakeIntervalId (cleared s) = flakeIntervalId s.
Proof.
  unfold cleared; simpl; by rewrite ?flakeIntervalId_untracked_all.
Qed.

Lemma cleanupIntervalId_cleared s :
  cleanupIntervalId (cleared s) = cleanupIntervalId s.
Proof.
  unfold cleared; simpl; by rewrite ?cleanupIntervalId_untracked_all.
Qed.

Lemma styleElement_cleared s :
  styleElement (cleared s) = styleElement s.
Proof.
  unfold cleared; simpl; by rewrite ?styleElement_untracked_all.
Qed.

Lemma containerElement_cleared s :
  containerElement (cleared s) = containerElement s.
Proof.
  unfold cleared; simpl; by rewrite ?containerElement_untracked_all.
Qed.

Lemma intervals_cleared s :
  intervals (cleared s) = intervals s.
Proof.
  unfold cleared; simpl; by rewrite ?intervals_untracked_all.
Qed.

Lemma trace_cleared s :
  trace (cleared s) = trace s.
Proof.
  unfold cleared; simpl; by rewrite ?trace_untracked_all.
Qed.

Lemma flakeIntervalId_unstyled s :
  flakeIntervalId (unstyled s) = flakeIntervalId s.
Proof.
  unfold unstyled; by case_match.
Qed.

Lemma cleanupIntervalId_unstyled s :
  cleanupIntervalId (unstyled s) = cleanupIntervalId s.
Proof.
  unfold unstyled; by case_match.
Qed.

Lemma containerElement_unstyled s :
  containerElement (unstyled s) = containerElement s.
Proof.
  unfold unstyled; by case_match.
Qed.

Lemma activeFlakes_unstyled s :
  activeFlakes (unstyled s) = activeFlakes s.
Proof.
  unfold unstyled; by case_match.
Qed.

Lemma intervals_unstyled s :
  intervals (unstyled s) = intervals s.
Proof.
  unfold unstyled; by case_match.
Qed.

Lemma trace_unstyled s :
  trace (unstyled s) = trace s.
Proof.
  unfold unstyled; by case_match.
Qed.

Lemma styleElement_untimed s :
  styleElement (untimed s) = styleElement s.
Proof.
  unfold untimed; by destruct s as [[?|] [?|] ? ? ? ? ? ?].
Qed.

Lemma containerElement_untimed s :
  containerElement (untimed s) = containerElement s.
Proof.
  unfold untimed; by destruct s as [[?|] [?|] ? ? ? ? ? ?].
Qed.

Lemma activeFlakes_untimed s :
  activeFlakes (untimed s) = activeFlakes s.
Proof.
  unfold untimed; by destruct s as [[?|] [?|] ? ? ? ? ? ?].
Qed.

Lemma elements_untimed s :
  elements (untimed s) = elements s.
Proof.
  unfold untimed; by destruct s as [[?|] [?|] ? ? ? ? ? ?].
Qed.

Lemma trace_untimed s :
  trace (untimed s) = trace s.
Proof.
  unfold untimed; by destruct s as [[?|] [?|] ? ? ? ? ? ?].
Qed.

Lemma flakeIntervalId_restored s :
  flakeIntervalId (restored s) = flakeIntervalId s.
Proof.
  unfold restored; by repeat case_match.
Qed.

Lemma cleanupIntervalId_restored s :
  cleanupIntervalId (restored s) = cleanupIntervalId s.
Proof.
  unfold restored; by repeat case_match.
Qed.

Lemma styleElement_restored s :
  styleElement (restored s) = styleElement s.
Proof.
  unfold restored; by repeat case_match.
Qed.

Lemma containerElement_restored s :
  containerElement (restored s) = containerElement s.
Proof.
  unfold restored; by repeat case_match.
Qed.

Lemma activeFlakes_restored s :
  activeFlakes (restored s) = activeFlakes s.
Proof.
  unfold restored; by repeat case_match.
Qed.

Lemma intervals_restored s :
  intervals (restored s) = intervals s.
Proof.
  unfold restored; by repeat case_match.
Qed.

Lemma trace_restored s :
  trace (restored s) = trace s.
Proof.
  unfold restored; by repeat case_match.
Qed.

Lemma flakeIntervalId_styled s :
  flakeIntervalId (styled s) = flakeIntervalId s.
Proof.
  unfold styled; by case_match.
Qed.

Lemma cleanupIntervalId_styled s :
  cleanupIntervalId (styled s) = cleanupIntervalId s.
Proof.
  unfold styled; by case_match.
Qed.

Lemma containerElement_styled s :
  containerElement (styled s) = containerElement s.
Proof.
  unfold styled; by case_match.
Qed.

Lemma activeFlakes_styled s :
  activeFlakes (styled s) = activeFlakes s.
Proof.
  unfold styled; by case_match.
Qed.

Lemma intervals_styled s :
  intervals (styled s) = intervals s.
Proof.
  unfold styled; by case_match.
Qed.

Lemma trace_styled s :
  trace (styled s) = trace s.
Proof.
  unfold styled; by case_match.
Qed.

Lemma flakeIntervalId_resolved h s :
  flakeIntervalId (resolved h s) = flakeIntervalId s.
Proof.
  unfold resolved; by case_match.
Qed.

Lemma cleanupIntervalId_resolved h s :
  cleanupIntervalId (resolved h s) = cleanupIntervalId s.
Proof.
  unfold resolved; by case_match.
Qed.

Lemma styleElement_resolved h s :
  styleElement (resolved h s) = styleElement s.
Proof.
  unfold resolved; by case_match.
Qed.

Lemma activeFlakes_resolved h s :
  activeFlakes (resolved h s) = activeFlakes s.
Proof.
  unfold resolved; by case_match.
Qed.

Lemma elements_resolved h s :
  elements (resolved h s) = elements s.
Proof.
  unfold resolved; by case_match.
Qed.

Lemma intervals_resolved h s :
  intervals (resolved h s) = intervals s.
Proof.
  unfold resolved; by case_match.
Qed.

Lemma flakeIntervalId_positioned h c s :
  flakeIntervalId (positioned h c s) = flakeIntervalId s.
Proof.
  unfold positioned; by case_match.
Qed.

Lemma cleanupIntervalId_positioned h c s :
  cleanupIntervalId (positioned h c s) = cleanupIntervalId s.
Proof.
  unfold positioned; by case_match.
Qed.

Lemma styleElement_positioned h c s :
  styleElement (positioned h c s) = styleElement s.
Proof.
  unfold positioned; by case_match.
Qed.

Lemma containerElement_positioned h c s :
  containerElement (positioned h c s) = containerElement s.
Proof.
  unfold positioned; by case_match.
Qed.

Lemma activeFlakes_positioned h c s :
  activeFlakes (positioned h c s) = activeFlakes s.
Proof.
  unfold positioned; by case_match.
Qed.

Lemma intervals_positioned h c s :
  intervals (positioned h c s) = intervals s.
Proof.
  unfold positioned; by case_match.
Qed.

Lemma trace_positioned h c s :
  trace (positioned h c s) = trace s.
Proof.
  unfold positioned; by case_match.
Qed.

Lemma styleElement_scheduled s :
  styleElement (scheduled s) = styleElement s.
Proof.
  reflexivity.
Qed.

Lemma containerElement_scheduled s :
  containerElement (scheduled s) = containerElement s.
Proof.
  reflexivity.
Qed.

Lemma activeFlakes_scheduled s :
  activeFlakes (scheduled s) = activeFlakes s.
Proof.
  reflexivity.
Qed.

Lemma elements_scheduled s :
  elements (scheduled s) = elements s.
Proof.
  reflexivity.
Qed.

Lemma trace_scheduled s :
  trace (scheduled s) = trace s.
Proof.
  reflexivity.
Qed.

Lemma flakeIntervalId_queried s :
  flakeIntervalId (queried s) = flakeIntervalId s.
Proof.
  unfold queried; by case_match.
Qed.

Lemma cleanupIntervalId_queried s :
  cleanupIntervalId (queried s) = cleanupIntervalId s.
Proof.
  unfold queried; by case_match.
Qed.

Lemma styleElement_queried s :
  styleElement (queried s) = styleElement s.
Proof.
  unfold queried; by case_match.
Qed.

Lemma containerElement_queried s :
  containerElement (queried s) = containerElement s.
Proof.
  unfold queried; by case_match.
Qed.

Lemma activeFlakes_queried s :
  activeFlakes (queried s) = activeFlakes s.
Proof.
  unfold queried; by case_match.
Qed.

Lemma elements_queried s :
  elements (queried s) = elements s.
Proof.
  unfold queried; by case_match.
Qed.

Lemma intervals_queried s :
  intervals (queried s) = intervals s.
Proof.
  unfold queried; by case_match.
Qed.

#[local] Hint Rewrite flakeIntervalId_queried cleanupIntervalId_queried
  styleElement_queried containerElement_queried activeFlakes_queried
  elements_queried intervals_queried containerElement_tidied : frame.

(** Splits a goal about what an agent leaves into the case of a refused
    query and the case of a host that answers. *)
Ltac on_refusal :=
  match goal with
  | |- context [started_by ?b ?s] =>
      pattern (started_by b s); apply started_by_cases
  | |- context [spawned_by ?b ?s] =>
      pattern (spawned_by b s); apply spawned_by_cases
  | |- context [swept_by ?b ?s] =>
      pattern (swept_by b s); apply swept_by_cases
  end; cbv beta.

#[local] Hint Rewrite flakeIntervalId_detach cleanupIntervalId_detach
  styleElement_detach containerElement_detach activeFlakes_detach
  intervals_detach trace_detach flakeIntervalId_untracked
  cleanupIntervalId_untracked styleElement_untracked
  containerElement_untracked intervals_untracked trace_untracked
  flakeIntervalId_untracked_all cleanupIntervalId_untracked_all
  styleElement_untracked_all containerElement_untracked_all
  intervals_untracked_all trace_untracked_all flakeIntervalId_cleared
  cleanupIntervalId_cleared styleElement_cleared containerElement_cleared
  intervals_cleared trace_cleared flakeIntervalId_unstyled
  cleanupIntervalId_unstyled containerElement_unstyled activeFlakes_unstyled
  intervals_unstyled trace_unstyled styleElement_untimed
  containerElement_untimed activeFlakes_untimed elements_untimed
  trace_untimed flakeIntervalId_restored cleanupIntervalId_restored
  styleElement_restored containerElement_restored activeFlakes_restored
  intervals_restored trace_restored flakeIntervalId_styled
  cleanupIntervalId_styled containerElement_styled activeFlakes_styled
  intervals_styled trace_styled flakeIntervalId_resolved
  cleanupIntervalId_resolved styleElement_resolved activeFlakes_resolved
  elements_resolved intervals_resolved flakeIntervalId_positioned
  cleanupIntervalId_positioned styleElement_positioned
  containerElement_positioned activeFlakes_positioned intervals_positioned
  trace_positioned styleElement_scheduled containerElement_scheduled
  activeFlakes_scheduled elements_scheduled trace_scheduled : frame.

(** ** Parents *)

Lemma parent_alter (f : element → element) c (m : gmap node element) n :
  (∀ e, parentNode (f e) = parentNode e) →
  from_option parentNode None (alter f c m !! n)
  = from_option parentNode None (m !! n).
Proof.
  intros P. rewrite lookup_alter. case_decide as E; [|done].
  subst. destruct (m !! n); simpl; [apply P|done].
Qed.

Lemma parent_of_detach m s n :
  parent_of (detach m s) n = if decide (m = n) then None else parent_of s n.
Proof.
  unfold parent_of, detach. simpl. rewrite lookup_alter.
  case_decide; [|done]. subst. by destruct (elements s !! n).
Qed.

Lemma detached_detach m s n :
  parent_of s n = None → parent_of (detach m s) n = None.
Proof. rewrite parent_of_detach. by case_decide. Qed.

Lemma detached_untracked f s n :
  parent_of s n = None → parent_of (untracked f s) n = None.
Proof.
  unfold untracked. case_match; [|done]. intros P.
  change (parent_of (detach f s) n = None). by apply detached_detach.
Qed.

Lemma detached_untracked_all l s n :
  parent_of s n = None → parent_of (untracked_all l s) n = None.
Proof.
  revert s. induction l as [|f l IH]; intros s P; simpl; [done|].
  by apply IH, detached_untracked.
Qed.

Lemma untracked_detached f s : parent_of (untracked f s) f = None.
Proof.
  unfold untracked. destruct (parent_of s f) eqn:P; simpl; [|done].
  change (parent_of (detach f s) f = None).
  rewrite parent_of_detach. by case_decide.
Qed.

Lemma untracked_all_detached l s f :
  f ∈ l → parent_of (untracked_all l s) f = None.
Proof.
  revert s. induction l as [|x l IH]; intros s I; [by apply elem_of_nil in I|].
  simpl. apply elem_of_cons in I as [->|I]; [|by apply IH].
  apply detached_untracked_all, untracked_detached.
Qed.

Lemma parent_of_cleared s n :
  parent_of (cleared s) n = parent_of (untracked_all (activeFlakes s) s) n.
Proof. reflexivity. Qed.

Lemma detached_unstyled s n :
  parent_of s n = None → parent_of (unstyled s) n = None.
Proof.
  unfold unstyled. case_match; [|done]. intros P.
  change (parent_of (detach n0 s) n = None). by apply detached_detach.
Qed.

Lemma unstyled_detached s n :
  styleElement s = Some n → parent_of (unstyled s) n = None.
Proof.
  unfold unstyled. intros ->.
  change (parent_of (detach n s) n = None).
  rewrite parent_of_detach. by case_decide.
Qed.

Lemma parent_of_restored s n : parent_of (restored s) n = parent_of s n.
Proof.
  unfold restored, parent_of. repeat case_match; try done. simpl.
  by rewrite !parent_alter.
Qed.

Lemma parent_of_positioned h c s n :
  parent_of (positioned h c s) n = parent_of s n.
Proof.
  unfold positioned, parent_of. case_match; [|done]. simpl.
  by rewrite !parent_alter.
Qed.

Lemma parent_of_untimed s n : parent_of (untimed s) n = parent_of s n.
Proof. unfold parent_of. by rewrite elements_untimed. Qed.

Lemma parent_of_resolved h s n : parent_of (resolved h s) n = parent_of s n.
Proof. unfold parent_of. by rewrite elements_resolved. Qed.

Lemma parent_of_scheduled s n : parent_of (scheduled s) n = parent_of s n.
Proof. unfold parent_of. by rewrite elements_scheduled. Qed.

(** ** Children *)

Lemma elem_of_childNodes s n c : c ∈ childNodes s n ↔ parent_of s c = Some n.
Proof.
  unfold childNodes, parent_of. rewrite elem_of_dom. split.
  - intros [e [E P]%map_lookup_filter_Some]. by rewrite E.
  - destruct (elements s !! c) as [e|] eqn:E; [|done]. simpl. intros P.
    exists e. by apply map_lookup_filter_Some.
Qed.

(** [appendChild] moves the child: [p] gains it, any other node loses it,
    and the children of every node are otherwise as before. *)
Lemma childNodes_appendChild p n s :
  n ∈ dom (elements s) →
  ∃ s', appendChild p n s = Ok (tt, s')
        ∧ ∀ q c, c ∈ childNodes s' q
                 ↔ (c = n ∧ q = p) ∨ (c ≠ n ∧ c ∈ childNodes s q).
Proof.
  intros [e E]%elem_of_dom. eexists. split; [reflexivity|].
  intros q c. rewrite !elem_of_childNodes. unfold parent_of. simpl.
  destruct (decide (c = n)) as [->|N].
  - rewrite lookup_alter_eq, E. simpl. split.
    + intros [= <-]. by left.
    + intros [[_ ->]|[? _]]; done.
  - rewrite lookup_alter_ne by done. split; [by right|].
    intros [[? _]|[_ ?]]; done.
Qed.

(** [remove] takes the node from the children of its parent. *)
Lemma childNodes_remove n s :
  ∃ s', remove_node n s = Ok (tt, s')
        ∧ ∀ q c, c ∈ childNodes s' q ↔ c ≠ n ∧ c ∈ childNodes s q.
Proof.
  eexists. split; [reflexivity|].
  intros q c. rewrite !elem_of_childNodes.
  change (parent_of (detach n s) c = Some q ↔ c ≠ n ∧ parent_of s c = Some q).
  rewrite parent_of_detach. case_decide as E.
  - subst. split; [done|]. by intros [? _].
  - split; [intros P; split; [congruence|done]|by intros [_ ?]].
Qed.

(** ** Stop *)

Lemma handles_untimed s :
  flakeIntervalId (untimed s) = None ∧ cleanupIntervalId (untimed s) = None.
Proof. by destruct s as [[?|] [?|] ? ? ? ? ? ?]. Qed.

Lemma intervals_untimed_spawn s i :
  flakeIntervalId s = Some i → intervals (untimed s) !! i = None.
Proof.
  destruct s as [[?|] [?|] ? ? ? ? ? ?]; intros [= ->]; unfold untimed; simpl.
  - rewrite lookup_delete. case_decide; [done|]. apply lookup_delete_eq.
  - apply lookup_delete_eq.
Qed.

Lemma intervals_untimed_sweep s j :
  cleanupIntervalId s = Some j → intervals (untimed s) !! j = None.
Proof.
  destruct s as [[?|] [?|] ? ? ? ? ? ?]; intros [= ->]; unfold untimed; simpl;
    apply lookup_delete_eq.
Qed.

Lemma untimed_id s :
  flakeIntervalId s = None → cleanupIntervalId s = None → untimed s = s.
Proof. destruct s. simpl. by intros -> ->. Qed.

Lemma cleared_id s : activeFlakes s = [] → cleared s = s.
Proof. destruct s. unfold cleared. simpl. by intros ->. Qed.

Lemma unstyled_id s : styleElement s = None → unstyled s = s.
Proof. unfold unstyled. by intros ->. Qed.

Lemma activeFlakes_cleared s : activeFlakes (cleared s) = [].
Proof. reflexivity. Qed.

Lemma styleElement_unstyled s : styleElement (unstyled s) = None.
Proof. unfold unstyled. by case_match. Qed.

Lemma restored_idem s : restored (restored s) = restored s.
Proof.
  unfold restored at 2.
  destruct (containerElement s) as [c|] eqn:C; [|unfold restored; by rewrite C].
  case_bool_decide as B; [unfold restored; by rewrite C, bool_decide_true|].
  destruct (from_option _ None (elements s !! c)) as [v|] eqn:A.
  - unfold restored. simpl. rewrite C, bool_decide_false by done.
    rewrite !lookup_alter_eq.
    destruct (elements s !! c) as [e|]; simpl in *; [|done].
    by rewrite A, lookup_delete_eq.
  - unfold restored. by rewrite C, bool_decide_false, A.
Qed.

Lemma stopped_fields s :
  flakeIntervalId (stopped s) = None ∧ cleanupIntervalId (stopped s) = None
  ∧ styleElement (stopped s) = None ∧ activeFlakes (stopped s) = []
  ∧ containerElement (stopped s) = containerElement s
  ∧ trace (stopped s) = trace s.
Proof.
  unfold stopped. destruct (handles_untimed s) as [A B].
  autorewrite with frame.
  by rewrite styleElement_unstyled, activeFlakes_cleared.
Qed.

Lemma stopped_idem s : stopped (stopped s) = stopped s.
Proof.
  destruct (stopped_fields s) as (A & B & C & D & _).
  unfold stopped at 1.
  rewrite untimed_id, cleared_id, unstyled_id by done.
  unfold stopped. apply restored_idem.
Qed.

Lemma times_stopSnowflakes n s :
  times (S n) stopSnowflakes s = Ok (tt, stopped s).
Proof.
  revert s. induction n as [|n IH]; intros s.
  - simpl. by rewrite (bind_run _ _ _ _ _ (stopSnowflakes_run s)).
  - change (times (S (S n)) stopSnowflakes)
      with (bind stopSnowflakes (λ _, times (S n) stopSnowflakes)).
    rewrite (bind_run _ _ _ _ _ (stopSnowflakes_run s)), IH.
    by rewrite stopped_idem.
Qed.

Lemma stopped_detached s e :
  styleElement s = Some e ∨ e ∈ activeFlakes s → parent_of (stopped s) e = None.
Proof.
  intros E. unfold stopped. rewrite parent_of_restored.
  destruct E as [E|E].
  - apply unstyled_detached.
    by rewrite styleElement_cleared, styleElement_untimed.
  - apply detached_unstyled. rewrite parent_of_cleared.
    apply untracked_all_detached. by rewrite activeFlakes_untimed.
Qed.

(** C2.  [stopSnowflakes] returns in every state, also one in which
    [startSnowflakes] never ran, and however many times it is called in a
    row the state is the one a single call leaves: no tracked flake, both
    timer handles [null] and their timers cancelled, no style element, and
    the flakes and the style element it held detached from the page. *)
Theorem stopSnowflakes_idempotent (n : nat) (s : state) :
  ∃ s', times (S n) stopSnowflakes s = Ok (tt, s')
        ∧ stopSnowflakes s = Ok (tt, s')
        ∧ stopSnowflakes s' = Ok (tt, s')
        ∧ activeFlakes s' = []
        ∧ flakeIntervalId s' = None ∧ cleanupIntervalId s' = None
        ∧ styleElement s' = None
        ∧ (∀ i, flakeIntervalId s = Some i ∨ cleanupIntervalId s = Some i →
                intervals s' !! i = None)
        ∧ (∀ e, styleElement s = Some e ∨ e ∈ activeFlakes s →
                parent_of s' e = None).
Proof.
  exists (stopped s). destruct (stopped_fields s) as (A & B & C & D & _).
  split; [apply times_stopSnowflakes|]. split; [apply stopSnowflakes_run|].
  split; [by rewrite stopSnowflakes_run, stopped_idem|].
  do 4 (split; [done|]). split.
  - intros i I. unfold stopped.
    rewrite intervals_restored, intervals_unstyled, intervals_cleared.
    destruct I; [by apply intervals_untimed_spawn
                |by apply intervals_untimed_sweep].
  - apply stopped_detached.
Qed.

(** ** Invariants of a run *)

Lemma ran_invariant (P : state → Prop) :
  (∀ e s, P s → P (stepped e s)) → ∀ evs s, P s → P (ran evs s).
Proof.
  intros Step evs. induction evs as [|e evs IH]; intros s I; [done|].
  simpl. by apply IH, Step.
Qed.

Lemma resolved_cached h s :
  is_Some (containerElement s) → resolved h s = s.
Proof. unfold resolved. by intros [c ->]. Qed.

Lemma containerElement_resolved h s :
  containerElement (resolved h s) = Some (container_of h s).
Proof.
  unfold resolved, container_of. by destruct (containerElement s) eqn:E.
Qed.

Lemma flakeIntervalId_spawned h s :
  flakeIntervalId (spawned h s) = flakeIntervalId s.
Proof.
  unfold spawned. repeat case_match; simpl; by rewrite ?flakeIntervalId_resolved.
Qed.

Lemma cleanupIntervalId_spawned h s :
  cleanupIntervalId (spawned h s) = cleanupIntervalId s.
Proof.
  unfold spawned.
  repeat case_match; simpl; by rewrite ?cleanupIntervalId_resolved.
Qed.

Lemma styleElement_spawned h s : styleElement (spawned h s) = styleElement s.
Proof.
  unfold spawned. repeat case_match; simpl; by rewrite ?styleElement_resolved.
Qed.

Lemma intervals_spawned h s : intervals (spawned h s) = intervals s.
Proof.
  unfold spawned. repeat case_match; simpl; by rewrite ?intervals_resolved.
Qed.

Lemma flakeIntervalId_swept h s : flakeIntervalId (swept h s) = flakeIntervalId s.
Proof.
  unfold swept. case_match; [done|].
  by rewrite flakeIntervalId_untracked_all, flakeIntervalId_resolved.
Qed.

Lemma cleanupIntervalId_swept h s :
  cleanupIntervalId (swept h s) = cleanupIntervalId s.
Proof.
  unfold swept. case_match; [done|].
  by rewrite cleanupIntervalId_untracked_all, cleanupIntervalId_resolved.
Qed.

Lemma styleElement_swept h s : styleElement (swept h s) = styleElement s.
Proof.
  unfold swept. case_match; [done|].
  by rewrite styleElement_untracked_all, styleElement_resolved.
Qed.

Lemma intervals_swept h s : intervals (swept h s) = intervals s.
Proof.
  unfold swept. case_match; [done|].
  by rewrite intervals_untracked_all, intervals_resolved.
Qed.

(** Once the container is resolved, nothing resolves it again. *)
Lemma container_kept_spawned h s c :
  containerElement s = Some c → containerElement (spawned h s) = Some c.
Proof.
  intros C. unfold spawned. rewrite resolved_cached by by rewrite C.
  by repeat case_match.
Qed.

Lemma container_kept_swept h s c :
  containerElement s = Some c → containerElement (swept h s) = Some c.
Proof.
  intros C. unfold swept. rewrite resolved_cached by by rewrite C.
  case_match; [done|]. by rewrite containerElement_untracked_all.
Qed.

Lemma containerElement_stopped s :
  containerElement (stopped s) = containerElement s.
Proof. apply stopped_fields. Qed.

Lemma containerElement_started h s :
  containerElement (started h s)
  = Some (default (resolve h) (containerElement s)).
Proof.
  unfold started. cbv zeta. rewrite containerElement_scheduled.
  set (s1 := if truthy (flakeIntervalId s) then stopped s else s).
  assert (C1 : containerElement s1 = containerElement s).
  { unfold s1. case_match; [apply containerElement_stopped|done]. }
  set (s2 := styled (cleared s1)).
  assert (C2 : containerElement s2 = containerElement s).
  { unfold s2. by rewrite containerElement_styled, containerElement_cleared. }
  rewrite (container_kept_spawned _ _ (container_of h s2)).
  - unfold container_of. by rewrite C2.
  - by rewrite containerElement_positioned, containerElement_resolved.
Qed.

Lemma container_kept e s c :
  containerElement s = Some c → containerElement (stepped e s) = Some c.
Proof.
  intros C. destruct e as [b| |i b|n|n]; cbn [stepped].
  - on_refusal; [by autorewrite with frame|].
    by rewrite containerElement_started, C.
  - by rewrite containerElement_stopped.
  - destruct (intervals s !! i) as [[[] ?]|]; [| |done]; on_refusal;
      try (by autorewrite with frame).
    + by apply container_kept_spawned.
    + by apply container_kept_swept.
  - case_match; [|done]. by rewrite containerElement_untracked.
  - done.
Qed.

Lemma timers_wf_untimed s : timers_wf s → intervals (untimed s) = ∅.
Proof.
  intros [(A & B & C)|(i & j & A & B & N & C & _)].
  - by rewrite untimed_id.
  - destruct s as [? ? ? ? ? ? iv ?]. simpl in *. subst. unfold untimed. simpl.
    rewrite delete_insert_ne by done. rewrite delete_singleton_eq.
    by rewrite insert_empty, delete_singleton_eq.
Qed.

Lemma timers_wf_stopped s : timers_wf s → timers_wf (stopped s).
Proof.
  intros W. left. destruct (stopped_fields s) as (A & B & _).
  split; [done|]. split; [done|]. unfold stopped.
  rewrite intervals_restored, intervals_unstyled, intervals_cleared.
  by apply timers_wf_untimed.
Qed.

Lemma timers_wf_started h s : timers_wf s → timers_wf (started h s).
Proof.
  intros W. right.
  assert (C := containerElement_started h s).
  unfold started in *. cbv zeta in *.
  set (s1 := if truthy (flakeIntervalId s) then stopped s else s) in *.
  assert (E : intervals s1 = ∅).
  { unfold s1. destruct W as [(A & B & C')|(i & j & A & B & N & C' & I)].
    - by rewrite A.
    - rewrite A. simpl. unfold stopped.
      rewrite intervals_restored, intervals_unstyled, intervals_cleared.
      apply timers_wf_untimed. right. exists i, j. repeat split; done. }
  set (s3 := spawned h _) in *.
  assert (E3 : intervals s3 = ∅).
  { unfold s3. by rewrite intervals_spawned, intervals_positioned,
      intervals_resolved, intervals_styled, intervals_cleared. }
  unfold scheduled in *. simpl in *. rewrite E3.
  eexists _, _. split; [done|]. split; [done|].
  split; [|split; [by rewrite insert_empty|by rewrite C]].
  intros Eq.
  apply (is_fresh (dom (<[fresh (dom (∅ : gmap positive (callback * Q)))
                          := (CreateSnowflake, interval opts)]>
                         (∅ : gmap positive (callback * Q))))).
  rewrite <- Eq at 1. set_solver.
Qed.

Lemma timers_wf_frame s s' :
  flakeIntervalId s' = flakeIntervalId s →
  cleanupIntervalId s' = cleanupIntervalId s →
  intervals s' = intervals s → containerElement s' = containerElement s →
  timers_wf s → timers_wf s'.
Proof. unfold timers_wf. by intros -> -> -> ->. Qed.

Lemma timers_wf_queried s : timers_wf s → timers_wf (queried s).
Proof. apply timers_wf_frame; by autorewrite with frame. Qed.

Lemma timers_wf_tidied s : timers_wf s → timers_wf (tidied s).
Proof.
  intros W. unfold tidied.
  apply (timers_wf_frame
           (if truthy (flakeIntervalId s) then stopped s else s));
    try by autorewrite with frame.
  case_match; [by apply timers_wf_stopped|done].
Qed.

Lemma timers_wf_stepped e s : timers_wf s → timers_wf (stepped e s).
Proof.
  intros W. destruct e as [ag| |i ag|n|n]; cbn [stepped].
  - on_refusal; [intros _; by apply timers_wf_queried, timers_wf_tidied|].
    by apply timers_wf_started.
  - by apply timers_wf_stopped.
  - destruct (intervals s !! i) as [[[] ?]|]; [| |done]; on_refusal;
      try (intros; by apply timers_wf_queried).
    + destruct W as [(A & B & C)|(a & b & A & B & N & C & I)]; [left|right].
      * by rewrite flakeIntervalId_spawned, cleanupIntervalId_spawned,
          intervals_spawned.
      * exists a, b.
        rewrite flakeIntervalId_spawned, cleanupIntervalId_spawned,
          intervals_spawned.
        destruct I as [c I]. by rewrite (container_kept_spawned _ _ c).
    + destruct W as [(A & B & C)|(a & b & A & B & N & C & I)]; [left|right].
      * by rewrite flakeIntervalId_swept, cleanupIntervalId_swept,
          intervals_swept.
      * exists a, b.
        rewrite flakeIntervalId_swept, cleanupIntervalId_swept,
          intervals_swept.
        destruct I as [c I]. by rewrite (container_kept_swept _ _ c).
  - case_match; [|done].
    destruct W as [(A & B & C)|(a & b & A & B & N & C & I)]; [left|right].
    + by rewrite flakeIntervalId_untracked, cleanupIntervalId_untracked,
        intervals_untracked.
    + exists a, b.
      by rewrite flakeIntervalId_untracked, cleanupIntervalId_untracked,
        intervals_untracked, containerElement_untracked.
  - done.
Qed.

Lemma timers_wf_ran d evs : timers_wf (ran evs (init d)).
Proof. apply ran_invariant; [apply timers_wf_stepped|by left]. Qed.

(** ** The maximum number of flakes *)

Lemma at_capacity_true s :
  at_capacity s = true ↔
  ∃ n, maxFlakes opts = Some n
       ∧ (n <= inject_Z (Z.of_nat (length (activeFlakes s))))%Q.
Proof.
  unfold at_capacity. destruct (maxFlakes opts) as [n|].
  - rewrite Qle_bool_iff. split; [by exists n|by intros (? & [= <-] & ?)].
  - split; [done|by intros (? & ? & ?)].
Qed.

Lemma at_capacity_false s n :
  maxFlakes opts = Some n → at_capacity s = false →
  (inject_Z (Z.of_nat (length (activeFlakes s))) < n)%Q.
Proof.
  unfold at_capacity. intros ->. intros F. apply Qnot_le_lt. intros L.
  apply Qle_bool_iff in L. congruence.
Qed.

Lemma spawned_at_capacity h s :
  at_capacity s = true → spawn_result h s = None ∧ spawned h s = s.
Proof. unfold spawn_result, spawned. by intros ->. Qed.

Lemma createSnowflake_at_capacity b s :
  at_capacity s = true → createSnowflake b s = Ok (None, s).
Proof.
  intros C. rewrite createSnowflake_outcome.
  unfold spawned_by, spawn_result, spawned. by rewrite C.
Qed.

Lemma length_set_delete x l : (length (set_delete x l) ≤ length l)%nat.
Proof. apply length_filter. Qed.

Lemma length_set_add x l : (length (set_add x l) ≤ S (length l))%nat.
Proof.
  unfold set_add. case_match; [lia|]. rewrite length_app. simpl. lia.
Qed.

Lemma length_untracked f s :
  (length (activeFlakes (untracked f s)) ≤ length (activeFlakes s))%nat.
Proof. unfold untracked. case_match; [apply length_set_delete|done]. Qed.

Lemma length_untracked_all l s :
  (length (activeFlakes (untracked_all l s)) ≤ length (activeFlakes s))%nat.
Proof.
  revert s. induction l as [|f l IH]; intros s; simpl; [done|].
  etrans; [apply IH|apply length_untracked].
Qed.

Lemma length_swept h s :
  (length (activeFlakes (swept h s)) ≤ length (activeFlakes s))%nat.
Proof.
  unfold swept. destruct (activeFlakes s) as [|f l] eqn:E; [by rewrite E|].
  rewrite <- E.
  etrans; [apply length_untracked_all|]. by rewrite activeFlakes_resolved.
Qed.

Lemma activeFlakes_spawned h s :
  activeFlakes (spawned h s)
  = if at_capacity s || too_small h then activeFlakes s
    else set_add (fresh (dom (elements s))) (activeFlakes s).
Proof.
  unfold spawned. destruct (at_capacity s), (too_small h); simpl; try done.
  apply activeFlakes_resolved.
Qed.

(** The flakes tracked when [startSnowflakes] returns are the ones its
    own call of [createSnowflake] leaves on an empty set. *)
Lemma activeFlakes_started h s :
  ∃ s0, activeFlakes s0 = []
        ∧ activeFlakes (started h s) = activeFlakes (spawned h s0).
Proof.
  unfold started. cbv zeta. eexists. split; [|by rewrite activeFlakes_scheduled].
  by rewrite activeFlakes_positioned, activeFlakes_resolved,
    activeFlakes_styled.
Qed.

Lemma activeFlakes_tidied s : activeFlakes (tidied s) = [].
Proof. unfold tidied. by rewrite activeFlakes_styled. Qed.

(** A bound [b] that [createSnowflake] respects is respected by every
    event. *)
Lemma bound_stepped (b : nat) e s :
  (∀ h s0, (length (activeFlakes s0) ≤ b)%nat →
           (length (activeFlakes (spawned h s0)) ≤ b)%nat) →
  (length (activeFlakes s) ≤ b)%nat →
  (length (activeFlakes (stepped e s)) ≤ b)%nat.
Proof.
  intros Spawn B. destruct e as [ag| |i ag|n|n]; cbn [stepped].
  - on_refusal.
    + intros _. rewrite activeFlakes_queried, activeFlakes_tidied. simpl. lia.
    + destruct (activeFlakes_started (answers ag) s) as (s0 & E & ->).
      apply Spawn. rewrite E. simpl. lia.
  - destruct (stopped_fields s) as (_ & _ & _ & -> & _). simpl. lia.
  - destruct (intervals s !! i) as [[[] ?]|]; [| |done]; on_refusal;
      try (intros; by rewrite activeFlakes_queried).
    + by apply Spawn.
    + etrans; [apply length_swept|done].
  - case_match; [|done]. etrans; [apply length_untracked|done].
  - done.
Qed.

Lemma spawned_within (n : Q) h s :
  maxFlakes opts = Some n →
  (Z.of_nat (length (activeFlakes s)) ≤ Z.max 0 (Qceiling n))%Z →
  (Z.of_nat (length (activeFlakes (spawned h s))) ≤ Z.max 0 (Qceiling n))%Z.
Proof.
  intros N B. rewrite activeFlakes_spawned.
  destruct (at_capacity s) eqn:C; [done|]. destruct (too_small h); [done|].
  simpl. apply (at_capacity_false _ _ N) in C.
  assert (L := length_set_add (fresh (dom (elements s))) (activeFlakes s)).
  assert (U := Qle_ceiling n).
  assert (X : (inject_Z (Z.of_nat (length (activeFlakes s)))
               < inject_Z (Qceiling n))%Q) by lra.
  rewrite <- Zlt_Qlt in X. lia.
Qed.

(** C1.  With [maxFlakes = N], [createSnowflake] returns [null] and leaves
    the state as it is, so creates and attaches nothing, whenever the
    tracked set holds at least [N] flakes; and after any sequence of
    events, spawn ticks among them, the tracked set holds at most [N]
    flakes for a whole number [N] that is not negative, as a maximum
    number of flakes is.  For any other number the bound is [N] rounded
    up, and no flake at all when [N] is negative. *)
Theorem maxFlakes_respected (N : Q) :
  maxFlakes opts = Some N →
  (∀ h s, (N <= inject_Z (Z.of_nat (length (activeFlakes s))))%Q →
          createSnowflake h s = Ok (None, s))
  ∧ (∀ d evs, ∃ s,
       run evs (init d) = Ok (tt, s)
       ∧ (Z.of_nat (length (activeFlakes s)) ≤ Z.max 0 (Qceiling N))%Z
       ∧ ∀ k : Z, (0 ≤ k)%Z → (N == inject_Z k)%Q →
                  (Z.of_nat (length (activeFlakes s)) ≤ k)%Z).
Proof.
  intros HN. split.
  - intros b s L. apply createSnowflake_at_capacity.
    apply at_capacity_true; eauto.
  - intros d evs. exists (ran evs (init d)). split; [apply run_run|].
    assert (B : (Z.of_nat (length (activeFlakes (ran evs (init d))))
                 ≤ Z.max 0 (Qceiling N))%Z).
    { assert (P : (length (activeFlakes (ran evs (init d)))
                   ≤ Z.to_nat (Z.max 0 (Qceiling N)))%nat).
      { apply (ran_invariant
                 (λ s, (length (activeFlakes s)
                        ≤ Z.to_nat (Z.max 0 (Qceiling N)))%nat)).
        - intros e s B. apply bound_stepped; [|done].
          intros h s0 B0.
          assert (X := spawned_within N h s0 HN). lia.
        - simpl. lia. }
      lia. }
    split; [done|]. intros k K E.
    rewrite E, Qceiling_Z in B. lia.
Qed.

(** C9.  With [maxFlakes] a number that is not positive, every call of
    [createSnowflake] returns [null] and changes nothing, and the tracked
    set is empty after any sequence of events, also right after a start. *)
Theorem maxFlakes_not_positive (N : Q) :
  maxFlakes opts = Some N → (N <= 0)%Q →
  (∀ h s, createSnowflake h s = Ok (None, s))
  ∧ (∀ d evs, ∃ s, run evs (init d) = Ok (tt, s) ∧ activeFlakes s = []).
Proof.
  intros HN Le.
  assert (C : ∀ s, at_capacity s = true).
  { intros s. apply at_capacity_true. exists N. split; [done|].
    assert (X : (inject_Z 0 <= inject_Z (Z.of_nat (length (activeFlakes s))))%Q).
    { rewrite <- Zle_Qle. lia. }
    change (inject_Z 0) with 0%Q in X. lra. }
  split.
  - intros b s. by apply createSnowflake_at_capacity.
  - intros d evs. exists (ran evs (init d)). split; [apply run_run|].
    apply length_zero_iff_nil.
    assert (P : (length (activeFlakes (ran evs (init d))) ≤ 0)%nat); [|lia].
    apply (ran_invariant (λ s, (length (activeFlakes s) ≤ 0)%nat)); [|done].
    intros e s B. apply bound_stepped; [|done].
    intros h s0 B0. by destruct (spawned_at_capacity h s0 (C s0)) as [_ ->].
Qed.

(** C8.  When the tracked set is at the configured maximum, or the rounded
    size is at most 0, [createSnowflake] returns [null] without raising:
    elements, tracked set, timers and style element are as before, and the
    whole state is as before when the maximum was the cause or the
    container was resolved earlier.  The container is resolved whenever
    the spawn timer runs, so a tick that is skipped leaves the state of
    the instance as it was, its timers included. *)
Theorem createSnowflake_skips (h : host) :
  (∀ s, at_capacity s = true
        ∨ (Math_round (random (minSize opts) (maxSize opts) (Math_random h 2))
           ≤ 0)%Z →
     ∃ s', createSnowflake h s = Ok (None, s')
           ∧ elements s' = elements s ∧ activeFlakes s' = activeFlakes s
           ∧ intervals s' = intervals s
           ∧ flakeIntervalId s' = flakeIntervalId s
           ∧ cleanupIntervalId s' = cleanupIntervalId s
           ∧ styleElement s' = styleElement s
           ∧ (at_capacity s = true ∨ is_Some (containerElement s) → s' = s))
  ∧ (∀ d evs s i delay,
       run evs (init d) = Ok (tt, s) →
       intervals s !! i = Some (CreateSnowflake, delay) →
       at_capacity s = true
       ∨ (Math_round (random (minSize opts) (maxSize opts) (Math_random h 2))
          ≤ 0)%Z →
       createSnowflake h s = Ok (None, s)
       ∧ step (Fire i h) s = Ok (tt, s)).
Proof.
  assert (G : ∀ s, at_capacity s = true ∨ too_small h = true →
                   spawn_result h s = None
                   ∧ (at_capacity s = true ∨ is_Some (containerElement s) →
                      spawned h s = s)
                   ∧ ∃ t c, spawned h s = set_trace t (set_containerElement c s)).
  { intros s Guard. unfold spawn_result, spawned.
    destruct (at_capacity s); [|destruct Guard as [ | -> ]; [done|]].
    - split; [done|]. split; [done|].
      exists (trace s), (containerElement s). by destruct s.
    - split; [done|]. split.
      + intros [|I]; [done|]. by apply resolved_cached.
      + unfold resolved. destruct (containerElement s) eqn:E; [|by eexists _, _].
        exists (trace s), (containerElement s). by destruct s. }
  assert (T : (Math_round (random (minSize opts) (maxSize opts)
                                  (Math_random h 2)) ≤ 0)%Z →
              too_small h = true).
  { intros L. by apply Z.leb_le. }
  split.
  - intros s Guard.
    destruct (G s) as (R & Same & t & c & E).
    { destruct Guard; [by left|right; by apply T]. }
    exists (spawned h s). rewrite createSnowflake_run, R.
    split; [done|]. rewrite E. simpl. do 6 (split; [done|]).
    by rewrite <- E.
  - intros d evs s i delay Run I Guard.
    rewrite run_run in Run. injection Run as <-.
    set (s := ran evs (init d)) in *.
    destruct (G s) as (R & Same & _).
    { destruct Guard; [by left|right; by apply T]. }
    assert (W : timers_wf s) by apply timers_wf_ran.
    assert (C : is_Some (containerElement s)).
    { destruct W as [(_ & _ & E)|(_ & _ & _ & _ & _ & _ & C)]; [|done].
      rewrite E in I. by rewrite lookup_empty in I. }
    rewrite step_run by apply accepts_host.
    rewrite stepped_fire, I, createSnowflake_run, R.
    by rewrite Same by by right.
Qed.

(** ** Resolution of the container *)

Lemma resolved_cases h s : same_or_resolved h s (resolved h s).
Proof.
  unfold same_or_resolved, resolved.
  destruct (containerElement s) eqn:E; [by left|by right].
Qed.

Lemma spawned_cases h s : same_or_resolved h s (spawned h s).
Proof.
  unfold spawned. destruct (at_capacity s); [by left|].
  destruct (too_small h); [apply resolved_cases|].
  destruct (resolved_cases h s) as [[A B]|(A & B & C)]; [left|right]; done.
Qed.

Lemma swept_cases h s : same_or_resolved h s (swept h s).
Proof.
  unfold swept. destruct (activeFlakes s); [by left|].
  destruct (resolved_cases h s) as [[A B]|(A & B & C)]; [left|right];
    by rewrite containerElement_untracked_all, trace_untracked_all.
Qed.

Lemma trace_stopped s : trace (stopped s) = trace s.
Proof. apply stopped_fields. Qed.

Lemma started_cases h s : same_or_resolved h s (started h s).
Proof.
  unfold started. cbv zeta.
  set (s1 := if truthy (flakeIntervalId s) then stopped s else s).
  assert (C1 : containerElement s1 = containerElement s ∧ trace s1 = trace s).
  { unfold s1. case_match; [|done].
    by rewrite containerElement_stopped, trace_stopped. }
  destruct C1 as [C1 T1].
  set (s2 := styled (cleared s1)).
  assert (C2 : containerElement s2 = containerElement s ∧ trace s2 = trace s).
  { unfold s2. by rewrite containerElement_styled, containerElement_cleared,
      trace_styled, trace_cleared. }
  destruct C2 as [C2 T2].
  set (s3 := positioned h (container_of h s2) (resolved h s2)).
  assert (R : same_or_resolved h s s3).
  { unfold s3. destruct (resolved_cases h s2) as [[A B]|(A & B & C)];
      [left|right]; rewrite containerElement_positioned, trace_positioned;
      rewrite <- ?C2, <- ?T2; done. }
  assert (K : same_or_resolved h s3 (spawned h s3)) by apply spawned_cases.
  assert (F : is_Some (containerElement s3)).
  { unfold s3. by rewrite containerElement_positioned,
      containerElement_resolved. }
  destruct K as [[A B]|(A & _)]; [|rewrite A in F; by destruct F].
  unfold same_or_resolved.
  rewrite containerElement_scheduled, trace_scheduled, A, B. exact R.
Qed.

Lemma trace_tidied s : trace (tidied s) = trace s.
Proof.
  unfold tidied. rewrite trace_styled, trace_cleared.
  case_match; [apply trace_stopped|done].
Qed.

(** What an event does to the cached container and to the trace: nothing,
    or the one resolution, or a query that is refused. *)
Lemma stepped_cases e s :
  (containerElement (stepped e s) = containerElement s
   ∧ trace (stepped e s) = trace s)
  ∨ (∃ h, same_or_resolved h s (stepped e s))
  ∨ (accepted e = false ∧ containerElement s = None
     ∧ containerElement (stepped e s) = None
     ∧ ∃ selector, trace (stepped e s) = trace s ++ [QuerySelector selector]).
Proof.
  assert (Q : ∀ b s0, refused b s = true →
                containerElement s0 = containerElement s →
                trace s0 = trace s →
                accepts b = false ∧ containerElement s = None
                ∧ containerElement (queried s0) = None
                ∧ ∃ selector,
                    trace (queried s0) = trace s ++ [QuerySelector selector]).
  { intros b s0 R C T. destruct (refused_inv b s R) as (N & A & sel & _ & _ & E).
    split; [done|]. split; [done|].
    rewrite containerElement_queried, C. split; [done|].
    exists sel. by rewrite E, <- T. }
  destruct e as [b| |i b|n|n]; cbn [stepped].
  - on_refusal.
    + intros R. right. right.
      apply Q; [done|apply containerElement_tidied|apply trace_tidied].
    + right. left. exists (answers b). apply started_cases.
  - left. by rewrite containerElement_stopped, trace_stopped.
  - destruct (intervals s !! i) as [[[] ?]|]; [| |by left]; on_refusal.
    + intros R _. right. right. by apply Q.
    + right. left. exists (answers b). apply spawned_cases.
    + intros R. right. right. by apply Q.
    + right. left. exists (answers b). apply swept_cases.
  - left. case_match; [|done].
    by rewrite containerElement_untracked, trace_untracked.
  - by left.
Qed.

Lemma resolve_trace_counts h :
  (queries (resolve_trace h) ≤ 1)%nat ∧ (warnings (resolve_trace h) ≤ 1)%nat.
Proof.
  unfold resolve_trace, queries, warnings.
  destruct (container opts) as [sel| |]; simpl; [|lia..].
  destruct (querySelector h sel); simpl; lia.
Qed.

Lemma trace_kept e s :
  is_Some (containerElement s) → trace (stepped e s) = trace s.
Proof.
  intros [c C].
  destruct (stepped_cases e s)
    as [[_ T]|[(h & [[_ T]|(A & _)])|(_ & A & _)]]; [done..| |]; congruence.
Qed.

Lemma queries_app t1 t2 : queries (t1 ++ t2) = (queries t1 + queries t2)%nat.
Proof. unfold queries. by rewrite List.filter_app, length_app. Qed.

Lemma warnings_app t1 t2 :
  warnings (t1 ++ t2) = (warnings t1 + warnings t2)%nat.
Proof. unfold warnings. by rewrite List.filter_app, length_app. Qed.

Lemma resolved_within_stepped k e s :
  resolved_within k s →
  resolved_within (k + (if accepted e then 0 else 1)) (stepped e s).
Proof.
  intros (E & Q & W).
  destruct (stepped_cases e s)
    as [[A B]|[(h & [[A B]|(A & B & C)])|(R & A & B & sel & C)]].
  - unfold resolved_within. rewrite A, B.
    split; [|lia]. intros N. destruct (E N). lia.
  - unfold resolved_within. rewrite A, B.
    split; [|lia]. intros N. destruct (E N). lia.
  - destruct (E A) as [E1 E2]. destruct (resolve_trace_counts h) as [R1 R2].
    unfold resolved_within. rewrite B, C, queries_app, warnings_app.
    split; [done|]. lia.
  - destruct (E A) as [E1 E2].
    unfold resolved_within. rewrite R, C, queries_app, warnings_app.
    change (queries [QuerySelector sel]) with 1%nat.
    change (warnings [QuerySelector sel]) with 0%nat.
    split; [|lia]. intros _. lia.
Qed.

Lemma resolved_within_ran evs k s :
  resolved_within k s → resolved_within (k + rejections evs) (ran evs s).
Proof.
  revert k s. induction evs as [|e evs IH]; intros k s R.
  - unfold rejections. simpl. by rewrite Nat.add_0_r.
  - simpl. apply (resolved_within_stepped _ e) in R. apply IH in R.
    unfold rejections in *. simpl.
    destruct (accepted e); simpl in *; [by rewrite Nat.add_0_r in R|].
    by rewrite <- Nat.add_assoc in R.
Qed.

Lemma rejections_none evs : forallb accepted evs = true → rejections evs = 0%nat.
Proof.
  unfold rejections. induction evs as [|e evs IH]; [done|]. simpl.
  intros [A B]%andb_prop. rewrite A. simpl. by apply IH.
Qed.

(** C7.  [getContainer] resolves the container at most once.  On the
    first call a string costs one [querySelector] and, on a miss, one
    warning and the fall back to [document.body]; an element is taken as
    it is; anything else gives [document.body].  A string that is no
    selector makes the query throw a [SyntaxError]: then nothing is
    cached and nothing else changes.  Once there is a result it is cached:
    a later call returns it and leaves the state alone, and no sequence of
    events, stops and starts included, changes the cached container or
    makes a further query or warning.  Over the life of an instance there
    is at most one warning, and at most one query besides those that were
    refused: at most one in all when every agent parses the selector. *)
Theorem getContainer_memoized :
  (∀ (b : agent) s, containerElement s = None → accepts b = true →
     ∃ c s', getContainer b s = Ok (Some c, s')
             ∧ containerElement s' = Some c
             ∧ match container opts with
               | CSelector selector =>
                   match querySelector (answers b) selector with
                   | Some el =>
                       c = el ∧ trace s' = trace s ++ [QuerySelector selector]
                   | None =>
                       c = document_body
                       ∧ trace s' = trace s ++
                           [QuerySelector selector;
                            ConsoleWarn (not_found_warning selector)]
                   end
               | CElement el => c = el ∧ trace s' = trace s
               | COther => c = document_body ∧ trace s' = trace s
               end)
  ∧ (∀ (b : agent) s selector,
       containerElement s = None → container opts = CSelector selector →
       rejects b selector = true →
       getContainer b s
       = Throw SyntaxError (set_trace (trace s ++ [QuerySelector selector]) s))
  ∧ (∀ (b : agent) s c, containerElement s = Some c →
                        getContainer b s = Ok (Some c, s))
  ∧ (∀ s c evs, containerElement s = Some c →
       ∃ s', run evs s = Ok (tt, s')
             ∧ containerElement s' = Some c ∧ trace s' = trace s)
  ∧ (∀ d evs, ∃ s, run evs (init d) = Ok (tt, s)
                   ∧ (warnings (trace s) ≤ 1)%nat
                   ∧ (queries (trace s) ≤ rejections evs + 1)%nat
                   ∧ (forallb accepted evs = true →
                      (queries (trace s) ≤ 1)%nat)
                   ∧ (containerElement s = None →
                      warnings (trace s) = 0%nat
                      ∧ (queries (trace s) ≤ rejections evs)%nat)).
Proof.
  split; [|split; [|split; [|split]]].
  - intros b s C A.
    exists (container_of (answers b) s), (resolved (answers b) s).
    rewrite getContainer_outcome, refused_accepted by done.
    split; [done|]. split; [apply containerElement_resolved|].
    unfold container_of, resolved, resolve, resolve_trace. rewrite C. simpl.
    destruct (container opts) as [sel| |]; try by rewrite app_nil_r.
    by destruct (querySelector (answers b) sel).
  - intros b s sel C O R. rewrite getContainer_outcome.
    unfold refused, accepts, queried. by rewrite C, O, R.
  - intros b s c C. rewrite getContainer_outcome.
    rewrite refused_cached by by rewrite C.
    unfold container_of. rewrite C. simpl.
    by rewrite resolved_cached by by rewrite C.
  - intros s c evs C. exists (ran evs s). split; [apply run_run|].
    revert s C. induction evs as [|e evs IH]; intros s C; [done|]. simpl.
    destruct (IH (stepped e s)) as [A B]; [by apply container_kept|].
    split; [done|]. rewrite B. apply trace_kept. by rewrite C.
  - intros d evs. exists (ran evs (init d)). split; [apply run_run|].
    destruct (resolved_within_ran evs 0 (init d)) as (E & Q & W).
    { unfold resolved_within, queries, warnings. simpl. split; [done|lia]. }
    simpl in *. split; [done|]. split; [lia|]. split; [|done].
    intros A. rewrite (rejections_none evs A) in Q. done.
Qed.

(** ** Elements over time *)

Lemma dom_detach n s : dom (elements (detach n s)) = dom (elements s).
Proof. apply dom_alter_L. Qed.

Lemma dom_untracked f s : dom (elements (untracked f s)) = dom (elements s).
Proof. unfold untracked. case_match; [apply dom_alter_L|done]. Qed.

Lemma dom_untracked_all l s :
  dom (elements (untracked_all l s)) = dom (elements s).
Proof.
  revert s. induction l as [|f l IH]; intros s; simpl; [done|].
  by rewrite IH, dom_untracked.
Qed.

Lemma dom_cleared s : dom (elements (cleared s)) = dom (elements s).
Proof. apply dom_untracked_all. Qed.

Lemma dom_unstyled s : dom (elements (unstyled s)) = dom (elements s).
Proof. unfold unstyled. case_match; [apply dom_alter_L|done]. Qed.

Lemma dom_restored s : dom (elements (restored s)) = dom (elements s).
Proof.
  unfold restored. repeat case_match; try done. simpl.
  by rewrite !dom_alter_L.
Qed.

Lemma dom_positioned h c s :
  dom (elements (positioned h c s)) = dom (elements s).
Proof.
  unfold positioned. case_match; [|done]. simpl. by rewrite !dom_alter_L.
Qed.

Lemma dom_stopped s : dom (elements (stopped s)) = dom (elements s).
Proof.
  unfold stopped.
  by rewrite dom_restored, dom_unstyled, dom_cleared, elements_untimed.
Qed.

Lemma dom_styled s : dom (elements s) ⊆ dom (elements (styled s)).
Proof.
  unfold styled. case_match; [done|]. simpl.
  rewrite !dom_alter_L, dom_insert_L. set_solver.
Qed.

Lemma dom_spawned h s : dom (elements s) ⊆ dom (elements (spawned h s)).
Proof.
  unfold spawned. repeat case_match; simpl; rewrite ?elements_resolved;
    [done..|].
  rewrite dom_insert_L. set_solver.
Qed.

Lemma dom_swept h s : dom (elements (swept h s)) = dom (elements s).
Proof.
  unfold swept. case_match; [done|].
  by rewrite dom_untracked_all, elements_resolved.
Qed.

Lemma fresh_ne (m : gmap node element) n :
  n ∈ dom m → fresh (dom m) ≠ n.
Proof. intros I E. subst. by apply (is_fresh (dom m)). Qed.

Lemma parent_of_styled s n :
  n ∈ dom (elements s) → parent_of (styled s) n = parent_of s n.
Proof.
  intros I. unfold styled, parent_of. case_match; [done|]. simpl.
  rewrite !lookup_alter_ne, lookup_insert_ne by by apply fresh_ne. done.
Qed.

Lemma parent_of_spawned h s n :
  n ∈ dom (elements s) → parent_of (spawned h s) n = parent_of s n.
Proof.
  intros I. unfold spawned, parent_of.
  repeat case_match; simpl; rewrite ?elements_resolved; [done..|].
  by rewrite lookup_insert_ne by by apply fresh_ne.
Qed.

Lemma styled_sheet s :
  styleElement s = None →
  let sheet := fresh (dom (elements s)) in
  styleElement (styled s) = Some sheet
  ∧ parent_of (styled s) sheet = Some document_head
  ∧ sheet ∈ dom (elements (styled s)).
Proof.
  intros E. unfold styled, parent_of. rewrite E. simpl.
  rewrite !lookup_alter_eq, lookup_insert_eq. simpl.
  split; [done|]. split; [done|].
  rewrite !dom_alter_L, dom_insert_L. set_solver.
Qed.

(** ** Restart *)

Lemma started_running h s :
  truthy (flakeIntervalId s) = true → started h s = started h (stopped s).
Proof.
  intros R. unfold started. rewrite R.
  by destruct (stopped_fields s) as (-> & _).
Qed.

Lemma scheduled_timers s :
  let i := fresh (dom (intervals s)) in
  let j := fresh (dom (<[i := (CreateSnowflake, interval opts)]> (intervals s))) in
  flakeIntervalId (scheduled s) = Some i
  ∧ cleanupIntervalId (scheduled s) = Some j
  ∧ i ≠ j
  ∧ intervals (scheduled s) !! i = Some (CreateSnowflake, interval opts)
  ∧ intervals (scheduled s) !! j = Some (CleanupSnowflakes, 2000%Q).
Proof.
  intros i j.
  assert (N : i ≠ j).
  { intros E.
    apply (is_fresh (dom (<[i := (CreateSnowflake, interval opts)]>
                            (intervals s)))).
    fold j. rewrite <- E. set_solver. }
  unfold scheduled. simpl. fold i. fold j.
  split; [done|]. split; [done|]. split; [done|].
  rewrite lookup_insert_ne, !lookup_insert_eq by done. done.
Qed.

(** What a start leaves, from a state that is not running. *)
Lemma started_shape h s :
  styleElement s = None →
  ∃ sheet i j,
    styleElement (started h s) = Some sheet
    ∧ (sheet ∉ dom (elements s))
    ∧ parent_of (started h s) sheet = Some document_head
    ∧ flakeIntervalId (started h s) = Some i
    ∧ intervals (started h s) !! i = Some (CreateSnowflake, interval opts)
    ∧ cleanupIntervalId (started h s) = Some j
    ∧ intervals (started h s) !! j = Some (CleanupSnowflakes, 2000%Q)
    ∧ i ≠ j
    ∧ (activeFlakes (started h s) = []
       ∨ ∃ f, activeFlakes (started h s) = [f] ∧ (f ∉ dom (elements s))
              ∧ f ≠ sheet
              ∧ parent_of (started h s) f
                = Some (default (resolve h) (containerElement s)))
    ∧ (∀ n, n ∈ dom (elements s) → parent_of s n = None →
            parent_of (started h s) n = None).
Proof.
  intros E.
  assert (C := containerElement_started h s).
  unfold started in *. cbv zeta in *.
  set (s1 := if truthy (flakeIntervalId s) then stopped s else s) in *.
  assert (D1 : dom (elements s1) = dom (elements s)).
  { unfold s1. case_match; [apply dom_stopped|done]. }
  assert (E1 : styleElement s1 = None).
  { unfold s1. case_match; [apply stopped_fields|done]. }
  assert (P1 : ∀ n, parent_of s n = None → parent_of s1 n = None).
  { intros n P. unfold s1. case_match; [|done]. unfold stopped.
    rewrite parent_of_restored. apply detached_unstyled.
    rewrite parent_of_cleared. apply detached_untracked_all.
    by rewrite parent_of_untimed. }
  set (s2 := styled (cleared s1)) in *.
  assert (E2 : styleElement (cleared s1) = None)
    by by rewrite styleElement_cleared.
  destruct (styled_sheet _ E2) as (S2 & P2 & I2). fold s2 in S2, P2, I2.
  rewrite dom_cleared, D1 in S2, P2, I2.
  set (sheet := fresh (dom (elements s))) in *.
  set (s3 := positioned h (container_of h s2) (resolved h s2)) in *.
  assert (D3 : dom (elements s3) = dom (elements s2)).
  { unfold s3. by rewrite dom_positioned, elements_resolved. }
  assert (P3 : ∀ n, parent_of s3 n = parent_of s2 n).
  { intros n. unfold s3.
    by rewrite parent_of_positioned, parent_of_resolved. }
  assert (D2 : dom (elements s) ⊆ dom (elements s2)).
  { unfold s2. etrans; [|apply dom_styled]. by rewrite dom_cleared, D1. }
  destruct (scheduled_timers (spawned h s3)) as (Ti & Tj & Tn & Li & Lj).
  exists sheet, (fresh (dom (intervals (spawned h s3)))),
    (fresh (dom (<[fresh (dom (intervals (spawned h s3)))
                   := (CreateSnowflake, interval opts)]>
                  (intervals (spawned h s3))))).
  split; [by rewrite styleElement_scheduled, styleElement_spawned;
          unfold s3; rewrite styleElement_positioned, styleElement_resolved|].
  split; [apply is_fresh|].
  split; [by rewrite parent_of_scheduled, parent_of_spawned, P3
            by by rewrite D3|].
  do 5 (split; [done|]). split.
  - rewrite activeFlakes_scheduled, activeFlakes_spawned.
    assert (A3 : activeFlakes s3 = []).
    { unfold s3, s2. by rewrite activeFlakes_positioned,
        activeFlakes_resolved, activeFlakes_styled. }
    rewrite A3. destruct (at_capacity s3 || too_small h) eqn:G; [by left|].
    right. exists (fresh (dom (elements s3))).
    apply orb_false_elim in G as [G1 G2].
    split; [done|]. split.
    { intros I. apply D2 in I. rewrite <- D3 in I.
      by apply (is_fresh (dom (elements s3))). }
    split.
    { intros Eq. apply (is_fresh (dom (elements s3))).
      rewrite Eq, D3. done. }
    rewrite parent_of_scheduled. unfold spawned, parent_of.
    rewrite G1, G2. simpl. rewrite lookup_insert_eq. simpl.
    f_equal. unfold container_of at 1.
    assert (C3 : containerElement s3 = Some (container_of h s2)).
    { unfold s3. by rewrite containerElement_positioned,
        containerElement_resolved. }
    rewrite C3. simpl. unfold container_of, s2.
    rewrite containerElement_styled, containerElement_cleared.
    unfold s1. case_match; [by rewrite containerElement_stopped|done].
  - intros n I P.
    rewrite parent_of_scheduled, parent_of_spawned, P3
      by (rewrite D3; by apply D2).
    unfold s2. rewrite parent_of_styled by by rewrite dom_cleared, D1.
    rewrite parent_of_cleared. apply detached_untracked_all. by apply P1.
Qed.

(** C3.  While the spawn timer is set, [startSnowflakes] does what
    [stopSnowflakes] followed by [startSnowflakes] does, to the same end
    state.  In that state there is one style element, new and attached to
    the head, the former one being detached; one spawn timer and one sweep
    timer, distinct, and no other when the timers were those of this
    instance; and the tracked set holds at most the one flake made by this
    start, every flake tracked before being untracked and detached. *)
Theorem restart_is_stop_then_start (h : host) (s : state) :
  truthy (flakeIntervalId s) = true →
  startSnowflakes h s = bind stopSnowflakes (λ _, startSnowflakes h) s
  ∧ ∃ s' sheet i j,
      startSnowflakes h s = Ok (tt, s')
      ∧ styleElement s' = Some sheet
      ∧ parent_of s' sheet = Some document_head
      ∧ (∀ old, styleElement s = Some old → old ∈ dom (elements s) →
                old ≠ sheet ∧ parent_of s' old = None)
      ∧ flakeIntervalId s' = Some i
      ∧ intervals s' !! i = Some (CreateSnowflake, interval opts)
      ∧ cleanupIntervalId s' = Some j
      ∧ intervals s' !! j = Some (CleanupSnowflakes, 2000%Q)
      ∧ i ≠ j
      ∧ (timers_wf s →
         intervals s' = <[j := (CleanupSnowflakes, 2000%Q)]>
                          {[i := (CreateSnowflake, interval opts)]})
      ∧ (activeFlakes s' = []
         ∨ ∃ f, activeFlakes s' = [f] ∧ (f ∉ dom (elements s)))
      ∧ (∀ f, f ∈ activeFlakes s → f ∈ dom (elements s) →
              (f ∉ activeFlakes s') ∧ parent_of s' f = None).
Proof.
  intros R. split.
  - rewrite (bind_run _ _ _ _ _ (stopSnowflakes_run s)).
    rewrite !startSnowflakes_run. by rewrite started_running.
  - exists (started h s).
    destruct (stopped_fields s) as (_ & _ & E & _).
    destruct (started_shape h (stopped s) E)
      as (sheet & i & j & S & F & P & Ti & Li & Tj & Lj & N & A & Q).
    rewrite <- !(started_running h s R) in *. rewrite dom_stopped in *.
    exists sheet, i, j. split; [apply startSnowflakes_run|].
    do 2 (split; [done|]). split.
    { intros old O I. split; [by intros ->|].
      apply Q; [done|]. apply stopped_detached. by left. }
    do 5 (split; [done|]). split.
    { intros W. destruct (timers_wf_started h s W)
        as [(X & _)|(i' & j' & X & Y & _ & Z & _)]; [congruence|].
      assert (i' = i) as -> by congruence.
      assert (j' = j) as -> by congruence. done. }
    split.
    { destruct A as [A|(f & A & B & _)]; [by left|right; by exists f]. }
    intros f T I. split.
    + destruct A as [->|(g & -> & B & _)]; [apply not_elem_of_nil|].
      intros ->%list_elem_of_singleton. done.
    + apply Q; [done|]. apply stopped_detached. by right.
Qed.

(** ** Flakes detached behind the back of the instance *)

Lemma activeFlakes_started_new h s f :
  f ∈ activeFlakes (started h s) → f ∉ dom (elements s).
Proof.
  unfold started. cbv zeta. rewrite activeFlakes_scheduled.
  set (s1 := if truthy (flakeIntervalId s) then stopped s else s).
  set (s3 := positioned h _ _).
  assert (A : activeFlakes s3 = []).
  { unfold s3. by rewrite activeFlakes_positioned, activeFlakes_resolved,
      activeFlakes_styled. }
  assert (D : dom (elements s) ⊆ dom (elements s3)).
  { unfold s3. rewrite dom_positioned, elements_resolved.
    etrans; [|apply dom_styled]. rewrite dom_cleared. unfold s1.
    case_match; [by rewrite dom_stopped|done]. }
  rewrite activeFlakes_spawned, A.
  case_match; [by intros ?%elem_of_nil|].
  intros ->%list_elem_of_singleton I. apply D in I.
  by apply (is_fresh (dom (elements s3))).
Qed.

Lemma elem_of_set_delete f g l : f ∈ set_delete g l ↔ f ∈ l ∧ f ≠ g.
Proof. unfold set_delete. rewrite list_elem_of_filter. tauto. Qed.

Lemma elem_of_set_add f g l : f ∈ l → f ∈ set_add g l.
Proof.
  unfold set_add. case_match; [done|]. intros I. apply elem_of_app. by left.
Qed.

Lemma orphan_untracked g f s : orphan f s → orphan f (untracked g s).
Proof.
  intros (D & A & P). unfold orphan. rewrite dom_untracked.
  split; [done|]. split; [|by apply detached_untracked].
  unfold untracked. destruct (parent_of s g) eqn:G; simpl; [|done].
  apply elem_of_set_delete. split; [done|]. intros ->. congruence.
Qed.

Lemma orphan_untracked_all l f s : orphan f s → orphan f (untracked_all l s).
Proof.
  revert s. induction l as [|g l IH]; intros s O; simpl; [done|].
  by apply IH, orphan_untracked.
Qed.

Lemma orphan_resolved h f s : orphan f s → orphan f (resolved h s).
Proof.
  unfold orphan.
  by rewrite elements_resolved, activeFlakes_resolved, parent_of_resolved.
Qed.

Lemma orphan_spawned h f s : orphan f s → orphan f (spawned h s).
Proof.
  intros (D & A & P). split; [by apply dom_spawned|]. split.
  - rewrite activeFlakes_spawned. case_match; [done|]. by apply elem_of_set_add.
  - by rewrite parent_of_spawned.
Qed.

Lemma orphan_swept h f s : orphan f s → orphan f (swept h s).
Proof.
  intros O. unfold swept. case_match; [done|].
  by apply orphan_untracked_all, orphan_resolved.
Qed.

Lemma parent_of_queried s n : parent_of (queried s) n = parent_of s n.
Proof. unfold parent_of. by rewrite elements_queried. Qed.

Lemma orphan_queried f s : orphan f s → orphan f (queried s).
Proof.
  unfold orphan.
  by rewrite elements_queried, activeFlakes_queried, parent_of_queried.
Qed.

Lemma orphan_stepped e f s :
  lifecycle e = false → orphan f s → orphan f (stepped e s).
Proof.
  intros Q O. destruct e as [b| |i b|n|n]; try done; cbn [stepped].
  - destruct (intervals s !! i) as [[[] ?]|]; [| |done]; on_refusal;
      try (intros; by apply orphan_queried).
    + by apply orphan_spawned.
    + by apply orphan_swept.
  - case_match; [|done]. apply orphan_untracked.
    destruct O as (D & A & P). unfold orphan, parent_of. simpl.
    rewrite dom_alter_L. split; [done|]. split; [done|].
    by rewrite parent_alter.
  - destruct O as (D & A & P). unfold orphan.
    rewrite dom_detach. split; [done|]. split; [done|].
    by apply detached_detach.
Qed.

(** C10.  [removeSnowflake] on a flake without a parent changes nothing,
    neither the page nor the tracked set; it untracks a flake only when
    that flake is its argument and has a parent, and then it detaches it
    too.  So a tracked flake that the page detached on its own stays
    tracked and detached through every timer tick, [animationend] event
    and further detachment, until [removeAllSnowflakes], which leaves the
    tracked set empty, runs in a stop or a start. *)
Theorem removeSnowflake_needs_parent :
  (∀ f s, parent_of s f = None → removeSnowflake (Some f) s = Ok (tt, s))
  ∧ (∀ g s, ∃ s', removeSnowflake g s = Ok (tt, s')
       ∧ ∀ f, f ∈ activeFlakes s → f ∉ activeFlakes s' →
              g = Some f ∧ is_Some (parent_of s f))
  ∧ (∀ f s, is_Some (parent_of s f) →
       ∃ s', removeSnowflake (Some f) s = Ok (tt, s')
             ∧ (f ∉ activeFlakes s') ∧ parent_of s' f = None)
  ∧ (∀ f s evs, orphan f s → forallb (λ e, negb (lifecycle e)) evs = true →
       ∃ s', run evs s = Ok (tt, s') ∧ orphan f s')
  ∧ (∀ s, ∃ s', removeAllSnowflakes s = Ok (tt, s') ∧ activeFlakes s' = [])
  ∧ (∀ f s, orphan f s →
       (∃ s', stopSnowflakes s = Ok (tt, s') ∧ f ∉ activeFlakes s')
       ∧ ∀ h : host,
           ∃ s', startSnowflakes h s = Ok (tt, s') ∧ f ∉ activeFlakes s').
Proof.
  split; [|split; [|split; [|split; [|split]]]].
  - intros f s P. rewrite removeSnowflake_run. unfold untracked. by rewrite P.
  - intros [g|] s.
    + exists (untracked g s). split; [apply removeSnowflake_run|].
      intros f A N. unfold untracked in N.
      destruct (parent_of s g) as [p|] eqn:P; simpl in N; [|done].
      rewrite elem_of_set_delete in N.
      destruct (decide (f = g)) as [->|Ne]; [|tauto].
      split; [done|]. by rewrite P.
    + exists s. split; [done|]. by intros f A N.
  - intros f s [p P]. exists (untracked f s).
    split; [apply removeSnowflake_run|].
    split; [|apply untracked_detached].
    unfold untracked. rewrite P. simpl. rewrite elem_of_set_delete. tauto.
  - intros f s evs O Q. exists (ran evs s). split; [apply run_run|].
    revert s O. induction evs as [|e evs IH]; intros s O; [done|].
    simpl in *. apply andb_prop in Q as [Q1 Q2].
    apply IH; [done|]. apply orphan_stepped; [|done].
    by destruct (lifecycle e).
  - intros s. exists (cleared s). split; [apply removeAllSnowflakes_run|done].
  - intros f s (D & A & P). split.
    + exists (stopped s). split; [apply stopSnowflakes_run|].
      destruct (stopped_fields s) as (_ & _ & _ & -> & _).
      apply not_elem_of_nil.
    + intros h. exists (started h s). split; [apply startSnowflakes_run|].
      intros I. by apply activeFlakes_started_new in I.
Qed.

(** ** The position of the container *)

Lemma field_alter {A} (g : element → A) (dflt : A) (f : element → element)
    c (m : gmap node element) n :
  (∀ e, g (f e) = g e) →
  from_option g dflt (alter f c m !! n) = from_option g dflt (m !! n).
Proof.
  intros P. rewrite lookup_alter. case_decide as E; [|done].
  subst. destruct (m !! n); simpl; [apply P|done].
Qed.

Lemma inline_detach m s n :
  position_of (detach m s) n = position_of s n
  ∧ override_of (detach m s) n = override_of s n.
Proof.
  unfold position_of, override_of, detach. simpl. by rewrite !field_alter.
Qed.

Lemma inline_untracked f s n :
  position_of (untracked f s) n = position_of s n
  ∧ override_of (untracked f s) n = override_of s n.
Proof.
  unfold untracked. case_match; [|done]. apply (inline_detach f s n).
Qed.

Lemma inline_untracked_all l s n :
  position_of (untracked_all l s) n = position_of s n
  ∧ override_of (untracked_all l s) n = override_of s n.
Proof.
  revert s. induction l as [|f l IH]; intros s; simpl; [done|].
  destruct (IH (untracked f s)) as [-> ->]. apply inline_untracked.
Qed.

Lemma inline_cleared s n :
  position_of (cleared s) n = position_of s n
  ∧ override_of (cleared s) n = override_of s n.
Proof. apply (inline_untracked_all (activeFlakes s) s n). Qed.

Lemma inline_unstyled s n :
  position_of (unstyled s) n = position_of s n
  ∧ override_of (unstyled s) n = override_of s n.
Proof. unfold unstyled. case_match; [|done]. apply inline_detach. Qed.

Lemma inline_untimed s n :
  position_of (untimed s) n = position_of s n
  ∧ override_of (untimed s) n = override_of s n.
Proof. unfold position_of, override_of. by rewrite elements_untimed. Qed.

Lemma inline_resolved h s n :
  position_of (resolved h s) n = position_of s n
  ∧ override_of (resolved h s) n = override_of s n.
Proof. unfold position_of, override_of. by rewrite elements_resolved. Qed.

Lemma inline_scheduled s n :
  position_of (scheduled s) n = position_of s n
  ∧ override_of (scheduled s) n = override_of s n.
Proof. unfold position_of, override_of. by rewrite elements_scheduled. Qed.

Lemma inline_styled s n :
  n ∈ dom (elements s) →
  position_of (styled s) n = position_of s n
  ∧ override_of (styled s) n = override_of s n.
Proof.
  intros I. unfold styled, position_of, override_of. case_match; [done|].
  simpl. by rewrite !lookup_alter_ne, lookup_insert_ne by by apply fresh_ne.
Qed.

Lemma inline_spawned h s n :
  n ∈ dom (elements s) →
  position_of (spawned h s) n = position_of s n
  ∧ override_of (spawned h s) n = override_of s n.
Proof.
  intros I. unfold spawned, position_of, override_of.
  repeat case_match; simpl; rewrite ?elements_resolved; [done..|].
  by rewrite lookup_insert_ne by by apply fresh_ne.
Qed.

(** A stop that finds no recorded position leaves the inline position. *)
Lemma inline_restored_none s n :
  override_of s n = None →
  position_of (restored s) n = position_of s n
  ∧ override_of (restored s) n = None.
Proof.
  intros O. unfold restored. repeat case_match; try done.
  unfold position_of, override_of in *. simpl.
  destruct (decide (n0 = n)) as [->|Ne]; [congruence|].
  by rewrite !lookup_alter_ne.
Qed.

Lemma inline_restored_some s c v :
  containerElement s = Some c → c ≠ document_body →
  override_of s c = Some v →
  position_of (restored s) c = restored_value v
  ∧ override_of (restored s) c = None.
Proof.
  intros C B O. unfold restored, position_of, override_of in *.
  rewrite C, bool_decide_false, O by done. simpl.
  rewrite !lookup_alter_eq.
  destruct (elements s !! c); simpl in *; [|done].
  by rewrite lookup_delete_eq.
Qed.

Lemma inline_positioned h c s :
  c ≠ document_body → computedPosition h c = "static" →
  c ∈ dom (elements s) →
  position_of (positioned h c s) c = "relative"
  ∧ override_of (positioned h c s) c
    = Some (or_string (position_of s c) "static").
Proof.
  intros B S I. unfold positioned, position_of, override_of.
  rewrite bool_decide_false, bool_decide_true by done. simpl.
  rewrite !lookup_alter_eq.
  apply elem_of_dom in I as [e ->]. simpl.
  by rewrite lookup_insert_eq.
Qed.

Lemma inline_stopped_none s n :
  override_of s n = None →
  position_of (stopped s) n = position_of s n
  ∧ override_of (stopped s) n = None.
Proof.
  intros O. unfold stopped.
  destruct (inline_untimed s n) as [P1 O1].
  destruct (inline_cleared (untimed s) n) as [P2 O2].
  destruct (inline_unstyled (cleared (untimed s)) n) as [P3 O3].
  destruct (inline_restored_none (unstyled (cleared (untimed s))) n)
    as [P4 O4]; [congruence|].
  split; congruence.
Qed.

Lemma inline_stopped_some s c v :
  containerElement s = Some c → c ≠ document_body →
  override_of s c = Some v →
  position_of (stopped s) c = restored_value v
  ∧ override_of (stopped s) c = None.
Proof.
  intros C B O. unfold stopped.
  destruct (inline_untimed s c) as [P1 O1].
  destruct (inline_cleared (untimed s) c) as [P2 O2].
  destruct (inline_unstyled (cleared (untimed s)) c) as [P3 O3].
  apply inline_restored_some; [|done|congruence].
  by rewrite containerElement_unstyled, containerElement_cleared,
    containerElement_untimed.
Qed.

Lemma inline_started h s c :
  container_of h s = c → c ≠ document_body →
  computedPosition h c = "static" → c ∈ dom (elements s) →
  override_of s c = None →
  containerElement (started h s) = Some c
  ∧ position_of (started h s) c = "relative"
  ∧ override_of (started h s) c = Some (or_string (position_of s c) "static").
Proof.
  intros K B S I O.
  assert (C := containerElement_started h s).
  unfold started in *. cbv zeta in *.
  set (s1 := if truthy (flakeIntervalId s) then stopped s else s) in *.
  assert (F1 : position_of s1 c = position_of s c ∧ override_of s1 c = None
               ∧ dom (elements s1) = dom (elements s)
               ∧ containerElement s1 = containerElement s).
  { unfold s1. case_match; [|done].
    destruct (inline_stopped_none s c O) as [-> ->].
    by rewrite dom_stopped, containerElement_stopped. }
  destruct F1 as (P1 & O1 & D1 & C1).
  set (s2 := styled (cleared s1)) in *.
  assert (F2 : position_of s2 c = position_of s c ∧ override_of s2 c = None
               ∧ c ∈ dom (elements s2) ∧ container_of h s2 = c).
  { unfold s2.
    destruct (inline_styled (cleared s1) c) as [-> ->];
      [by rewrite dom_cleared, D1|].
    destruct (inline_cleared s1 c) as [-> ->].
    split; [done|]. split; [done|]. split.
    - apply dom_styled. by rewrite dom_cleared, D1.
    - unfold container_of.
      by rewrite containerElement_styled, containerElement_cleared, C1. }
  destruct F2 as (P2 & O2 & D2 & K2). rewrite K2 in *.
  set (s3 := positioned h c (resolved h s2)) in *.
  assert (F3 : position_of s3 c = "relative"
               ∧ override_of s3 c = Some (or_string (position_of s c) "static")
               ∧ c ∈ dom (elements s3)).
  { unfold s3.
    destruct (inline_positioned h c (resolved h s2)) as [-> ->];
      [done|done|by rewrite elements_resolved|].
    destruct (inline_resolved h s2 c) as [-> _]. rewrite P2.
    by rewrite dom_positioned, elements_resolved. }
  destruct F3 as (P3 & O3 & D3).
  destruct (inline_scheduled (spawned h s3) c) as [-> ->].
  destruct (inline_spawned h s3 c D3) as [-> ->].
  split; [|done]. rewrite C. unfold container_of in K. by rewrite K.
Qed.

(** Starting on a container whose computed position is [static], then
    stopping, puts back the inline position the container had, except
    that an inline [static] comes back as the empty string. *)
Lemma position_round_trip h s c :
  container_of h s = c → c ≠ document_body →
  computedPosition h c = "static" → c ∈ dom (elements s) →
  override_of s c = None →
  position_of (stopped (started h s)) c = restored_value (position_of s c)
  ∧ override_of (stopped (started h s)) c = None.
Proof.
  intros K B S I O.
  destruct (inline_started h s c K B S I O) as (C & P & V).
  destruct (inline_stopped_some _ c _ C B V) as [-> ->].
  split; [|done]. unfold restored_value, or_string.
  repeat case_bool_decide; congruence.
Qed.

(** ** Sampling *)

Lemma random_between (lo hi r : Q) :
  (lo <= hi → 0 <= r → r < 1 → lo <= random lo hi r ∧ random lo hi r <= hi)%Q.
Proof. unfold random. intros. split; nra. Qed.

Lemma randomInt_between (r : Q) :
  (0 <= r)%Q → (r < 1)%Q → (1 ≤ randomInt 1 99 r ≤ 99)%Z.
Proof.
  intros H0 H1. unfold randomInt, random. split.
  - apply (Qfloor_resp_le 1). lra.
  - assert (L := Qfloor_le (r * (99 + 1 - 1) + 1)).
    assert (B : (inject_Z (Qfloor (r * (99 + 1 - 1) + 1)) < inject_Z 100)%Q).
    { change (inject_Z 100) with 100%Q. lra. }
    rewrite <- Zlt_Qlt in B. lia.
Qed.

Lemma createSnowflake_created (b : agent) s f s' :
  createSnowflake b s = Ok (Some f, s') →
  at_capacity s = false ∧ too_small (answers b) = false
  ∧ f = fresh (dom (elements s))
  ∧ elements s'
    = <[f := flake_element (answers b) (container_of (answers b) s)]>
        (elements s)
  ∧ activeFlakes s' = set_add f (activeFlakes s).
Proof.
  rewrite createSnowflake_outcome. unfold spawned_by, spawn_result, spawned.
  destruct (at_capacity s); [done|]. simpl.
  destruct (refused b s); [done|].
  destruct (too_small (answers b)); [done|].
  by intros [= <- <-].
Qed.

Lemma chaosMultiplier_of (c : Q) :
  (0 <= c → c <= 100 → chaos opts == c → chaosMultiplier == c / 50)%Q.
Proof.
  intros L U E. unfold chaosMultiplier. rewrite E.
  rewrite Q.min_r by done. by rewrite Q.max_r.
Qed.

Lemma drift_magnitudes (m m2 : Q) :
  (0 <= m → maxDeviation == m → m2 == m * (1 # 2) →
   max_magnitude xDeviation m ∧ max_magnitude xDeviationEnd m2)%Q.
Proof.
  intros P E X. unfold max_magnitude, xDeviation, xDeviationEnd, random.
  split; (split; [intros r R0 R1|exists 0%Q; split; [done|split; [done|]]]);
    rewrite E, ?X.
  - apply Qabs_Qle_condition. split; nra.
  - rewrite Qabs_neg; lra.
  - apply Qabs_Qle_condition. split; nra.
  - rewrite Qabs_neg; lra.
Qed.

(** C5.  The chaos multiplier is the chaos level clamped to the interval
    from 0 to 100 and divided by 50.  At chaos 0 both horizontal drifts are
    0 for every draw, also on the flake that [createSnowflake] makes.  At
    chaos 100 the largest magnitude of the drift is 200 in the start phase
    and 100 in the end phase, twice the 100 and 50 of chaos 50. *)
Theorem chaos_scaling :
  (chaosMultiplier == clamp (chaos opts) 0 100 / 50)%Q
  ∧ ((chaos opts == 0)%Q →
       (∀ r, xDeviation r == 0 ∧ xDeviationEnd r == 0)%Q
       ∧ ∀ h s f s', createSnowflake h s = Ok (Some f, s') →
           ∃ e css, elements s' !! f = Some e ∧ flake_style e = Some css
                    ∧ (css_snow_x css == 0)%Q ∧ (css_snow_x_end css == 0)%Q)
  ∧ ((chaos opts == 100)%Q →
       max_magnitude xDeviation 200 ∧ max_magnitude xDeviationEnd 100)
  ∧ ((chaos opts == 50)%Q →
       max_magnitude xDeviation 100 ∧ max_magnitude xDeviationEnd 50).
Proof.
  split; [|split; [|split]].
  - unfold chaosMultiplier, clamp.
    destruct (Qlt_le_dec (chaos opts) 0); [|destruct (Qlt_le_dec 100 (chaos opts))].
    + rewrite Q.max_l; [done|]. rewrite Q.min_r; lra.
    + rewrite Q.min_l by lra. by rewrite Q.max_r.
    + rewrite Q.min_r by done. by rewrite Q.max_r.
  - intros E.
    assert (Z0 : (maxDeviation == 0)%Q).
    { unfold maxDeviation. rewrite (chaosMultiplier_of 0); [done|done|done|done]. }
    assert (D : (∀ r, xDeviation r == 0 ∧ xDeviationEnd r == 0)%Q).
    { intros r. unfold xDeviation, xDeviationEnd, random. rewrite Z0.
      split; ring. }
    split; [done|]. intros h s f s' C.
    apply createSnowflake_created in C as (_ & _ & _ & -> & _).
    eexists _, _. rewrite lookup_insert_eq. split; [done|]. split; [done|].
    simpl. split; apply D.
  - intros E.
    assert (Z0 : (maxDeviation == 200)%Q).
    { unfold maxDeviation.
      rewrite (chaosMultiplier_of 100); [reflexivity| | |done]; lra. }
    by apply drift_magnitudes.
  - intros E.
    assert (Z0 : (maxDeviation == 100)%Q).
    { unfold maxDeviation.
      rewrite (chaosMultiplier_of 50); [reflexivity| | |done]; lra. }
    by apply drift_magnitudes.
Qed.

Lemma drawn_exact (lo hi r x : Q) :
  (x == r * (hi - lo) + lo)%Q → drawn lo hi r x.
Proof.
  intros E. unfold drawn.
  assert (Z0 : (x - (r * (hi - lo) + lo) == 0)%Q) by (rewrite E; ring).
  rewrite Z0. change (Qabs 0) with 0%Q.
  assert (A := Qabs_nonneg lo). assert (B := Qabs_nonneg hi).
  apply Qle_shift_div_l; [done|]. lra.
Qed.

(** C6.  With [minSpeed <= maxSpeed] and [minSize <= maxSize], the flake of
    a successful [createSnowflake] is sampled from three draws of
    [Math.random], one for each value.  Its fall duration is what the
    first draw marks between [minSpeed] and [maxSpeed]; its horizontal
    position is the floor of what the second draw marks between 1 and 100,
    an integer from 1 to 99; its width and height are [Math.round] of what
    the third draw marks between [minSize] and [maxSize].  A draw [r]
    marks the point at the fraction [r] of the interval, so that draws
    spread evenly over [0, 1) give values spread evenly over the interval.
    When the rounded size is at most 0 the call returns [null] and creates
    no element, and otherwise, below the maximum, it does return a
    flake. *)
Theorem createSnowflake_samples (h : host) :
  (minSpeed opts <= maxSpeed opts)%Q → (minSize opts <= maxSize opts)%Q →
  random_ok h →
  (∀ s f s', createSnowflake h s = Ok (Some f, s') →
     ∃ e css u p,
       elements s' !! f = Some e ∧ flake_style e = Some css
       ∧ drawn (minSpeed opts) (maxSpeed opts) (Math_random h 0)
               (css_duration css)
       ∧ (minSpeed opts <= css_duration css)%Q
       ∧ (css_duration css <= maxSpeed opts)%Q
       ∧ drawn 1 100 (Math_random h 1) p ∧ css_left css = Qfloor p
       ∧ (1 ≤ css_left css ≤ 99)%Z
       ∧ drawn (minSize opts) (maxSize opts) (Math_random h 2) u
       ∧ (minSize opts <= u)%Q ∧ (u <= maxSize opts)%Q
       ∧ css_width css = Math_round u ∧ css_height css = Math_round u
       ∧ (0 < css_width css)%Z)
  ∧ (∀ s, (Math_round (random (minSize opts) (maxSize opts) (Math_random h 2))
           ≤ 0)%Z →
       ∃ s', createSnowflake h s = Ok (None, s') ∧ elements s' = elements s)
  ∧ (∀ s, at_capacity s = false →
       (0 < Math_round (random (minSize opts) (maxSize opts) (Math_random h 2)))%Z →
       ∃ f s', createSnowflake h s = Ok (Some f, s')).
Proof.
  intros Speed Size R. split; [|split].
  - intros s f s' C.
    apply createSnowflake_created in C as (_ & Small & _ & -> & _).
    exists (flake_element h (container_of h s)), (flake_css_of h),
           (random (minSize opts) (maxSize opts) (Math_random h 2)),
           (random 1 (99 + 1) (Math_random h 1)).
    rewrite lookup_insert_eq. simpl.
    destruct (R 0%nat) as [? ?], (R 1%nat) as [? ?], (R 2%nat) as [? ?].
    destruct (random_between (minSpeed opts) (maxSpeed opts) (Math_random h 0))
      as [? ?]; [done..|].
    destruct (random_between (minSize opts) (maxSize opts) (Math_random h 2))
      as [? ?]; [done..|].
    unfold too_small in Small. apply Z.leb_gt in Small.
    split; [done|]. split; [done|].
    split; [by apply drawn_exact|]. split; [done|]. split; [done|].
    split; [apply drawn_exact; unfold random; ring|]. split; [done|].
    split; [by apply randomInt_between|].
    split; [by apply drawn_exact|]. done.
  - intros s Le. rewrite createSnowflake_run.
    unfold spawn_result, spawned, too_small, flakeSize.
    apply Z.leb_le in Le. rewrite Le.
    destruct (at_capacity s); (eexists; split; [done|]); [done|].
    apply elements_resolved.
  - intros s Cap Lt. rewrite createSnowflake_run.
    unfold spawn_result, spawned, too_small, flakeSize. rewrite Cap.
    apply Z.leb_gt in Lt. rewrite Lt. by eexists _, _.
Qed.

(** ** Further properties: numbers *)

Lemma Math_round_positive (u : Q) : (1 # 2 <= u)%Q → (0 < Math_round u)%Z.
Proof.
  intros U. unfold Math_round.
  assert (X : (Qfloor 1 ≤ Qfloor (u + (1 # 2)))%Z)
    by (apply Qfloor_resp_le; lra).
  change (Qfloor 1) with 1%Z in X. lia.
Qed.

Lemma Math_round_not_positive (u : Q) : (u < 1 # 2)%Q → (Math_round u ≤ 0)%Z.
Proof.
  intros U. unfold Math_round.
  assert (F := Qfloor_le (u + (1 # 2))).
  assert (B : (inject_Z (Qfloor (u + (1 # 2))) < inject_Z 1)%Q).
  { change (inject_Z 1) with 1%Q. lra. }
  rewrite <- Zlt_Qlt in B. lia.
Qed.

(** X2.  The size guard of [createSnowflake] depends on the configured
    sizes alone.  With [1/2 <= minSize <= maxSize] it never fires: below
    the maximum every call creates a flake.  With [minSize <= maxSize < 1/2]
    it always fires: every call returns [null] and creates no element. *)
Theorem size_guard_by_configuration (h : host) :
  random_ok h → (minSize opts <= maxSize opts)%Q →
  ((1 # 2 <= minSize opts)%Q →
     ∀ s, at_capacity s = false →
          ∃ f s', createSnowflake h s = Ok (Some f, s')
                  ∧ (f ∉ dom (elements s)) ∧ f ∈ activeFlakes s')
  ∧ ((maxSize opts < 1 # 2)%Q →
     ∀ s, ∃ s', createSnowflake h s = Ok (None, s')
                ∧ elements s' = elements s
                ∧ activeFlakes s' = activeFlakes s).
Proof.
  intros R Size.
  destruct (R 2%nat) as [R0 R1].
  destruct (random_between (minSize opts) (maxSize opts) (Math_random h 2))
    as [L U]; [done..|].
  split.
  - intros Min s Cap. rewrite createSnowflake_run.
    unfold spawn_result, spawned, too_small, flakeSize. rewrite Cap.
    assert (P := Math_round_positive
                   (random (minSize opts) (maxSize opts) (Math_random h 2))).
    apply Z.leb_gt in P; [|lra]. rewrite P.
    eexists _, _. split; [done|]. split; [apply is_fresh|].
    simpl. unfold set_add. case_bool_decide; [done|].
    apply elem_of_app. right. apply list_elem_of_here.
  - intros Max s. rewrite createSnowflake_run.
    unfold spawn_result, spawned, too_small, flakeSize.
    assert (P := Math_round_not_positive
                   (random (minSize opts) (maxSize opts) (Math_random h 2))).
    apply Z.leb_le in P; [|lra]. rewrite P.
    destruct (at_capacity s); (eexists; split; [done|]); [done|].
    by rewrite elements_resolved, activeFlakes_resolved.
Qed.

(** X3.  With [minSpeed = maxSpeed] every flake falls for exactly that
    duration, and with [minSize = maxSize] a whole number every flake has
    exactly that width and height, whatever is drawn. *)
Theorem createSnowflake_fixed (h : host) s f s' :
  createSnowflake h s = Ok (Some f, s') →
  ∃ e css, elements s' !! f = Some e ∧ flake_style e = Some css
    ∧ ((minSpeed opts == maxSpeed opts)%Q →
       (css_duration css == minSpeed opts)%Q)
    ∧ (∀ k : Z, (minSize opts == inject_Z k)%Q →
                (maxSize opts == inject_Z k)%Q →
                css_width css = k ∧ css_height css = k).
Proof.
  intros C. apply createSnowflake_created in C as (_ & _ & _ & -> & _).
  eexists _, _. rewrite lookup_insert_eq. split; [done|]. split; [done|].
  simpl. split.
  - intros E. unfold fallingTime, random. rewrite E. ring.
  - intros k E1 E2.
    assert (X : flakeSize (Math_random h 2) = k).
    { unfold flakeSize, Math_round, random. rewrite E1, E2.
      assert (Y : (Math_random h 2 * (inject_Z k - inject_Z k) + inject_Z k
                   + (1 # 2) == inject_Z k + (1 # 2))%Q) by ring.
      rewrite Y.
      assert (F := Qfloor_le (inject_Z k + (1 # 2))).
      assert (G := Qlt_floor (inject_Z k + (1 # 2))).
      assert (A : (inject_Z (Qfloor (inject_Z k + (1 # 2))) < inject_Z (k + 1))%Q).
      { rewrite inject_Z_plus. change (inject_Z 1) with 1%Q. lra. }
      assert (B : (inject_Z (k - 1)
                   < inject_Z (Qfloor (inject_Z k + (1 # 2))))%Q).
      { rewrite inject_Z_plus in G. change (inject_Z 1) with 1%Q in G.
        unfold Z.sub. rewrite inject_Z_plus.
        change (inject_Z (- (1))) with (- (1))%Q. lra. }
      rewrite <- Zlt_Qlt in A, B. lia. }
    by rewrite X.
Qed.

(** ** Further properties: the sweep *)

Lemma parent_of_untracked g s f :
  parent_of (untracked g s) f = if decide (f = g) then None else parent_of s f.
Proof.
  unfold untracked. destruct (parent_of s g) eqn:P; simpl.
  - change (parent_of (detach g s) f
            = if decide (f = g) then None else parent_of s f).
    rewrite (parent_of_detach g s f). repeat case_decide; congruence.
  - case_decide; congruence.
Qed.

Lemma elem_of_untracked g s f :
  f ∈ activeFlakes (untracked g s)
  ↔ f ∈ activeFlakes s ∧ ¬ (f = g ∧ is_Some (parent_of s g)).
Proof.
  unfold untracked. destruct (parent_of s g) eqn:P; simpl.
  - rewrite elem_of_set_delete. split.
    + intros [A B]. split; [done|]. by intros [? _].
    + intros [A B]. split; [done|]. intros ->. apply B. by split.
  - split; [|by intros [? _]]. intros A. split; [done|].
    intros [_ [? ?]]. done.
Qed.

Lemma parent_of_untracked_all l s f :
  parent_of (untracked_all l s) f
  = if decide (f ∈ l) then None else parent_of s f.
Proof.
  revert s. induction l as [|g l IH]; intros s; simpl.
  - first [done|rewrite decide_False; [done|apply not_elem_of_nil]].
  - rewrite IH, parent_of_untracked.
    destruct (decide (f = g)) as [->|N].
    + rewrite (decide_True (P := g ∈ g :: l)) by apply list_elem_of_here.
      by case_decide.
    + destruct (decide (f ∈ l)) as [I|I].
      * by rewrite decide_True by by apply list_elem_of_further.
      * rewrite decide_False; [done|].
        by intros [?|?]%elem_of_cons.
Qed.

Lemma elem_of_untracked_all l s f :
  f ∈ activeFlakes (untracked_all l s)
  ↔ f ∈ activeFlakes s ∧ ¬ (f ∈ l ∧ is_Some (parent_of s f)).
Proof.
  revert s. induction l as [|g l IH]; intros s; simpl.
  - split; [|by intros [? _]]. intros A. split; [done|].
    intros [I _]. by apply elem_of_nil in I.
  - rewrite IH, elem_of_untracked, parent_of_untracked.
    destruct (decide (f = g)) as [->|Ne].
    + split.
      * intros [[A B] _]. split; [done|]. intros [_ S]. apply B. by split.
      * intros [A B]. split; [split; [done|]|].
        -- intros [_ S]. apply B. split; [apply list_elem_of_here|done].
        -- intros [_ [? ?]]. done.
    + split.
      * intros [[A _] B]. split; [done|]. intros [I S]. apply B.
        apply elem_of_cons in I as [?|I]; [done|]. by split.
      * intros [A B]. split; [split; [done|by intros [? _]]|].
        intros [I S]. apply B. split; [by apply list_elem_of_further|done].
Qed.

(** X4.  [cleanupSnowflakes] does nothing, not even resolve the
    container, when no flake is tracked.  Otherwise it untracks and
    detaches exactly the tracked flakes that have a parent and whose top
    lies more than 50 below the height of the container (the height of
    the window for [document.body]); every other flake keeps its parent
    and stays tracked, and timers and style element are left alone. *)
Theorem cleanupSnowflakes_sweeps (h : host) (s : state) :
  ∃ s', cleanupSnowflakes h s = Ok (tt, s')
    ∧ (activeFlakes s = [] → s' = s)
    ∧ (∀ f, f ∈ activeFlakes s'
            ↔ f ∈ activeFlakes s
              ∧ ¬ (stale h s f = true ∧ is_Some (parent_of s f)))
    ∧ (∀ f, f ∈ activeFlakes s → stale h s f = true → parent_of s' f = None)
    ∧ (∀ f, ¬ (f ∈ activeFlakes s ∧ stale h s f = true) →
            parent_of s' f = parent_of s f)
    ∧ intervals s' = intervals s ∧ styleElement s' = styleElement s
    ∧ flakeIntervalId s' = flakeIntervalId s
    ∧ cleanupIntervalId s' = cleanupIntervalId s.
Proof.
  exists (swept h s). split; [apply cleanupSnowflakes_run|].
  rewrite intervals_swept, styleElement_swept, flakeIntervalId_swept,
    cleanupIntervalId_swept.
  assert (F : ∀ f, f ∈ List.filter (stale h s) (activeFlakes s)
                   ↔ f ∈ activeFlakes s ∧ stale h s f = true).
  { intros f. rewrite !list_elem_of_In. apply filter_In. }
  unfold swept. destruct (activeFlakes s) as [|g l] eqn:E.
  - split; [done|]. split.
    { intros f. rewrite E. split; [by intros ?%elem_of_nil|by intros [? _]]. }
    split; [by intros f ?%elem_of_nil|]. by repeat split.
  - assert (NE : activeFlakes s ≠ []) by by rewrite E.
    rewrite <- E in *. clear E g l. cbv zeta.
    change (List.filter _ (activeFlakes s))
      with (List.filter (stale h s) (activeFlakes s)).
    split; [done|]. split.
    { intros f. rewrite elem_of_untracked_all, activeFlakes_resolved,
        parent_of_resolved, F. tauto. }
    split.
    { intros f A S. rewrite parent_of_untracked_all, decide_True; [done|].
      by apply F. }
    split; [|done].
    intros f N. rewrite parent_of_untracked_all, decide_False.
    + apply parent_of_resolved.
    + by rewrite F.
Qed.

(** ** Further properties: timers and styles *)

(** X5.  In every state an instance reaches, either both timer handles are
    [null] and no interval is registered, or both are set and the
    registered intervals are exactly two, the spawn timer at the configured
    interval and the sweep timer at 2000 ms; after [stopSnowflakes] none is
    registered. *)
Theorem timers_come_in_pairs (d : gmap node element) (evs : list event) :
  ∃ s, run evs (init d) = Ok (tt, s)
       ∧ timers_wf s
       ∧ ∃ s', stopSnowflakes s = Ok (tt, s') ∧ intervals s' = ∅.
Proof.
  exists (ran evs (init d)). split; [apply run_run|].
  assert (W := timers_wf_ran d evs). split; [done|].
  exists (stopped (ran evs (init d))). split; [apply stopSnowflakes_run|].
  unfold stopped. autorewrite with frame. by apply timers_wf_untimed.
Qed.

Lemma lookup_styled s n :
  n ≠ fresh (dom (elements s)) → elements (styled s) !! n = elements s !! n.
Proof.
  intros N. unfold styled. case_match; [done|]. simpl.
  by rewrite !lookup_alter_ne, lookup_insert_ne.
Qed.

(** X6.  [addStyles] injects one style element and is idempotent.  With no
    style element yet it creates a new [style] node, marks it
    [data-vue-snowfall="true"], appends it to the head and leaves every
    other node as it was; with one already there it does nothing, so a
    second call changes nothing. *)
Theorem addStyles_once (s : state) :
  ∃ s', addStyles s = Ok (tt, s')
    ∧ addStyles s' = Ok (tt, s')
    ∧ (is_Some (styleElement s) → s' = s)
    ∧ (styleElement s = None →
       ∃ sheet e,
         styleElement s' = Some sheet ∧ (sheet ∉ dom (elements s))
         ∧ elements s' !! sheet = Some e
         ∧ tagName e = "style" ∧ parentNode e = Some document_head
         ∧ attributes e !! "data-vue-snowfall" = Some "true"
         ∧ ∀ n, n ≠ sheet → elements s' !! n = elements s !! n).
Proof.
  exists (styled s). split; [apply addStyles_run|].
  assert (I : is_Some (styleElement (styled s))).
  { unfold styled. destruct (styleElement s) eqn:E; [by rewrite E|done]. }
  split; [|split].
  - rewrite addStyles_run. f_equal. f_equal.
    unfold styled at 1. destruct I as [x ->]. done.
  - intros [x E]. unfold styled. by rewrite E.
  - intros E. exists (fresh (dom (elements s))).
    eexists. split; [unfold styled; by rewrite E|].
    split; [apply is_fresh|]. split.
    { unfold styled. rewrite E. simpl.
      by rewrite !lookup_alter_eq, lookup_insert_eq. }
    simpl. split; [done|]. split; [done|].
    split; [by rewrite lookup_insert_eq|].
    intros n N. by apply lookup_styled.
Qed.

(** X7.  [removeStyles] undoes [addStyles]: from a state without style
    element, the two in a row leave the handle [null], the node that was
    created detached, every node of the page as it was, and the rest of
    the state untouched. *)
Theorem styles_round_trip (s : state) :
  styleElement s = None →
  ∃ s', bind addStyles (λ _, removeStyles) s = Ok (tt, s')
    ∧ styleElement s' = None
    ∧ (∀ n, n ∈ dom (elements s) → elements s' !! n = elements s !! n)
    ∧ (∀ n, n ∉ dom (elements s) → parent_of s' n = None)
    ∧ activeFlakes s' = activeFlakes s ∧ intervals s' = intervals s
    ∧ flakeIntervalId s' = flakeIntervalId s
    ∧ cleanupIntervalId s' = cleanupIntervalId s
    ∧ containerElement s' = containerElement s ∧ trace s' = trace s.
Proof.
  intros E. exists (unstyled (styled s)).
  split; [by rewrite (bind_run _ _ _ _ _ (addStyles_run s)), removeStyles_run|].
  split; [apply styleElement_unstyled|].
  assert (S : styleElement (styled s) = Some (fresh (dom (elements s)))).
  { unfold styled. by rewrite E. }
  split; [|split].
  - intros n I. unfold unstyled. rewrite S. simpl.
    rewrite lookup_alter_ne by by apply fresh_ne.
    apply lookup_styled. intros ->. by apply (is_fresh (dom (elements s))).
  - intros n I. destruct (decide (n = fresh (dom (elements s)))) as [->|N].
    + by apply unstyled_detached.
    + apply detached_unstyled. unfold parent_of.
      rewrite lookup_styled by done.
      apply not_elem_of_dom in I. by rewrite I.
  - by autorewrite with frame.
Qed.

(** ** Further properties: the end of an animation *)

Lemma elem_of_set_add_iff f g l : f ∈ set_add g l ↔ f ∈ l ∨ f = g.
Proof.
  unfold set_add. case_bool_decide as I.
  - split; [by left|]. by intros [?| ->].
  - rewrite elem_of_app, list_elem_of_singleton. tauto.
Qed.

(** X8.  The [animationend] listener of a flake removes it once.  When the
    event reaches a flake that [createSnowflake] made, the flake is
    detached and untracked while every other flake stays as it was before
    the flake was made; the listener is gone, so a second event changes
    nothing, and neither does a further [removeSnowflake] of that flake. *)
Theorem animationend_removes_once (h : host) s f s1 :
  createSnowflake h s = Ok (Some f, s1) →
  ∃ s2, step (AnimationEnd f) s1 = Ok (tt, s2)
    ∧ (f ∉ activeFlakes s2) ∧ parent_of s2 f = None
    ∧ (∀ g, g ≠ f → (g ∈ activeFlakes s2 ↔ g ∈ activeFlakes s)
                    ∧ elements s2 !! g = elements s !! g)
    ∧ step (AnimationEnd f) s2 = Ok (tt, s2)
    ∧ removeSnowflake (Some f) s2 = Ok (tt, s2).
Proof.
  intros C. apply createSnowflake_created in C as (_ & _ & F & E & A).
  assert (L : elements s1 !! f = Some (flake_element h (container_of h s))).
  { rewrite E. apply lookup_insert_eq. }
  set (s1' := set_elements (alter (with_listener false) f (elements s1)) s1).
  assert (P : parent_of s1' f = Some (container_of h s)).
  { unfold parent_of, s1'. simpl. by rewrite lookup_alter_eq, L. }
  assert (S : stepped (AnimationEnd f) s1 = untracked f s1').
  { cbn [stepped]. by rewrite L. }
  exists (untracked f s1'). rewrite step_run, S by done.
  assert (U : untracked f s1'
              = set_activeFlakes (set_delete f (activeFlakes s1'))
                                 (detach f s1')).
  { unfold untracked. by rewrite P. }
  assert (N : parent_of (untracked f s1') f = None) by apply untracked_detached.
  assert (Off : from_option animationend_once false
                  (elements (untracked f s1') !! f) = false).
  { rewrite U. unfold s1', detach. simpl.
    by rewrite !lookup_alter_eq, L. }
  split; [done|]. split; [|split; [done|split; [|split]]].
  - rewrite U. simpl. rewrite elem_of_set_delete. tauto.
  - intros g G. split.
    + rewrite U. simpl. rewrite elem_of_set_delete, A, elem_of_set_add_iff.
      tauto.
    + rewrite U. unfold s1', detach. simpl.
      by rewrite !lookup_alter_ne, E, lookup_insert_ne.
  - rewrite step_run by done. cbn [stepped]. by rewrite Off.
  - rewrite removeSnowflake_run. unfold untracked at 1. by rewrite N.
Qed.

(** ** Further properties: what the instance tracks *)

Lemma NoDup_set_add x l : NoDup l → NoDup (set_add x l).
Proof.
  intros N. unfold set_add. case_bool_decide as I; [done|].
  apply NoDup_app. split; [done|]. split; [|apply NoDup_singleton].
  intros y Y ->%list_elem_of_singleton. done.
Qed.

Lemma NoDup_untracked g s :
  NoDup (activeFlakes s) → NoDup (activeFlakes (untracked g s)).
Proof.
  intros N. unfold untracked. case_match; [|done]. simpl.
  by apply NoDup_filter.
Qed.

Lemma NoDup_untracked_all l s :
  NoDup (activeFlakes s) → NoDup (activeFlakes (untracked_all l s)).
Proof.
  revert s. induction l as [|g l IH]; intros s N; simpl; [done|].
  by apply IH, NoDup_untracked.
Qed.

(** A step that creates nothing keeps the bookkeeping. *)
Lemma well_tracked_shrink d s s' :
  well_tracked d s →
  dom (elements s) ⊆ dom (elements s') →
  NoDup (activeFlakes s') →
  (∀ f, f ∈ activeFlakes s' → f ∈ activeFlakes s) →
  (∀ n, styleElement s' = Some n → styleElement s = Some n) →
  well_tracked d s'.
Proof.
  intros (D & N & A & S) D' N' A' S'. split; [by etrans|]. split; [done|].
  split.
  - intros f F. destruct (A f (A' f F)) as [I J]. split; [by apply D'|done].
  - intros n E. destruct (S n (S' n E)) as (I & J & K).
    split; [by apply D'|]. split; [done|]. intros F. by apply K, A'.
Qed.

Lemma well_tracked_untracked_all d l s :
  well_tracked d s → well_tracked d (untracked_all l s).
Proof.
  intros W. apply (well_tracked_shrink d s); [done|..].
  - by rewrite dom_untracked_all.
  - apply NoDup_untracked_all, W.
  - intros f F. by apply elem_of_untracked_all in F as [? _].
  - by rewrite styleElement_untracked_all.
Qed.

Lemma well_tracked_stopped d s : well_tracked d s → well_tracked d (stopped s).
Proof.
  intros W. destruct (stopped_fields s) as (_ & _ & S & A & _).
  apply (well_tracked_shrink d s); [done|..].
  - by rewrite dom_stopped.
  - rewrite A. apply NoDup_nil_2.
  - rewrite A. by intros f ?%elem_of_nil.
  - by rewrite S.
Qed.

Lemma well_tracked_styled d s : well_tracked d s → well_tracked d (styled s).
Proof.
  intros W. unfold styled.
  destruct (styleElement s) as [n|] eqn:E; [done|].
  destruct W as (D & N & A & S).
  assert (F := is_fresh (dom (elements s))).
  split; [|split; [done|split]]; simpl; rewrite !dom_alter_L, dom_insert_L.
  - etrans; [done|]. apply union_subseteq_r.
  - intros f I. destruct (A f I) as [J K].
    split; [|done]. apply elem_of_union. by right.
  - intros n [= <-].
    split; [apply elem_of_union; left; by apply elem_of_singleton|].
    split; [intros I; by apply F, D|].
    intros I. by destruct (A _ I).
Qed.

Lemma well_tracked_spawned d h s :
  well_tracked d s → well_tracked d (spawned h s).
Proof.
  intros W. assert (W' := W). destruct W' as (D & N & A & S).
  unfold spawned. destruct (at_capacity s); [done|].
  assert (R : well_tracked d (resolved h s)).
  { apply (well_tracked_shrink d s); [done|..];
      by autorewrite with frame. }
  destruct (too_small h); [done|].
  assert (F := is_fresh (dom (elements s))).
  split; [|split; [|split]]; simpl; autorewrite with frame;
    rewrite ?dom_insert_L.
  - etrans; [done|]. apply union_subseteq_r.
  - by apply NoDup_set_add.
  - intros f [I| ->]%elem_of_set_add_iff.
    + destruct (A f I) as [J K]. split; [|done].
      apply elem_of_union. by right.
    + split; [apply elem_of_union; left; by apply elem_of_singleton|].
      intros I. by apply F, D.
  - intros n E. destruct (S n E) as (I & J & K).
    split; [apply elem_of_union; by right|]. split; [done|].
    intros [?| ->]%elem_of_set_add_iff; done.
Qed.

Lemma well_tracked_started d h s :
  well_tracked d s → well_tracked d (started h s).
Proof.
  intros W. unfold started. cbv zeta.
  set (s1 := if truthy (flakeIntervalId s) then stopped s else s).
  assert (W1 : well_tracked d s1).
  { unfold s1. case_match; [by apply well_tracked_stopped|done]. }
  assert (W2 : well_tracked d (cleared s1)).
  { apply (well_tracked_shrink d s1); [done|..].
    - by rewrite dom_cleared.
    - apply NoDup_nil_2.
    - by intros f ?%elem_of_nil.
    - by rewrite styleElement_cleared. }
  apply well_tracked_styled in W2.
  set (s2 := styled (cleared s1)) in *.
  assert (W3 : well_tracked d (positioned h (container_of h s2) (resolved h s2))).
  { apply (well_tracked_shrink d s2); [done|..].
    - by rewrite dom_positioned, elements_resolved.
    - autorewrite with frame. apply W2.
    - by autorewrite with frame.
    - by autorewrite with frame. }
  apply (well_tracked_spawned d h) in W3.
  apply (well_tracked_shrink d _ _ W3); autorewrite with frame; try done.
  apply W3.
Qed.

Lemma well_tracked_queried d s : well_tracked d s → well_tracked d (queried s).
Proof.
  intros W. apply (well_tracked_shrink d s); [done|..];
    autorewrite with frame; try done. apply W.
Qed.

Lemma well_tracked_tidied d s : well_tracked d s → well_tracked d (tidied s).
Proof.
  intros W. unfold tidied.
  set (s1 := if truthy (flakeIntervalId s) then stopped s else s).
  assert (W1 : well_tracked d s1).
  { unfold s1. case_match; [by apply well_tracked_stopped|done]. }
  apply well_tracked_styled.
  apply (well_tracked_shrink d s1); [done|..].
  - by rewrite dom_cleared.
  - apply NoDup_nil_2.
  - by intros f ?%elem_of_nil.
  - by rewrite styleElement_cleared.
Qed.

Lemma well_tracked_swept d h s : well_tracked d s → well_tracked d (swept h s).
Proof.
  intros W. unfold swept. case_match; [done|].
  apply well_tracked_untracked_all.
  apply (well_tracked_shrink d s); [done|..]; autorewrite with frame;
    try done. apply W.
Qed.

Lemma well_tracked_stepped d e s :
  well_tracked d s → well_tracked d (stepped e s).
Proof.
  intros W. destruct e as [b| |i b|n|n]; cbn [stepped].
  - on_refusal; [intros _; by apply well_tracked_queried, well_tracked_tidied|].
    by apply well_tracked_started.
  - by apply well_tracked_stopped.
  - destruct (intervals s !! i) as [[[] ?]|]; [| |done]; on_refusal;
      try (intros; by apply well_tracked_queried).
    + by apply well_tracked_spawned.
    + by apply well_tracked_swept.
  - case_match; [|done].
    apply (well_tracked_untracked_all d [n]).
    apply (well_tracked_shrink d s); [done|..]; simpl; try done.
    + by rewrite dom_alter_L.
    + apply W.
  - apply (well_tracked_shrink d s); [done|..]; simpl; try done.
    + by rewrite dom_alter_L.
    + apply W.
Qed.

Lemma well_tracked_ran d evs : well_tracked d (ran evs (init d)).
Proof.
  apply ran_invariant; [apply well_tracked_stepped|].
  split; [done|]. split; [apply NoDup_nil_2|]. split; [|done].
  by intros f ?%elem_of_nil.
Qed.

(** X9.  In every state an instance reaches, the tracked flakes are
    distinct elements that the instance created (the page did not hold
    them before), and so is its style element, which is never among the
    tracked flakes. *)
Theorem tracked_are_created (d : gmap node element) (evs : list event) :
  ∃ s, run evs (init d) = Ok (tt, s)
    ∧ NoDup (activeFlakes s)
    ∧ (∀ f, f ∈ activeFlakes s → f ∈ dom (elements s) ∧ f ∉ dom d)
    ∧ (∀ n, styleElement s = Some n →
            n ∈ dom (elements s) ∧ (n ∉ dom d) ∧ n ∉ activeFlakes s)
    ∧ dom d ⊆ dom (elements s).
Proof.
  exists (ran evs (init d)). split; [apply run_run|].
  destruct (well_tracked_ran d evs) as (D & N & A & S). done.
Qed.

(** X10.  A tick of the spawn timer that passes both guards adds exactly
    one flake: a new element, appended to the tracked set and to the
    resolved container. *)
Theorem tick_adds_one (d : gmap node element) evs s i delay (h : host) :
  run evs (init d) = Ok (tt, s) →
  intervals s !! i = Some (CreateSnowflake, delay) →
  at_capacity s = false →
  (0 < Math_round (random (minSize opts) (maxSize opts) (Math_random h 2)))%Z →
  ∃ s' f c,
    step (Fire i h) s = Ok (tt, s')
    ∧ activeFlakes s' = activeFlakes s ++ [f]
    ∧ length (activeFlakes s') = S (length (activeFlakes s))
    ∧ (f ∉ dom (elements s))
    ∧ containerElement s = Some c ∧ containerElement s' = Some c
    ∧ parent_of s' f = Some c.
Proof.
  intros Run I Cap Size. rewrite run_run in Run. injection Run as <-.
  set (s := ran evs (init d)) in *.
  assert (W : well_tracked d s) by apply well_tracked_ran.
  assert (T : timers_wf s) by apply timers_wf_ran.
  assert (C : is_Some (containerElement s)).
  { destruct T as [(_ & _ & E)|(_ & _ & _ & _ & _ & _ & C)]; [|done].
    rewrite E in I. by rewrite lookup_empty in I. }
  destruct C as [c C].
  assert (Small : too_small h = false) by by apply Z.leb_gt.
  exists (spawned h s), (fresh (dom (elements s))), c.
  rewrite step_run by apply accepts_host.
  rewrite stepped_fire, I. split; [done|].
  assert (F := is_fresh (dom (elements s))).
  assert (A : activeFlakes (spawned h s)
              = activeFlakes s ++ [fresh (dom (elements s))]).
  { rewrite activeFlakes_spawned, Cap, Small. simpl. unfold set_add.
    case_bool_decide as X; [|done]. destruct W as (_ & _ & A & _).
    by destruct (A _ X). }
  split; [done|]. split.
  { rewrite A, length_app. simpl. lia. }
  split; [done|]. split; [done|].
  split; [by apply container_kept_spawned|].
  unfold spawned, parent_of. rewrite Cap, Small. simpl.
  rewrite lookup_insert_eq. simpl. unfold container_of. by rewrite C.
Qed.

(** ** Further properties: tracked means attached *)

Lemma attached_untracked g s : attached s → attached (untracked g s).
Proof.
  intros A f F. apply elem_of_untracked in F as [F N].
  destruct (A f F) as (c & C & P). exists c.
  rewrite containerElement_untracked. split; [done|].
  rewrite parent_of_untracked. case_decide as E; [|done].
  subst. destruct N. split; [done|]. by rewrite P.
Qed.

Lemma attached_untracked_all l s : attached s → attached (untracked_all l s).
Proof.
  revert s. induction l as [|g l IH]; intros s A; simpl; [done|].
  by apply IH, attached_untracked.
Qed.

Lemma attached_resolved h s : attached s → attached (resolved h s).
Proof.
  intros A. destruct (activeFlakes s) as [|f l] eqn:E.
  - intros f F. rewrite activeFlakes_resolved, E in F.
    by apply elem_of_nil in F.
  - destruct (A f) as (c & C & _); [rewrite E; apply list_elem_of_here|].
    by rewrite resolved_cached by by rewrite C.
Qed.

Lemma attached_spawned d h s :
  well_tracked d s → attached s → attached (spawned h s).
Proof.
  intros W A. unfold spawned. destruct (at_capacity s); [done|].
  destruct (too_small h); [by apply attached_resolved|].
  intros f F. simpl in F. exists (container_of h s). simpl.
  split; [apply containerElement_resolved|].
  unfold parent_of. simpl.
  apply elem_of_set_add_iff in F as [F| ->].
  - destruct (A f F) as (c & C & P).
    destruct W as (_ & _ & K & _). destruct (K f F) as [I _].
    rewrite lookup_insert_ne by by apply fresh_ne.
    unfold container_of. rewrite C. exact P.
  - by rewrite lookup_insert_eq.
Qed.

Lemma attached_empty s : activeFlakes s = [] → attached s.
Proof. intros E f F. rewrite E in F. by apply elem_of_nil in F. Qed.

Lemma attached_started d h s : well_tracked d s → attached (started h s).
Proof.
  intros W.
  assert (W' := well_tracked_started d h s W).
  unfold started in *. cbv zeta in *.
  set (s3 := positioned h _ (resolved h _)) in *.
  assert (E : activeFlakes s3 = []).
  { unfold s3. by autorewrite with frame. }
  assert (W3 : well_tracked d s3).
  { set (s1 := if truthy (flakeIntervalId s) then stopped s else s).
    assert (W1 : well_tracked d s1).
    { unfold s1. case_match; [by apply well_tracked_stopped|done]. }
    assert (W2 : well_tracked d (cleared s1)).
    { apply (well_tracked_shrink d s1); [done|..].
      - by rewrite dom_cleared.
      - apply NoDup_nil_2.
      - by intros f ?%elem_of_nil.
      - by rewrite styleElement_cleared. }
    apply well_tracked_styled in W2.
    apply (well_tracked_shrink d _ _ W2).
    - unfold s3. by rewrite dom_positioned, elements_resolved.
    - rewrite E. apply NoDup_nil_2.
    - rewrite E. by intros f ?%elem_of_nil.
    - unfold s3. by autorewrite with frame. }
  assert (A := attached_spawned d h s3 W3 (attached_empty s3 E)).
  intros f F. rewrite activeFlakes_scheduled in F.
  destruct (A f F) as (c & C & P). exists c.
  by rewrite containerElement_scheduled, parent_of_scheduled.
Qed.

Lemma attached_queried s : attached s → attached (queried s).
Proof.
  unfold attached. intros A f.
  rewrite activeFlakes_queried, containerElement_queried, parent_of_queried.
  apply A.
Qed.

Lemma attached_stepped d e s :
  external e = false → well_tracked d s → attached s →
  attached (stepped e s).
Proof.
  intros X W A. destruct e as [b| |i b|n|n]; try done; cbn [stepped].
  - on_refusal; [|by apply (attached_started d)].
    intros _. apply attached_empty.
    by rewrite activeFlakes_queried, activeFlakes_tidied.
  - apply attached_empty. apply stopped_fields.
  - destruct (intervals s !! i) as [[[] ?]|]; [| |done]; on_refusal;
      try (intros; by apply attached_queried).
    + by apply (attached_spawned d).
    + unfold swept. case_match; [done|].
      by apply attached_untracked_all, attached_resolved.
  - case_match; [|done]. apply attached_untracked.
    intros f F. destruct (A f F) as (c & C & P). exists c.
    split; [done|]. unfold parent_of in *. simpl.
    by rewrite parent_alter.
Qed.

(** X11.  While the page detaches nothing on its own, every tracked flake
    is attached: its parent is the resolved container. *)
Theorem tracked_are_attached (d : gmap node element) (evs : list event) :
  forallb (λ e, negb (external e)) evs = true →
  ∃ s, run evs (init d) = Ok (tt, s)
    ∧ ∀ f, f ∈ activeFlakes s →
           ∃ c, containerElement s = Some c ∧ parent_of s f = Some c.
Proof.
  intros Q. exists (ran evs (init d)). split; [apply run_run|].
  assert (G : ∀ s, well_tracked d s → attached s → attached (ran evs s)).
  { induction evs as [|e evs IH]; intros s W A; [done|].
    simpl in *. apply andb_prop in Q as [Q1 Q2].
    apply IH; [done|by apply well_tracked_stepped|].
    apply (attached_stepped d); [by destruct (external e)|done..]. }
  apply G; [apply (well_tracked_ran d [])|by apply attached_empty].
Qed.

(** ** Further properties: nothing is left behind *)

Lemma detached_stopped s n :
  parent_of s n = None → parent_of (stopped s) n = None.
Proof.
  intros P. unfold stopped. rewrite parent_of_restored.
  apply detached_unstyled. rewrite parent_of_cleared.
  apply detached_untracked_all. by rewrite parent_of_untimed.
Qed.

Lemma accounted_untracked d g s : accounted d s → accounted d (untracked g s).
Proof.
  intros A n N P. rewrite parent_of_untracked in P.
  case_decide as E; [by destruct P|].
  destruct (A n N P) as [F|S]; [left|right].
  - apply elem_of_untracked. split; [done|]. by intros [? _].
  - by rewrite styleElement_untracked.
Qed.

Lemma accounted_untracked_all d l s :
  accounted d s → accounted d (untracked_all l s).
Proof.
  revert s. induction l as [|g l IH]; intros s A; simpl; [done|].
  by apply IH, accounted_untracked.
Qed.

(** After a stop no node that [d] did not hold is attached. *)
Lemma stopped_clean d s n :
  accounted d s → n ∉ dom d → parent_of (stopped s) n = None.
Proof.
  intros A N. destruct (parent_of s n) as [p|] eqn:P.
  - destruct (A n N) as [F|S]; [by rewrite P|..].
    + apply stopped_detached. by right.
    + apply stopped_detached. by left.
  - by apply detached_stopped.
Qed.

Lemma accounted_clean d s :
  (∀ n, n ∉ dom d → parent_of s n = None) → accounted d s.
Proof. intros C n N P. rewrite (C n N) in P. by destruct P. Qed.

Lemma accounted_spawned d h s : accounted d s → accounted d (spawned h s).
Proof.
  intros A. unfold spawned. destruct (at_capacity s); [done|].
  assert (R : accounted d (resolved h s)).
  { intros n N P. rewrite parent_of_resolved in P.
    by rewrite activeFlakes_resolved, styleElement_resolved; apply A. }
  destruct (too_small h); [done|].
  intros n N P. simpl. autorewrite with frame.
  destruct (decide (n = fresh (dom (elements s)))) as [->|Ne].
  - left. apply elem_of_set_add_iff. by right.
  - unfold parent_of in P. simpl in P. rewrite lookup_insert_ne in P by done.
    destruct (A n N P) as [F|S]; [left|by right].
    apply elem_of_set_add_iff. by left.
Qed.

Lemma accounted_started d h s : accounted d s → accounted d (started h s).
Proof.
  intros A. unfold started. cbv zeta.
  set (s1 := if truthy (flakeIntervalId s) then stopped s else s).
  assert (A1 : accounted d s1).
  { unfold s1. case_match; [|done].
    apply accounted_clean. intros n N. by apply (stopped_clean d). }
  assert (C : ∀ n, n ∉ dom d → is_Some (parent_of (cleared s1) n) →
                   styleElement (cleared s1) = Some n).
  { intros n N P. rewrite parent_of_cleared, parent_of_untracked_all in P.
    rewrite styleElement_cleared.
    case_decide as F; [by destruct P|].
    by destruct (A1 n N P). }
  set (s2 := styled (cleared s1)).
  assert (A2 : ∀ n, n ∉ dom d → is_Some (parent_of s2 n) →
                    styleElement s2 = Some n).
  { intros n N P. unfold s2, styled in *.
    destruct (styleElement (cleared s1)) as [x|] eqn:E.
    - rewrite E. by apply C.
    - simpl.
      destruct (decide (n = fresh (dom (elements (cleared s1))))) as [->|Ne];
        [done|].
      unfold parent_of in P. simpl in P.
      rewrite !lookup_alter_ne, lookup_insert_ne in P by done.
      by specialize (C n N P). }
  set (s3 := positioned h (container_of h s2) (resolved h s2)).
  assert (A3 : accounted d s3).
  { intros n N P. right. unfold s3 in *.
    rewrite parent_of_positioned, parent_of_resolved in P.
    autorewrite with frame. by apply A2. }
  apply (accounted_spawned d h) in A3.
  intros n N P. rewrite parent_of_scheduled in P.
  rewrite activeFlakes_scheduled, styleElement_scheduled. by apply A3.
Qed.

Lemma accounted_queried d s : accounted d s → accounted d (queried s).
Proof.
  intros A n N. rewrite parent_of_queried, activeFlakes_queried,
    styleElement_queried. by apply A.
Qed.

Lemma accounted_tidied d s : accounted d s → accounted d (tidied s).
Proof.
  intros A. unfold tidied.
  set (s1 := if truthy (flakeIntervalId s) then stopped s else s).
  assert (A1 : accounted d s1).
  { unfold s1. case_match; [|done].
    apply accounted_clean. intros n N. by apply (stopped_clean d). }
  assert (C : ∀ n, n ∉ dom d → is_Some (parent_of (cleared s1) n) →
                   styleElement (cleared s1) = Some n).
  { intros n N P. rewrite parent_of_cleared, parent_of_untracked_all in P.
    rewrite styleElement_cleared.
    case_decide as F; [by destruct P|].
    by destruct (A1 n N P). }
  intros n N P. right. unfold styled in *.
  destruct (styleElement (cleared s1)) as [x|] eqn:E.
  - rewrite E. by apply C.
  - simpl.
    destruct (decide (n = fresh (dom (elements (cleared s1))))) as [->|Ne];
      [done|].
    unfold parent_of in P. simpl in P.
    rewrite !lookup_alter_ne, lookup_insert_ne in P by done.
    by specialize (C n N P).
Qed.

Lemma accounted_stepped d e s : accounted d s → accounted d (stepped e s).
Proof.
  intros A. destruct e as [b| |i b|x|x]; cbn [stepped].
  - on_refusal; [intros _; by apply accounted_queried, accounted_tidied|].
    by apply accounted_started.
  - apply accounted_clean. intros n N. by apply (stopped_clean d).
  - destruct (intervals s !! i) as [[[] ?]|]; [| |done]; on_refusal;
      try (intros; by apply accounted_queried).
    + by apply accounted_spawned.
    + unfold swept. case_match; [done|]. apply accounted_untracked_all.
      intros m N P. rewrite parent_of_resolved in P.
      by rewrite activeFlakes_resolved, styleElement_resolved; apply A.
  - case_match; [|done]. apply accounted_untracked.
    intros m N P. simpl. apply A; [done|].
    unfold parent_of in *. simpl in P. by rewrite parent_alter in P.
  - intros m N P. rewrite parent_of_detach in P.
    case_decide; [by destruct P|]. by apply A.
Qed.

(** X12.  Whatever happened before, [stopSnowflakes] leaves nothing of the
    instance in the document: every element the instance created, flake or
    style element, tracked or not, is detached afterwards; while it runs,
    an attached element it created is a tracked flake or the current
    style element. *)
Theorem stop_leaves_no_element (d : gmap node element) (evs : list event) :
  ∃ s, run evs (init d) = Ok (tt, s)
    ∧ (∀ n, n ∉ dom d → is_Some (parent_of s n) →
            n ∈ activeFlakes s ∨ styleElement s = Some n)
    ∧ ∃ s', stopSnowflakes s = Ok (tt, s')
            ∧ ∀ n, n ∉ dom d → parent_of s' n = None.
Proof.
  exists (ran evs (init d)). split; [apply run_run|].
  assert (A : accounted d (ran evs (init d))).
  { apply ran_invariant; [apply accounted_stepped|].
    apply accounted_clean. intros n N. unfold parent_of. simpl.
    apply not_elem_of_dom in N. by rewrite N. }
  split; [exact A|].
  exists (stopped (ran evs (init d))). split; [apply stopSnowflakes_run|].
  intros n N. by apply (stopped_clean d).
Qed.

(** ** Further properties: the elements of the page are left alone *)

Lemma lookup_untracked g s n :
  g ≠ n → elements (untracked g s) !! n = elements s !! n.
Proof.
  intros N. unfold untracked. case_match; [|done]. simpl.
  by rewrite lookup_alter_ne.
Qed.

Lemma lookup_untracked_all l s n :
  n ∉ l → elements (untracked_all l s) !! n = elements s !! n.
Proof.
  revert s. induction l as [|g l IH]; intros s N; simpl; [done|].
  apply not_elem_of_cons in N as [N1 N2].
  rewrite IH by done. by apply lookup_untracked.
Qed.

Lemma lookup_stopped s n :
  (n ∉ activeFlakes s) → styleElement s ≠ Some n →
  containerElement s ≠ Some n →
  elements (stopped s) !! n = elements s !! n.
Proof.
  intros A S C. unfold stopped.
  set (s1 := cleared (untimed s)).
  assert (E1 : elements s1 !! n = elements s !! n).
  { unfold s1, cleared. simpl.
    rewrite lookup_untracked_all by by rewrite activeFlakes_untimed.
    by rewrite elements_untimed. }
  assert (E2 : elements (unstyled s1) !! n = elements s !! n).
  { unfold unstyled. destruct (styleElement s1) as [x|] eqn:X; [|done].
    simpl. rewrite lookup_alter_ne; [done|].
    intros ->. unfold s1 in X.
    by rewrite styleElement_cleared, styleElement_untimed in X. }
  rewrite <- E2. unfold restored.
  destruct (containerElement (unstyled s1)) as [c|] eqn:X; [|done].
  case_bool_decide; [done|]. case_match; [|done]. simpl.
  assert (c ≠ n).
  { intros ->. unfold s1 in X. by autorewrite with frame in X. }
  by rewrite !lookup_alter_ne.
Qed.

Lemma lookup_spawned h s n :
  n ∈ dom (elements s) → elements (spawned h s) !! n = elements s !! n.
Proof.
  intros I. unfold spawned.
  repeat case_match; simpl; rewrite ?elements_resolved; [done..|].
  by rewrite lookup_insert_ne by by apply fresh_ne.
Qed.

Lemma lookup_positioned h c s n :
  c ≠ n → elements (positioned h c s) !! n = elements s !! n.
Proof.
  intros N. unfold positioned. case_match; [|done]. simpl.
  by rewrite !lookup_alter_ne.
Qed.

Lemma lookup_started h s n :
  untouched n s → containerElement (started h s) ≠ Some n →
  elements (started h s) !! n = elements s !! n.
Proof.
  intros (D & A & S & _) C. rewrite containerElement_started in C.
  unfold started. cbv zeta. rewrite elements_scheduled.
  set (s1 := if truthy (flakeIntervalId s) then stopped s else s).
  assert (E1 : elements s1 !! n = elements s !! n
               ∧ dom (elements s1) = dom (elements s)
               ∧ containerElement s1 = containerElement s).
  { unfold s1. case_match; [|done].
    rewrite dom_stopped, containerElement_stopped.
    split; [|done]. apply lookup_stopped; [done..|].
    intros E. rewrite E in C. done. }
  destruct E1 as (E1 & D1 & C1).
  set (s2 := styled (cleared s1)).
  assert (E2 : elements s2 !! n = elements s !! n
               ∧ n ∈ dom (elements s2)
               ∧ container_of h s2 = default (resolve h) (containerElement s)).
  { unfold s2. split; [|split].
    - rewrite lookup_styled by (rewrite dom_cleared, D1; intros ->;
                                by apply (is_fresh (dom (elements s)))).
      unfold cleared. simpl. rewrite lookup_untracked_all; [done|].
      unfold s1. case_match; [|done].
      destruct (stopped_fields s) as (_ & _ & _ & -> & _).
      apply not_elem_of_nil.
    - apply dom_styled. by rewrite dom_cleared, D1.
    - unfold container_of. by autorewrite with frame; rewrite C1. }
  destruct E2 as (E2 & D2 & K2).
  rewrite lookup_spawned, lookup_positioned, elements_resolved; [done|..].
  - rewrite K2. intros E. apply C. by rewrite E.
  - by rewrite dom_positioned, elements_resolved.
Qed.

Lemma lookup_tidied s n :
  untouched n s → containerElement s ≠ Some n →
  elements (tidied s) !! n = elements s !! n.
Proof.
  intros (D & A & S & _) C. unfold tidied.
  set (s1 := if truthy (flakeIntervalId s) then stopped s else s).
  assert (E1 : elements s1 !! n = elements s !! n
               ∧ dom (elements s1) = dom (elements s)).
  { unfold s1. case_match; [|done]. rewrite dom_stopped.
    split; [|done]. by apply lookup_stopped. }
  destruct E1 as (E1 & D1).
  rewrite lookup_styled by (rewrite dom_cleared, D1; intros ->;
                            by apply (is_fresh (dom (elements s)))).
  unfold cleared. simpl. rewrite lookup_untracked_all; [done|].
  unfold s1. case_match; [|done].
  destruct (stopped_fields s) as (_ & _ & _ & -> & _).
  apply not_elem_of_nil.
Qed.

Lemma untouched_stepped e s n :
  untouched n s → detaches n e = false →
  containerElement (stepped e s) ≠ Some n →
  elements (stepped e s) !! n = elements s !! n.
Proof.
  intros U X C. assert (U' := U). destruct U' as (D & A & S & L).
  destruct e as [b| |i b|m|m]; cbn [stepped] in *.
  - unfold started_by in *. destruct (refused b s) eqn:R.
    + rewrite elements_queried. apply lookup_tidied; [done|].
      destruct (refused_inv b s R) as (N & _). by rewrite N.
    + by apply lookup_started.
  - apply lookup_stopped; [done..|]. by rewrite <- containerElement_stopped.
  - destruct (intervals s !! i) as [[[] ?]|]; [| |done]; on_refusal;
      try (intros; by rewrite elements_queried).
    + by apply lookup_spawned.
    + unfold swept.
      destruct (activeFlakes s) as [|g l] eqn:E; [done|]. rewrite <- E in *.
      rewrite lookup_untracked_all, elements_resolved; [done|].
      rewrite list_elem_of_In, filter_In, <- list_elem_of_In. by intros [? _].
  - destruct (decide (m = n)) as [->|N]; [by rewrite L|].
    case_match; [|done]. rewrite lookup_untracked by done. simpl.
    by rewrite lookup_alter_ne.
  - simpl. apply bool_decide_eq_false in X. by rewrite lookup_alter_ne.
Qed.

Lemma untouched_kept d e s n :
  well_tracked d s → n ∈ dom d →
  (n ∈ dom (elements (stepped e s))) ∧ (n ∉ activeFlakes (stepped e s))
  ∧ styleElement (stepped e s) ≠ Some n.
Proof.
  intros W I. destruct (well_tracked_stepped d e s W) as (D & _ & A & S).
  split; [by apply D|]. split.
  - intros F. by destruct (A n F).
  - intros E. by destruct (S n E) as (_ & ? & _).
Qed.

Lemma container_kept_ran evs s c :
  containerElement s = Some c → containerElement (ran evs s) = Some c.
Proof.
  revert s. induction evs as [|e evs IH]; intros s C; [done|].
  simpl. by apply IH, container_kept.
Qed.

(** A step that attaches nothing keeps the nodes where they are. *)
Lemma placed_shrink d s s' :
  placed d s →
  (∀ c p, parent_of s' c = Some p → parent_of s c = Some p) →
  (∀ c, c ∈ activeFlakes s → is_Some (parent_of s' c) → c ∈ activeFlakes s') →
  (∀ p, containerElement s = Some p → containerElement s' = Some p) →
  (∀ c, styleElement s = Some c → is_Some (parent_of s' c) →
        styleElement s' = Some c) →
  placed d s'.
Proof.
  intros P Par Act Con Sty c p E.
  destruct (P c p (Par c p E)) as [?|[N [[A C]|[S ->]]]]; [by left|right..].
  - split; [done|]. left. split; [|by apply Con]. apply Act; [done|].
    by rewrite E.
  - split; [done|]. right. split; [|done]. apply Sty; [done|]. by rewrite E.
Qed.

Lemma placed_untracked d g s : placed d s → placed d (untracked g s).
Proof.
  intros P. apply (placed_shrink d s); [done|..].
  - intros c p. rewrite parent_of_untracked. by case_decide.
  - intros c A I. rewrite parent_of_untracked in I.
    case_decide as E; [by destruct I|].
    apply elem_of_untracked. split; [done|]. by intros [? _].
  - intros p. by rewrite containerElement_untracked.
  - intros c. by rewrite styleElement_untracked.
Qed.

Lemma placed_untracked_all d l s : placed d s → placed d (untracked_all l s).
Proof.
  revert s. induction l as [|g l IH]; intros s P; simpl; [done|].
  by apply IH, placed_untracked.
Qed.

Lemma parent_of_unstyled s c p :
  parent_of (unstyled s) c = Some p →
  parent_of s c = Some p ∧ styleElement s ≠ Some c.
Proof.
  unfold unstyled. destruct (styleElement s) as [n|] eqn:E; [|done].
  change (parent_of (detach n s) c = Some p
          → parent_of s c = Some p ∧ Some n ≠ Some c).
  rewrite parent_of_detach. case_decide as X; [done|].
  intros ->. split; [done|]. congruence.
Qed.

Lemma placed_stopped d s : placed d s → placed d (stopped s).
Proof.
  intros P.
  assert (Par : ∀ c p, parent_of (stopped s) c = Some p →
                  parent_of s c = Some p ∧ (c ∉ activeFlakes s)
                  ∧ styleElement s ≠ Some c).
  { intros c p. unfold stopped. rewrite parent_of_restored.
    intros [E S]%parent_of_unstyled.
    rewrite parent_of_cleared, parent_of_untracked_all in E.
    rewrite styleElement_cleared, styleElement_untimed in S.
    rewrite activeFlakes_untimed, parent_of_untimed in E.
    case_decide as A; [done|]. done. }
  apply (placed_shrink d s); [done|..].
  - intros c p E. by destruct (Par c p E).
  - intros c A [p E]. by destruct (Par c p E) as (_ & ? & _).
  - intros p. by rewrite containerElement_stopped.
  - intros c S [p E]. by destruct (Par c p E) as (_ & _ & ?).
Qed.

Lemma placed_frame d s s' :
  placed d s → elements s' = elements s → activeFlakes s' = activeFlakes s →
  styleElement s' = styleElement s →
  (∀ p, containerElement s = Some p → containerElement s' = Some p) →
  placed d s'.
Proof.
  intros P E A S C. apply (placed_shrink d s); [done|..].
  - intros c p. unfold parent_of. by rewrite E.
  - intros c. by rewrite A.
  - done.
  - intros c. by rewrite S.
Qed.

Lemma placed_queried d s : placed d s → placed d (queried s).
Proof. intros P. apply (placed_frame d s); by autorewrite with frame. Qed.

Lemma placed_resolved d h s : placed d s → placed d (resolved h s).
Proof.
  intros P. apply (placed_frame d s); try by autorewrite with frame.
  intros p C. by rewrite resolved_cached by by rewrite C.
Qed.

Lemma placed_styled d s :
  well_tracked d s → placed d s → placed d (styled s).
Proof.
  intros (D & _) P. unfold styled.
  destruct (styleElement s) as [x|] eqn:E; [done|].
  assert (F := is_fresh (dom (elements s))).
  intros c p. unfold parent_of. simpl.
  destruct (decide (c = fresh (dom (elements s)))) as [->|N].
  - rewrite !lookup_alter_eq, lookup_insert_eq. simpl. intros [= <-].
    right. split; [intros I; by apply F, D|]. by right.
  - rewrite !lookup_alter_ne, lookup_insert_ne by done. intros X.
    destruct (P c p X) as [?|[M [?|[S _]]]]; [by left|right|congruence].
    split; [done|]. by left.
Qed.

Lemma placed_tidied d s :
  well_tracked d s → placed d s → placed d (tidied s).
Proof.
  intros W P. unfold tidied.
  set (s1 := if truthy (flakeIntervalId s) then stopped s else s).
  assert (W1 : well_tracked d s1).
  { unfold s1. case_match; [by apply well_tracked_stopped|done]. }
  assert (P1 : placed d s1).
  { unfold s1. case_match; [by apply placed_stopped|done]. }
  apply placed_styled.
  - apply (well_tracked_shrink d s1); [done|..].
    + by rewrite dom_cleared.
    + apply NoDup_nil_2.
    + by intros f ?%elem_of_nil.
    + by rewrite styleElement_cleared.
  - apply (placed_shrink d s1); [done|..].
    + intros c p. rewrite parent_of_cleared, parent_of_untracked_all.
      by case_decide.
    + intros c A I. rewrite parent_of_cleared, parent_of_untracked_all in I.
      rewrite decide_True in I by done. by destruct I.
    + intros p. by rewrite containerElement_cleared.
    + intros c. by rewrite styleElement_cleared.
Qed.

Lemma placed_spawned d h s :
  well_tracked d s → placed d s → placed d (spawned h s).
Proof.
  intros (D & _) P. unfold spawned. destruct (at_capacity s); [done|].
  destruct (too_small h); [by apply placed_resolved|].
  assert (F := is_fresh (dom (elements s))).
  intros c p. unfold parent_of. simpl.
  rewrite ?activeFlakes_resolved, ?styleElement_resolved,
    ?containerElement_resolved.
  destruct (decide (c = fresh (dom (elements s)))) as [->|N].
  - rewrite lookup_insert_eq. simpl. intros [= <-].
    right. split; [intros I; by apply F, D|]. left.
    split; [|done]. apply elem_of_set_add_iff. by right.
  - rewrite lookup_insert_ne by done. intros X.
    destruct (P c p X) as [?|[M [[A C]|?]]]; [by left|right..].
    + split; [done|]. left. split; [apply elem_of_set_add_iff; by left|].
      unfold container_of. by rewrite C.
    + split; [done|]. by right.
Qed.

Lemma placed_swept d h s : placed d s → placed d (swept h s).
Proof.
  intros P. unfold swept. case_match; [done|].
  by apply placed_untracked_all, placed_resolved.
Qed.

Lemma placed_started d h s :
  well_tracked d s → placed d s → placed d (started h s).
Proof.
  intros W P.
  assert (W2 := well_tracked_tidied d s W).
  assert (P2 := placed_tidied d s W P).
  change (started h s)
    with (scheduled (spawned h (positioned h (container_of h (tidied s))
                                             (resolved h (tidied s))))).
  set (s2 := tidied s) in *.
  set (s3 := positioned h (container_of h s2) (resolved h s2)).
  assert (W3 : well_tracked d s3).
  { apply (well_tracked_shrink d s2); [done|..]; unfold s3.
    - by rewrite dom_positioned, elements_resolved.
    - autorewrite with frame. apply W2.
    - by autorewrite with frame.
    - by autorewrite with frame. }
  assert (P3 : placed d s3).
  { apply (placed_shrink d (resolved h s2)); [by apply placed_resolved|..];
      unfold s3.
    - intros c p. by rewrite parent_of_positioned.
    - intros c. by rewrite activeFlakes_positioned.
    - intros p. by rewrite containerElement_positioned.
    - intros c. by rewrite styleElement_positioned. }
  apply (placed_frame d (spawned h s3)); [by apply placed_spawned|done..].
Qed.

Lemma placed_stepped d e s :
  well_tracked d s → placed d s → placed d (stepped e s).
Proof.
  intros W P. destruct e as [b| |i b|n|n]; cbn [stepped].
  - on_refusal; [intros _; by apply placed_queried, placed_tidied|].
    by apply placed_started.
  - by apply placed_stopped.
  - destruct (intervals s !! i) as [[[] ?]|]; [| |done]; on_refusal;
      try (intros; by apply placed_queried).
    + by apply placed_spawned.
    + by apply placed_swept.
  - case_match; [|done]. apply placed_untracked.
    apply (placed_shrink d s); [done|..]; simpl; try done.
    intros c p. unfold parent_of. simpl. by rewrite parent_alter.
  - apply (placed_shrink d s); [done|..]; try done.
    + intros c p. rewrite parent_of_detach. by case_decide.
Qed.

Lemma placed_ran d evs : placed d (ran evs (init d)).
Proof.
  assert (G : ∀ s, well_tracked d s → placed d s → placed d (ran evs s)).
  { induction evs as [|e evs IH]; intros s W P; [done|]. simpl.
    apply IH; [by apply well_tracked_stepped|by apply placed_stepped]. }
  apply G; [apply (well_tracked_ran d [])|].
  intros c p E. left. split; [|done].
  apply elem_of_dom. unfold parent_of in E. simpl in E.
  destruct (d !! c); [done|discriminate].
Qed.

(** X13.  An instance leaves the elements of the page alone.  An element
    that was on the page when the instance was made, that is not the
    resolved container and that the page itself does not detach, has
    after any sequence of events the tag, parent, class, inline position
    and attributes it had, and no child that it did not have; the one
    exception is [document.head], which also has the style element of
    the instance as a child while there is one. *)
Theorem page_elements_untouched (d : gmap node element) evs n e0 s :
  d !! n = Some e0 → animationend_once e0 = false →
  forallb (λ e, negb (detaches n e)) evs = true →
  run evs (init d) = Ok (tt, s) →
  containerElement s ≠ Some n →
  elements s !! n = Some e0
  ∧ ∀ c, c ∈ childNodes s n →
         c ∈ childNodes (init d) n
         ∨ (n = document_head ∧ styleElement s = Some c).
Proof.
  intros L0 Off Q Run C. rewrite run_run in Run. injection Run as <-.
  assert (I : n ∈ dom d) by (apply elem_of_dom; by rewrite L0).
  split.
  - assert (G : ∀ s0, well_tracked d s0 → untouched n s0 →
                      containerElement (ran evs s0) ≠ Some n →
                      elements (ran evs s0) !! n = elements s0 !! n).
    { clear C. induction evs as [|e evs IH]; intros s0 W U C; [done|].
      simpl in *. apply andb_prop in Q as [Q1 Q2].
      assert (C1 : containerElement (stepped e s0) ≠ Some n).
      { intros E. apply C. by apply container_kept_ran. }
      assert (E1 := untouched_stepped e s0 n U
                      ltac:(by destruct (detaches n e)) C1).
      destruct (untouched_kept d e s0 n W I) as (K1 & K2 & K3).
      rewrite IH; [done|done|by apply well_tracked_stepped| |done].
      split; [done|]. split; [done|]. split; [done|].
      rewrite E1. apply U. }
    rewrite G; [done|apply (well_tracked_ran d [])| |done].
    split; [done|]. split; [apply not_elem_of_nil|]. split; [done|].
    simpl. by rewrite L0.
  - intros c E%elem_of_childNodes. rewrite elem_of_childNodes.
    destruct (placed_ran d evs c n E) as [[_ ?]|[_ [[_ K]|[S ->]]]];
      [by left|done|by right].
Qed.

(** ** Further properties: what a start leaves *)

Lemma flakeIntervalId_tidied s : flakeIntervalId (tidied s) = None.
Proof.
  unfold tidied. rewrite flakeIntervalId_styled, flakeIntervalId_cleared.
  destruct (flakeIntervalId s) eqn:E; simpl; [apply stopped_fields|done].
Qed.

Lemma styleElement_styled s : is_Some (styleElement (styled s)).
Proof. unfold styled. destruct (styleElement s) eqn:E; [by rewrite E|done]. Qed.

(** X14.  [startSnowflakes] makes its first flake itself, before any timer
    fires, unless the query for the container is refused.  When it is
    refused the call raises [SyntaxError] after the style element is in
    place: no flake is tracked, no spawn timer is set, the container stays
    unresolved and one more query has been made.  Otherwise the call
    returns; when the maximum allows a first flake and the rounded size is
    positive, exactly one flake is tracked: a new [div] of class
    [vue-snowfall-flake], as wide as it is high, listening for
    [animationend], child of the resolved container.  In the other cases
    no flake is tracked. *)
Theorem startSnowflakes_spawns_first (b : agent) (s : state) :
  (refused b s = true →
     ∃ s', startSnowflakes b s = Throw SyntaxError s'
       ∧ activeFlakes s' = [] ∧ containerElement s' = None
       ∧ flakeIntervalId s' = None ∧ is_Some (styleElement s')
       ∧ queries (trace s') = S (queries (trace s)))
  ∧ (refused b s = false →
     ∃ s', startSnowflakes b s = Ok (tt, s')
       ∧ if at_capacity (init ∅) || too_small (answers b)
         then activeFlakes s' = []
         else ∃ f c e css,
                activeFlakes s' = [f] ∧ (f ∉ dom (elements s))
                ∧ containerElement s' = Some c
                ∧ elements s' !! f = Some e
                ∧ tagName e = "div" ∧ className e = "vue-snowfall-flake"
                ∧ parentNode e = Some c ∧ animationend_once e = true
                ∧ flake_style e = Some css
                ∧ css_width css = css_height css ∧ (0 < css_width css)%Z
                ∧ css_fill css = color opts).
Proof.
  split; intros R.
  - exists (queried (tidied s)).
    rewrite startSnowflakes_outcome. unfold started_by. rewrite R.
    split; [done|].
    destruct (refused_inv b s R) as (N & _ & sel & _ & _ & E).
    rewrite activeFlakes_queried, activeFlakes_tidied, containerElement_queried,
      containerElement_tidied, flakeIntervalId_queried, styleElement_queried,
      flakeIntervalId_tidied.
    split; [done|]. split; [done|]. split; [done|].
    split; [apply styleElement_styled|].
    rewrite E. simpl. rewrite trace_tidied, queries_app.
    change (queries [QuerySelector sel]) with 1%nat. lia.
  - exists (started (answers b) s).
    rewrite startSnowflakes_outcome. unfold started_by. rewrite R.
    split; [done|]. set (h := answers b).
    assert (C := containerElement_started h s).
    unfold started in *. cbv zeta in *.
    set (s1 := if truthy (flakeIntervalId s) then stopped s else s) in *.
    set (s2 := styled (cleared s1)) in *.
    set (s3 := positioned h (container_of h s2) (resolved h s2)) in *.
    assert (A3 : activeFlakes s3 = []).
    { unfold s3, s2. by autorewrite with frame. }
    assert (D3 : dom (elements s) ⊆ dom (elements s3)).
    { unfold s3. rewrite dom_positioned, elements_resolved.
      etrans; [|apply dom_styled]. rewrite dom_cleared. unfold s1.
      case_match; [by rewrite dom_stopped|done]. }
    assert (Cap : at_capacity s3 = at_capacity (init ∅)).
    { unfold at_capacity. by rewrite A3. }
    rewrite activeFlakes_scheduled, activeFlakes_spawned, Cap, A3.
    destruct (at_capacity (init ∅) || too_small h) eqn:G; [done|].
    apply orb_false_elim in G as [G1 G2].
    exists (fresh (dom (elements s3))), (container_of h s3),
           (flake_element h (container_of h s3)), (flake_css_of h).
    split; [done|]. split.
    { intros I. by apply (is_fresh (dom (elements s3))), D3. }
    assert (K : containerElement s3 = Some (container_of h s2)).
    { unfold s3. by rewrite containerElement_positioned,
        containerElement_resolved. }
    split.
    { rewrite containerElement_scheduled.
      rewrite (container_kept_spawned _ _ _ K).
      unfold container_of at 2. by rewrite K. }
    split.
    { rewrite elements_scheduled. unfold spawned. rewrite Cap, G1, G2. simpl.
      by rewrite lookup_insert_eq. }
    do 6 (split; [done|]). split; [|done].
    unfold too_small in G2. by apply Z.leb_gt in G2.
Qed.

Lemma positioned_skipped h c s :
  c = document_body ∨ computedPosition h c ≠ "static" →
  positioned h c s = s.
Proof.
  intros G. unfold positioned.
  destruct G as [->|G].
  - by rewrite bool_decide_true.
  - rewrite (bool_decide_false (computedPosition h c = "static")) by done.
    by rewrite andb_false_r.
Qed.

Lemma inline_started_skipped h s c :
  container_of h s = c →
  c = document_body ∨ computedPosition h c ≠ "static" →
  c ∈ dom (elements s) → override_of s c = None →
  containerElement (started h s) = Some c
  ∧ position_of (started h s) c = position_of s c
  ∧ override_of (started h s) c = None.
Proof.
  intros K G I O.
  assert (C := containerElement_started h s).
  unfold started in *. cbv zeta in *.
  set (s1 := if truthy (flakeIntervalId s) then stopped s else s) in *.
  assert (F1 : position_of s1 c = position_of s c ∧ override_of s1 c = None
               ∧ dom (elements s1) = dom (elements s)
               ∧ containerElement s1 = containerElement s).
  { unfold s1. case_match; [|done].
    destruct (inline_stopped_none s c O) as [-> ->].
    by rewrite dom_stopped, containerElement_stopped. }
  destruct F1 as (P1 & O1 & D1 & C1).
  set (s2 := styled (cleared s1)) in *.
  assert (F2 : position_of s2 c = position_of s c ∧ override_of s2 c = None
               ∧ c ∈ dom (elements s2) ∧ container_of h s2 = c).
  { unfold s2.
    destruct (inline_styled (cleared s1) c) as [-> ->];
      [by rewrite dom_cleared, D1|].
    destruct (inline_cleared s1 c) as [-> ->].
    split; [done|]. split; [done|]. split.
    - apply dom_styled. by rewrite dom_cleared, D1.
    - unfold container_of.
      by rewrite containerElement_styled, containerElement_cleared, C1. }
  destruct F2 as (P2 & O2 & D2 & K2). rewrite K2 in *.
  rewrite positioned_skipped in * by done.
  destruct (inline_scheduled (spawned h (resolved h s2)) c) as [-> ->].
  destruct (inline_spawned h (resolved h s2) c) as [-> ->];
    [by rewrite elements_resolved|].
  destruct (inline_resolved h s2 c) as [-> ->].
  split; [|done]. rewrite C. unfold container_of in K. by rewrite K.
Qed.

(** X15.  [startSnowflakes] touches the position of the container only
    when it has to.  For a container that is an element of the page
    without a recorded position: if it is [document.body] or its computed
    position is not [static], a start and the stop after it leave its
    inline position as it was and record nothing; otherwise the start sets
    the inline position to [relative] and records in
    [data-vue-snowfall-position] the inline value it replaced, or [static]
    when there was none. *)
Theorem startSnowflakes_positions_container (h : host) s c s0 :
  getContainer h s = Ok (Some c, s0) →
  c ∈ dom (elements s) → override_of s c = None →
  ∃ s', startSnowflakes h s = Ok (tt, s')
    ∧ containerElement s' = Some c
    ∧ if negb (bool_decide (c = document_body))
         && bool_decide (computedPosition h c = "static")
      then position_of s' c = "relative"
           ∧ override_of s' c = Some (or_string (position_of s c) "static")
      else position_of s' c = position_of s c ∧ override_of s' c = None
           ∧ ∃ s'', stopSnowflakes s' = Ok (tt, s'')
                    ∧ position_of s'' c = position_of s c
                    ∧ override_of s'' c = None.
Proof.
  rewrite getContainer_run. intros [= K _] I O.
  exists (started h s). split; [apply startSnowflakes_run|].
  destruct (negb (bool_decide (c = document_body))
            && bool_decide (computedPosition h c = "static")) eqn:G.
  - apply andb_prop in G as [G1 G2].
    apply negb_true_iff, bool_decide_eq_false in G1.
    apply bool_decide_eq_true in G2.
    by destruct (inline_started h s c K G1 G2 I O) as (A & B & D).
  - assert (G' : c = document_body ∨ computedPosition h c ≠ "static").
    { apply andb_false_iff in G as [G|G].
      - left. by apply negb_false_iff, bool_decide_eq_true in G.
      - right. by apply bool_decide_eq_false in G. }
    destruct (inline_started_skipped h s c K G' I O) as (A & B & D).
    split; [done|]. split; [done|]. split; [done|].
    exists (stopped (started h s)). split; [apply stopSnowflakes_run|].
    destruct (inline_stopped_none (started h s) c D) as [-> ->].
    by rewrite B.
Qed.

End Snowfall.

(** ** The properties on the example page *)

Lemma stopSnowflakes_idempotent_witness :
  ∃ s', times 3 stopSnowflakes (init page) = Ok (tt, s')
        ∧ stopSnowflakes s' = Ok (tt, s')
        ∧ activeFlakes s' = [] ∧ styleElement s' = None.
Proof.
  destruct (stopSnowflakes_idempotent 2 (init page))
    as (s' & A & _ & B & C & _ & _ & D & _).
  by exists s'.
Defined.

Lemma maxFlakes_respected_witness :
  maxFlakes (with_maxFlakes (Some 1%Q) defaults) = Some 1%Q
  ∧ ∃ s, run (with_maxFlakes (Some 1%Q) defaults)
             [Start browser; Fire 1 browser; Fire 1 browser] (init page)
         = Ok (tt, s)
         ∧ (Z.of_nat (length (activeFlakes s)) ≤ 1)%Z.
Proof.
  split; [reflexivity|].
  destruct (maxFlakes_respected (with_maxFlakes (Some 1%Q) defaults) 1
              eq_refl) as [_ H].
  destruct (H page [Start browser; Fire 1%positive browser;
                    Fire 1%positive browser]) as (s & R & _ & K).
  exists s. split; [exact R|]. apply K; [lia|reflexivity].
Defined.

Lemma maxFlakes_not_positive_witness :
  maxFlakes (with_maxFlakes (Some 0%Q) defaults) = Some 0%Q ∧ (0 <= 0)%Q
  ∧ ∃ s, run (with_maxFlakes (Some 0%Q) defaults)
             [Start browser; Fire 1 browser] (init page) = Ok (tt, s)
         ∧ activeFlakes s = [].
Proof.
  split; [reflexivity|]. split; [by vm_compute|].
  apply (maxFlakes_not_positive (with_maxFlakes (Some 0%Q) defaults) 0);
    [reflexivity|by vm_compute].
Defined.

Lemma restart_is_stop_then_start_witness :
  truthy (flakeIntervalId (ran defaults [Start browser] (init page))) = true
  ∧ startSnowflakes defaults browser (ran defaults [Start browser] (init page))
    = bind stopSnowflakes (λ _, startSnowflakes defaults browser)
           (ran defaults [Start browser] (init page)).
Proof.
  split; [vm_compute; reflexivity|].
  apply (restart_is_stop_then_start defaults browser). vm_compute; reflexivity.
Defined.

(** C4 fails on the container of the example page, whose inline position
    is [static]: after a start and a stop it is the empty string. *)
Theorem inline_static_not_restored :
  position_of (init page) box = "static"
  ∧ computedPosition browser box = "static"
  ∧ ∃ s, bind (startSnowflakes (with_container (CElement box) defaults) browser)
              (λ _, stopSnowflakes)
              (init page) = Ok (tt, s)
         ∧ position_of s box = EmptyString
         ∧ override_of s box = None.
Proof.
  split; [reflexivity|]. split; [reflexivity|].
  eexists. split; [vm_compute; reflexivity|]. split; reflexivity.
Qed.

Lemma chaos_scaling_witness :
  (chaos (with_chaos 100 defaults) == 100)%Q
  ∧ max_magnitude (xDeviation (with_chaos 100 defaults)) 200
  ∧ max_magnitude (xDeviationEnd (with_chaos 100 defaults)) 100
  ∧ (chaos defaults == 50)%Q
  ∧ max_magnitude (xDeviation defaults) 100
  ∧ max_magnitude (xDeviationEnd defaults) 50
  ∧ (chaos (with_chaos 0 defaults) == 0)%Q
  ∧ (xDeviation (with_chaos 0 defaults) (1 # 2) == 0)%Q.
Proof.
  destruct (chaos_scaling (with_chaos 100 defaults)) as (_ & _ & A & _).
  destruct (chaos_scaling defaults) as (_ & _ & _ & B).
  destruct (chaos_scaling (with_chaos 0 defaults)) as (_ & C & _).
  split; [reflexivity|]. split; [by apply A|]. split; [by apply A|].
  split; [reflexivity|]. split; [by apply B|]. split; [by apply B|].
  split; [reflexivity|]. by apply C.
Defined.

Lemma createSnowflake_samples_witness :
  (minSpeed defaults <= maxSpeed defaults)%Q
  ∧ (minSize defaults <= maxSize defaults)%Q
  ∧ random_ok browser
  ∧ ∃ f s' e css,
      createSnowflake defaults browser (init page) = Ok (Some f, s')
      ∧ elements s' !! f = Some e ∧ flake_style e = Some css
      ∧ drawn 20 30 (1 # 2) (css_duration css)
      ∧ (1 ≤ css_left css ≤ 99)%Z
      ∧ (0 < css_width css)%Z.
Proof.
  assert (A : (minSpeed defaults <= maxSpeed defaults)%Q) by by vm_compute.
  assert (B : (minSize defaults <= maxSize defaults)%Q) by by vm_compute.
  assert (C : random_ok browser) by (intros k; split; by vm_compute).
  split; [exact A|]. split; [exact B|]. split; [exact C|].
  destruct (createSnowflake_samples defaults browser A B C) as (S & _ & H).
  destruct (H (init page)) as (f & s' & R); [reflexivity|by vm_compute|].
  destruct (S _ _ _ R)
    as (e & css & u & p & E1 & E2 & D & _ & _ & _ & _ & L & _ & _ & _ & _ & _ & W).
  exists f, s', e, css. split; [exact R|]. split; [exact E1|].
  split; [exact E2|]. split; [exact D|]. split; [exact L|exact W].
Defined.

Lemma getContainer_memoized_witness :
  let o := with_container (CSelector "#snow") defaults in
  let evs := [Start browser; Stop; Start browser; Fire 1 browser] in
  forallb (accepted o) evs = true
  ∧ ∃ s, run o evs (init page) = Ok (tt, s)
         ∧ (queries (trace s) ≤ 1)%nat ∧ (warnings (trace s) ≤ 1)%nat.
Proof.
  intros o evs.
  assert (A : forallb (accepted o) evs = true) by reflexivity.
  split; [exact A|].
  destruct (getContainer_memoized o) as (_ & _ & _ & _ & H).
  destruct (H page evs) as (s & R & W & _ & Q & _).
  exists s. split; [exact R|]. split; [exact (Q A)|exact W].
Defined.

Lemma createSnowflake_skips_witness :
  let o := with_maxFlakes (Some 1%Q) defaults in
  let s := ran o [Start browser] (init page) in
  run o [Start browser] (init page) = Ok (tt, s)
  ∧ intervals s !! 1%positive = Some (CreateSnowflake, 500%Q)
  ∧ at_capacity o s = true
  ∧ step o (Fire 1 browser) s = Ok (tt, s).
Proof.
  intros o s.
  assert (R : run o [Start browser] (init page) = Ok (tt, s))
    by (vm_compute; reflexivity).
  assert (I : intervals s !! 1%positive = Some (CreateSnowflake, 500%Q))
    by (vm_compute; reflexivity).
  assert (C : at_capacity o s = true) by (vm_compute; reflexivity).
  split; [exact R|]. split; [exact I|]. split; [exact C|].
  destruct (createSnowflake_skips o browser) as [_ H].
  apply (H page [Start browser] s 1%positive 500%Q R I). by left.
Defined.

Lemma removeSnowflake_needs_parent_witness :
  let s := ran defaults [Start browser; Detach 7%nat] (init page) in
  orphan 7%nat s
  ∧ ∃ s', run defaults [Fire 1 browser; AnimationEnd 7%nat; Fire 2 browser] s
          = Ok (tt, s')
          ∧ orphan 7%nat s'.
Proof.
  intros s.
  assert (O : orphan 7%nat s).
  { split; [|split].
    - apply elem_of_dom. eexists. vm_compute. reflexivity.
    - vm_compute. apply list_elem_of_here.
    - vm_compute. reflexivity. }
  split; [exact O|].
  destruct (removeSnowflake_needs_parent defaults) as (_ & _ & _ & H & _).
  apply H; [exact O|reflexivity].
Defined.

Lemma size_guard_by_configuration_witness :
  random_ok browser ∧ (minSize defaults <= maxSize defaults)%Q
  ∧ (1 # 2 <= minSize defaults)%Q
  ∧ ∃ f s', createSnowflake defaults browser (init page) = Ok (Some f, s')
            ∧ (f ∉ dom (elements (init page))) ∧ f ∈ activeFlakes s'.
Proof.
  assert (R : random_ok browser) by (intros k; split; by vm_compute).
  assert (S : (minSize defaults <= maxSize defaults)%Q) by by vm_compute.
  assert (M : (1 # 2 <= minSize defaults)%Q) by by vm_compute.
  split; [exact R|]. split; [exact S|]. split; [exact M|].
  destruct (size_guard_by_configuration defaults browser R S) as [H _].
  apply (H M). reflexivity.
Defined.

Lemma createSnowflake_fixed_witness :
  createSnowflake one_at_a_time browser (init page)
  = Ok (Some 6%nat, spawned one_at_a_time browser (init page))
  ∧ ∃ e css,
      elements (spawned one_at_a_time browser (init page)) !! 6%nat = Some e
      ∧ flake_style e = Some css
      ∧ (css_duration css == 1)%Q ∧ css_width css = 10%Z.
Proof.
  assert (C : createSnowflake one_at_a_time browser (init page)
              = Ok (Some 6%nat, spawned one_at_a_time browser (init page)))
    by (vm_compute; reflexivity).
  split; [exact C|].
  destruct (createSnowflake_fixed one_at_a_time browser (init page) 6%nat
              (spawned one_at_a_time browser (init page)) C)
    as (e & css & A & B & D & S).
  exists e, css. split; [exact A|]. split; [exact B|]. split.
  - apply D. reflexivity.
  - apply (S 10%Z); reflexivity.
Defined.

Lemma cleanupSnowflakes_sweeps_witness :
  let s := ran defaults [Start browser; Fire 1 browser] (init page) in
  activeFlakes s = [7%nat; 8%nat]
  ∧ stale defaults late_browser s 7%nat = true
  ∧ ∃ s', cleanupSnowflakes defaults late_browser s = Ok (tt, s')
          ∧ parent_of s' 7%nat = None.
Proof.
  intros s.
  assert (A : activeFlakes s = [7%nat; 8%nat]) by (vm_compute; reflexivity).
  assert (S : stale defaults late_browser s 7%nat = true)
    by (vm_compute; reflexivity).
  split; [exact A|]. split; [exact S|].
  destruct (cleanupSnowflakes_sweeps defaults late_browser s)
    as (s' & R & _ & _ & D & _).
  exists s'. split; [exact R|]. apply D; [|exact S].
  rewrite A. apply list_elem_of_here.
Defined.

Lemma styles_round_trip_witness :
  styleElement (init page) = None
  ∧ ∃ s', bind addStyles (λ _, removeStyles) (init page) = Ok (tt, s')
          ∧ elements s' !! box = elements (init page) !! box.
Proof.
  split; [reflexivity|].
  destruct (styles_round_trip (init page) eq_refl) as (s' & R & _ & K & _).
  exists s'. split; [exact R|]. apply K.
  apply elem_of_dom. eexists. vm_compute. reflexivity.
Defined.

Lemma animationend_removes_once_witness :
  createSnowflake defaults browser (init page)
  = Ok (Some 6%nat, spawned defaults browser (init page))
  ∧ ∃ s2, step defaults (AnimationEnd 6%nat)
               (spawned defaults browser (init page)) = Ok (tt, s2)
          ∧ step defaults (AnimationEnd 6%nat) s2 = Ok (tt, s2)
          ∧ parent_of s2 6%nat = None.
Proof.
  assert (C : createSnowflake defaults browser (init page)
              = Ok (Some 6%nat, spawned defaults browser (init page)))
    by (vm_compute; reflexivity).
  split; [exact C|].
  destruct (animationend_removes_once defaults browser _ _ _ C)
    as (s2 & A & _ & B & _ & D & _).
  exists s2. split; [exact A|]. split; [exact D|exact B].
Defined.

Lemma tick_adds_one_witness :
  let s := ran defaults [Start browser] (init page) in
  run defaults [Start browser] (init page) = Ok (tt, s)
  ∧ ∃ s' f, step defaults (Fire 1 browser) s = Ok (tt, s')
            ∧ activeFlakes s' = activeFlakes s ++ [f].
Proof.
  intros s.
  assert (R : run defaults [Start browser] (init page) = Ok (tt, s))
    by (vm_compute; reflexivity).
  split; [exact R|].
  destruct (tick_adds_one defaults page [Start browser] s 1%positive 500%Q
              browser R)
    as (s' & f & c & A & B & _);
    [vm_compute; reflexivity|reflexivity|by vm_compute|].
  exists s', f. split; [exact A|exact B].
Defined.

Lemma tracked_are_attached_witness :
  ∃ s, run defaults [Start browser; Fire 1 browser; AnimationEnd 7%nat]
           (init page) = Ok (tt, s)
       ∧ ∀ f, f ∈ activeFlakes s →
              ∃ c, containerElement s = Some c ∧ parent_of s f = Some c.
Proof.
  apply (tracked_are_attached defaults page
           [Start browser; Fire 1%positive browser; AnimationEnd 7%nat]).
  reflexivity.
Defined.

Lemma page_elements_untouched_witness :
  let evs := [Start browser; Fire 1 browser; Detach 7%nat;
              Fire 2 late_browser; Stop; Start browser] in
  page !! box = Some (with_position "static" (blank "div"))
  ∧ run defaults evs (init page) = Ok (tt, ran defaults evs (init page))
  ∧ elements (ran defaults evs (init page)) !! box
    = Some (with_position "static" (blank "div"))
  ∧ ∀ c, c ∈ childNodes (ran defaults evs (init page)) box →
         c ∈ childNodes (init page) box.
Proof.
  intros evs.
  assert (L : page !! box = Some (with_position "static" (blank "div")))
    by (vm_compute; reflexivity).
  assert (R : run defaults evs (init page)
              = Ok (tt, ran defaults evs (init page)))
    by (vm_compute; reflexivity).
  split; [exact L|]. split; [exact R|].
  destruct (page_elements_untouched defaults page evs box _
              (ran defaults evs (init page)) L) as [E K];
    [reflexivity|reflexivity|exact R|vm_compute; discriminate|].
  split; [exact E|]. intros c I.
  destruct (K c I) as [J|[N _]]; [exact J|discriminate N].
Defined.

Lemma startSnowflakes_positions_container_witness :
  getContainer defaults browser (init page)
  = Ok (Some document_body, resolved defaults browser (init page))
  ∧ ∃ s', startSnowflakes defaults browser (init page) = Ok (tt, s')
          ∧ position_of s' document_body = position_of (init page) document_body
          ∧ override_of s' document_body = None.
Proof.
  assert (G : getContainer defaults browser (init page)
              = Ok (Some document_body, resolved defaults browser (init page)))
    by (vm_compute; reflexivity).
  split; [exact G|].
  destruct (startSnowflakes_positions_container defaults browser (init page)
              document_body _ G)
    as (s' & R & _ & P & O & _); [|reflexivity|].
  { apply elem_of_dom. eexists. vm_compute. reflexivity. }
  exists s'. split; [exact R|]. split; [exact P|exact O].
Defined.

Lemma addStyles_once_witness :
  styleElement (init page) = None
  ∧ ∃ s' sheet, addStyles (init page) = Ok (tt, s')
                ∧ addStyles s' = Ok (tt, s')
                ∧ styleElement s' = Some sheet
                ∧ elements s' !! box = elements (init page) !! box.
Proof.
  split; [reflexivity|].
  destruct (addStyles_once (init page)) as (s' & A & B & _ & H).
  destruct (H eq_refl) as (sheet & e & S & F & _ & _ & _ & _ & K).
  exists s', sheet. split; [exact A|]. split; [exact B|]. split; [exact S|].
  apply K. intros E. apply F. rewrite <- E.
  apply elem_of_dom. eexists. vm_compute. reflexivity.
Defined.

Lemma tracked_are_created_witness :
  ∃ s, run defaults [Start browser; Fire 1 browser] (init page) = Ok (tt, s)
       ∧ NoDup (activeFlakes s)
       ∧ ∀ f, f ∈ activeFlakes s → f ∉ dom page.
Proof.
  destruct (tracked_are_created defaults page
              [Start browser; Fire 1%positive browser])
    as (s & R & N & A & _).
  exists s. split; [exact R|]. split; [exact N|].
  intros f F. by destruct (A f F).
Defined.

Lemma stop_leaves_no_element_witness :
  ∃ s s', run defaults [Start browser; Fire 1 browser; Detach 7%nat]
              (init page) = Ok (tt, s)
          ∧ stopSnowflakes s = Ok (tt, s')
          ∧ parent_of s' 8%nat = None.
Proof.
  destruct (stop_leaves_no_element defaults page
              [Start browser; Fire 1%positive browser; Detach 7%nat])
    as (s & R & _ & s' & T & C).
  exists s, s'. split; [exact R|]. split; [exact T|].
  apply C. apply not_elem_of_dom. vm_compute. reflexivity.
Defined.

Lemma startSnowflakes_spawns_first_witness :
  let o := with_container (CSelector EmptyString) defaults in
  refused o strict_browser (init page) = true
  ∧ (∃ s', startSnowflakes o strict_browser (init page) = Throw SyntaxError s'
           ∧ activeFlakes s' = [] ∧ containerElement s' = None
           ∧ queries (trace s') = 1%nat)
  ∧ refused defaults browser (init page) = false
  ∧ ∃ s', startSnowflakes defaults browser (init page) = Ok (tt, s')
          ∧ length (activeFlakes s') = 1%nat.
Proof.
  intros o.
  assert (R1 : refused o strict_browser (init page) = true) by reflexivity.
  assert (R2 : refused defaults browser (init page) = false) by reflexivity.
  split; [exact R1|]. split.
  - destruct (startSnowflakes_spawns_first o strict_browser (init page))
      as [H _].
    destruct (H R1) as (s' & T & A & C & _ & _ & Q).
    exists s'. split; [exact T|]. split; [exact A|]. split; [exact C|exact Q].
  - split; [exact R2|].
    destruct (startSnowflakes_spawns_first defaults browser (init page))
      as [_ H].
    destruct (H R2) as (s' & T & K).
    exists s'. split; [exact T|].
    replace (at_capacity defaults (init ∅) || too_small defaults browser)
      with false in K by (vm_compute; reflexivity).
    destruct K as (f & c & e & css & -> & _). reflexivity.
Defined.

(** A string that is no selector is queried again at every start: each
    start raises after the style element is in place, nothing is cached,
    no flake is made and no timer is set. *)
Lemma refused_selector_queried_again :
  let o := with_container (CSelector EmptyString) defaults in
  startSnowflakes o strict_browser (init page)
  = Throw SyntaxError (started_by o strict_browser (init page))
  ∧ ∃ s, run o [Start strict_browser; Start strict_browser] (init page)
         = Ok (tt, s)
         ∧ containerElement s = None ∧ queries (trace s) = 2%nat
         ∧ activeFlakes s = [] ∧ intervals s = ∅
         ∧ styleElement s = Some 6%nat.
Proof.
  intros o. split; [vm_compute; reflexivity|].
  eexists. split; [vm_compute; reflexivity|]. repeat split.
Qed.
